(** * SQL Server to Databricks DDL converter: a verified model

    A shallow embedding of [sql_to_databricks_converter.py]
    (class [SQLServerToDatabricksDDLConverter]) and the properties of its
    parser, type mapper and generator.

    Text is a list of characters.  The characters are Rocq's [ascii], read
    as the code points 0 to 255.  Whitespace, letter case and the reading of
    integers follow Python on all of them, with one exception: three letters
    have an upper case that is not one character of the range (see
    [to_upper]).  Text with characters beyond 0xff is outside the model.

    The regular expressions of the source are kept as syntax trees and run
    by a backtracking matcher with the priorities of Python's [re] module:
    leftmost alternative first, greedy repetition longest first, lazy
    repetition shortest first.

    [convert_file] and [main] run against a file system and a standard
    output that the model passes along as a state.  Two functions of the
    neighbouring scripts are modelled as well: [split_into_chunks] of
    [sp_chunk.py] and [is_token_limit] of [proc_converter_v2.py]. *)

From Stdlib Require Import String Ascii List ZArith Bool Arith Lia DecimalString.
Import ListNotations.

Definition str (s : string) : list ascii := list_ascii_of_string s.
Coercion str : string >-> list.

Definition text := list ascii.

Open Scope string_scope.
Open Scope list_scope.

(** ** Python strings *)

Module Py.

Definition code (c : ascii) : nat := nat_of_ascii c.

(** [str.isspace] on one character, which is also what [str.strip] removes
    and what the class [\s] of a pattern matches: tab, line feed, vertical
    tab, form feed, carriage return, the four separators 0x1c-0x1f, the
    space, and beyond ASCII the next-line character 0x85 and the no-break
    space 0xa0. *)
Definition is_space (c : ascii) : bool :=
  let n := code c in
  ((9 <=? n)%nat && (n <=? 13)%nat) || ((28 <=? n)%nat && (n <=? 32)%nat) ||
  (n =? 133)%nat || (n =? 160)%nat.

Definition is_upper (c : ascii) : bool := let n := code c in (65 <=? n)%nat && (n <=? 90)%nat.
Definition is_lower (c : ascii) : bool := let n := code c in (97 <=? n)%nat && (n <=? 122)%nat.
Definition is_digit (c : ascii) : bool := let n := code c in (48 <=? n)%nat && (n <=? 57)%nat.

(** The letters with two cases beyond ASCII: 0xc0-0xde without the
    multiplication sign 0xd7 are upper case, 0xe0-0xfe without the division
    sign 0xf7 are their lower case. *)
Definition is_upper_latin (c : ascii) : bool :=
  let n := code c in (192 <=? n)%nat && (n <=? 222)%nat && negb (n =? 215)%nat.
Definition is_lower_latin (c : ascii) : bool :=
  let n := code c in (224 <=? n)%nat && (n <=? 254)%nat && negb (n =? 247)%nat.

(** Three lower-case letters of the range have an upper case that is not
    one character of the range: 0xdf (two letters S), 0xb5 and 0xff (both
    beyond 0xff).  [to_upper] leaves them as they are. *)
Definition to_upper (c : ascii) : ascii :=
  if is_lower c || is_lower_latin c then ascii_of_nat (code c - 32) else c.
Definition to_lower (c : ascii) : ascii :=
  if is_upper c || is_upper_latin c then ascii_of_nat (code c + 32) else c.

(** [s.upper()], [s.lower()] *)
Definition upper (s : text) : text := map to_upper s.
Definition lower (s : text) : text := map to_lower s.

(** [s.lstrip()], [s.rstrip()], [s.strip()] *)
Fixpoint lstrip (s : text) : text :=
  match s with
  | c :: t => if is_space c then lstrip t else s
  | [] => []
  end.
Definition rstrip (s : text) : text := rev (lstrip (rev s)).
Definition strip (s : text) : text := lstrip (rstrip s).

(** [s.startswith(p)] *)
Fixpoint starts_with (p s : text) : bool :=
  match p, s with
  | [], _ => true
  | a :: p', b :: s' => Ascii.eqb a b && starts_with p' s'
  | _ :: _, [] => false
  end.

(** [needle in hay] *)
Fixpoint contains (needle hay : text) : bool :=
  starts_with needle hay ||
  match hay with
  | _ :: t => contains needle t
  | [] => false
  end.

(** [sep.join(parts)] *)
Fixpoint join (sep : text) (parts : list text) : text :=
  match parts with
  | [] => []
  | [p] => p
  | p :: rest => p ++ sep ++ join sep rest
  end.

(** Truth value of a string, and of an optional string ([None] is false). *)
Definition truthy (s : text) : bool := match s with [] => false | _ :: _ => true end.
Definition truthy_opt (o : option text) : bool :=
  match o with Some s => truthy s | None => false end.

(** [s[a:b]] with Python's treatment of negative and out-of-range bounds. *)
Definition norm_idx (len i : Z) : Z :=
  if (i <? 0)%Z then Z.max 0 (len + i) else Z.min i len.
Definition slice (s : text) (a b : Z) : text :=
  let len := Z.of_nat (length s) in
  let a' := norm_idx len a in
  let b' := norm_idx len b in
  firstn (Z.to_nat (b' - a')) (skipn (Z.to_nat a') s).

(** Exceptions the modelled code can meet. *)
Inductive exn : Type := AttributeError | ValueError.

Inductive result (A : Type) : Type :=
| Ok (a : A)
| Raise (e : exn).
Arguments Ok {A} a.
Arguments Raise {A} e.

Definition bind {A B : Type} (m : result A) (f : A -> result B) : result B :=
  match m with
  | Ok a => f a
  | Raise e => Raise e
  end.

(** [int(s)] for a string [s]: surrounding whitespace is dropped, one sign is
    allowed, then decimal digits, with single underscores allowed between
    digits; anything else raises [ValueError], and so do more digits than
    the interpreter's limit, which is 4300 unless it is configured.  The
    whitespace [int] drops is not that of [str.strip]: the separators
    0x1c-0x1f are not part of it. *)
Definition is_int_space (c : ascii) : bool :=
  let n := code c in
  ((9 <=? n)%nat && (n <=? 13)%nat) || (n =? 32)%nat || (n =? 133)%nat ||
  (n =? 160)%nat.

Fixpoint int_lstrip (s : text) : text :=
  match s with
  | c :: t => if is_int_space c then int_lstrip t else s
  | [] => []
  end.
Definition int_strip (s : text) : text := int_lstrip (rev (int_lstrip (rev s))).

Definition max_str_digits : Z := 4300.

Definition digit_val (c : ascii) : Z := Z.of_nat (code c - 48).

Fixpoint int_digits (acc : Z) (s : text) : option Z :=
  match s with
  | [] => Some acc
  | c :: t =>
      if is_digit c then int_digits (10 * acc + digit_val c)%Z t
      else if Ascii.eqb c "_" then
        match t with
        | d :: _ => if is_digit d then int_digits acc t else None
        | [] => None
        end
      else None
  end.

Definition int_unsigned (s : text) : option Z :=
  match s with
  | c :: _ =>
      if is_digit c then
        if (max_str_digits <? Z.of_nat (length (filter is_digit s)))%Z then None
        else int_digits 0 s
      else None
  | [] => None
  end.

Definition int (s : text) : result Z :=
  let s := int_strip s in
  let r :=
    match s with
    | c :: t =>
        if Ascii.eqb c "-" then option_map Z.opp (int_unsigned t)
        else if Ascii.eqb c "+" then int_unsigned t
        else int_unsigned s
    | [] => None
    end in
  match r with
  | Some n => Ok n
  | None => Raise ValueError
  end.

End Py.

Notation "x <- m ;; f" := (Py.bind m (fun x => f))
  (at level 61, m at next level, right associativity).

(** ** Regular expressions

    The fragment of Python's [re] syntax the converter uses.  Repetition is
    only ever applied to a single character class in the source, so [Star]
    and [StarLazy] take a class. *)

Module Re.

Inductive re : Type :=
| Eps                              (* the empty pattern *)
| Chr (p : ascii -> bool)          (* one character of a class *)
| Star (p : ascii -> bool)         (* c*   greedy *)
| StarLazy (p : ascii -> bool)     (* c*?  lazy *)
| Opt (r : re)                     (* r?   greedy *)
| Seq (r1 r2 : re)
| Alt (r1 r2 : re)                 (* r1|r2 *)
| Grp (n : nat) (r : re)           (* capturing group number n *)
| Bol (multiline : bool)           (* ^ *)
| Eol (multiline : bool)           (* $ *)
| Ahead (r : re).                  (* (?=r) *)

(** Character classes. *)
Definition only (c : ascii) : ascii -> bool := Ascii.eqb c.
Definition is_ci (c : ascii) : ascii -> bool :=
  fun x => Ascii.eqb (Py.to_upper x) (Py.to_upper c).
Definition any : ascii -> bool := fun _ => true.                      (* . with DOTALL *)
Definition dot : ascii -> bool := fun x => negb (Ascii.eqb x "010").  (* . *)
Definition space : ascii -> bool := Py.is_space.                       (* \s *)
Definition none_of (cs : text) : ascii -> bool :=
  fun x => negb (existsb (Ascii.eqb x) cs).
Definition letter_ : ascii -> bool :=                                  (* [a-zA-Z_] *)
  fun x => Py.is_lower x || Py.is_upper x || Ascii.eqb x "_".

(** Derived forms. *)
Definition Plus (p : ascii -> bool) : re := Seq (Chr p) (Star p).     (* c+ *)
Definition seqs (rs : list re) : re := fold_right Seq Eps rs.
Definition lit (s : text) : re := seqs (map (fun c => Chr (only c)) s).
Definition lit_ci (s : text) : re := seqs (map (fun c => Chr (is_ci c)) s).
Fixpoint alts (rs : list re) : re :=
  match rs with
  | [] => Eps
  | [r] => r
  | r :: rest => Alt r (alts rest)
  end.

(** The state of a match in progress: the subject text already passed
    (latest character first), the text still ahead, and the groups set so
    far (latest first). *)
Record mstate : Type := MState {
  seen : text;
  rest : text;
  caps : list (nat * text)
}.

Definition at_bol (multiline : bool) (st : mstate) : bool :=
  match seen st with
  | [] => true
  | c :: _ => multiline && Ascii.eqb c "010"
  end.

Definition at_eol (multiline : bool) (st : mstate) : bool :=
  match rest st with
  | [] => true
  | c :: t => Ascii.eqb c "010" && (multiline || match t with [] => true | _ => false end)
  end.

(** Greedy repetition tries the longest run first and gives characters back
    one at a time; lazy repetition tries the shortest run first. *)
Fixpoint star_greedy {R : Type} (p : ascii -> bool) (sn rs : text)
    (k : text -> text -> option R) : option R :=
  match rs with
  | c :: t =>
      if p c then
        match star_greedy p (c :: sn) t k with
        | Some r => Some r
        | None => k sn rs
        end
      else k sn rs
  | [] => k sn rs
  end.

Fixpoint star_lazy {R : Type} (p : ascii -> bool) (sn rs : text)
    (k : text -> text -> option R) : option R :=
  match k sn rs with
  | Some r => Some r
  | None =>
      match rs with
      | c :: t => if p c then star_lazy p (c :: sn) t k else None
      | [] => None
      end
  end.

(** The text passed between two states of the same match. *)
Definition passed (st st' : mstate) : text :=
  rev (firstn (length (seen st') - length (seen st)) (seen st')).

(** [run r st k]: match [r] at [st], then continue with [k]; the first
    success in priority order is returned. *)
Fixpoint run (r : re) (st : mstate) (k : mstate -> option mstate) {struct r}
    : option mstate :=
  match r with
  | Eps => k st
  | Chr p =>
      match rest st with
      | c :: t => if p c then k (MState (c :: seen st) t (caps st)) else None
      | [] => None
      end
  | Star p =>
      star_greedy p (seen st) (rest st) (fun sn rs => k (MState sn rs (caps st)))
  | StarLazy p =>
      star_lazy p (seen st) (rest st) (fun sn rs => k (MState sn rs (caps st)))
  | Opt r1 =>
      match run r1 st k with
      | Some m => Some m
      | None => k st
      end
  | Seq r1 r2 => run r1 st (fun st' => run r2 st' k)
  | Alt r1 r2 =>
      match run r1 st k with
      | Some m => Some m
      | None => run r2 st k
      end
  | Grp n r1 =>
      run r1 st (fun st' =>
        k (MState (seen st') (rest st') ((n, passed st st') :: caps st')))
  | Bol ml => if at_bol ml st then k st else None
  | Eol ml => if at_eol ml st then k st else None
  | Ahead r1 =>
      match run r1 st Some with
      | Some _ => k st
      | None => None
      end
  end.

(** [m.group(n)] for [n >= 1]: [None] when the group took no part. *)
Fixpoint assoc (n : nat) (l : list (nat * text)) : option text :=
  match l with
  | [] => None
  | (m, v) :: l' => if Nat.eqb n m then Some v else assoc n l'
  end.
Definition group (m : mstate) (n : nat) : option text := assoc n (caps m).

(** The converter uses groups 1 and 2 as strings at once; a group that took
    no part would be [None] there, and the first string method called on it
    raises [AttributeError]. *)
Definition group_str (m : mstate) (n : nat) : Py.result text :=
  match group m n with
  | Some s => Py.Ok s
  | None => Py.Raise Py.AttributeError
  end.

(** [re.match(r, s)] *)
Definition re_match (r : re) (s : text) : option mstate :=
  run r (MState [] s []) Some.

(** One search step at the current position: the length of the match found
    there.  With [must_advance] an empty match is refused, as after an empty
    match at the same position. *)
Definition match_len (r : re) (sn rs : text) (must_advance : bool) : option nat :=
  match run r (MState sn rs [])
          (fun st' => if must_advance && (length (rest st') =? length rs)%nat
                      then None else Some st') with
  | Some st' => Some (length rs - length (rest st'))
  | None => None
  end.

(** [re.sub(r, repl, s)] for a constant replacement: the [skip] characters
    of the match found last are passed over without being copied. *)
Fixpoint sub_loop (r : re) (repl sn rs : text) (skip : nat) {struct rs} : text :=
  match skip, rs with
  | S n, c :: t => sub_loop r repl (c :: sn) t n
  | S _, [] => []
  | O, _ =>
      let copy :=
        match rs with
        | c :: t => c :: sub_loop r repl (c :: sn) t 0
        | [] => []
        end in
      let pass (n : nat) :=
        match rs with
        | c :: t => sub_loop r repl (c :: sn) t n
        | [] => []
        end in
      match match_len r sn rs false with
      | None => copy
      | Some (S n) => repl ++ pass n
      | Some O =>
          repl ++
          match match_len r sn rs true with
          | Some (S n) => repl ++ pass n
          | _ => copy
          end
      end
  end.

Definition re_sub (r : re) (repl s : text) : text := sub_loop r repl [] s 0.

(** [re.split(r, s)] for a pattern without groups: [cur] is the piece being
    collected, latest character first. *)
Fixpoint split_loop (r : re) (sn rs cur : text) (skip : nat) {struct rs} : list text :=
  match skip, rs with
  | S n, c :: t => split_loop r (c :: sn) t cur n
  | S _, [] => [rev cur]
  | O, _ =>
      let copy :=
        match rs with
        | c :: t => split_loop r (c :: sn) t (c :: cur) 0
        | [] => [rev cur]
        end in
      let pass (n : nat) :=
        match rs with
        | c :: t => split_loop r (c :: sn) t [] n
        | [] => [[]]
        end in
      match match_len r sn rs false with
      | None => copy
      | Some (S n) => rev cur :: pass n
      | Some O =>
          rev cur ::
          match match_len r sn rs true with
          | Some (S n) => [] :: pass n
          | _ =>
              match rs with
              | c :: t => split_loop r (c :: sn) t [c] 0
              | [] => [[]]
              end
          end
      end
  end.

Definition re_split (r : re) (s : text) : list text := split_loop r [] s [] 0.

End Re.

(** ** The converter *)

Import Py Re.

Definition nl : text := ["010"%char].

Fixpoint text_eqb (a b : text) : bool :=
  match a, b with
  | [], [] => true
  | x :: a', y :: b' => Ascii.eqb x y && text_eqb a' b'
  | _, _ => false
  end.

(** [x in [a, b, ...]] *)
Definition in_list (x : text) (l : list string) : bool :=
  existsb (fun y => text_eqb x (str y)) l.

(** [d.get(key, default)] on a dictionary written as its list of items. *)
Fixpoint dict_get (d : list (string * string)) (key default : text) : text :=
  match d with
  | [] => default
  | (k, v) :: d' => if text_eqb key (str k) then str v else dict_get d' key default
  end.

(** The dictionaries the parser builds: a column and a table. *)
Record ColumnDefinition : Type := Column {
  col_name : text;
  col_type : text;
  col_params : option text;
  nullable : bool
}.

Record TableDefinition : Type := Table {
  schema : option text;
  name : text;
  columns : list ColumnDefinition
}.

(** [self.type_mapping] *)
Definition type_mapping : list (string * string) :=
  [ ("int", "INT"); ("bigint", "BIGINT"); ("smallint", "SMALLINT");
    ("tinyint", "TINYINT"); ("bit", "BOOLEAN"); ("decimal", "DECIMAL");
    ("numeric", "DECIMAL"); ("float", "DOUBLE"); ("real", "FLOAT");
    ("money", "DECIMAL(19,4)"); ("smallmoney", "DECIMAL(10,4)");
    ("char", "STRING"); ("varchar", "STRING"); ("text", "STRING");
    ("nchar", "STRING"); ("nvarchar", "STRING"); ("ntext", "STRING");
    ("date", "DATE"); ("datetime", "TIMESTAMP"); ("datetime2", "TIMESTAMP");
    ("datetimeoffset", "TIMESTAMP"); ("smalldatetime", "TIMESTAMP");
    ("time", "STRING"); ("timestamp", "BINARY");
    ("binary", "BINARY"); ("varbinary", "BINARY"); ("image", "BINARY");
    ("uniqueidentifier", "STRING"); ("xml", "STRING");
    ("sql_variant", "STRING"); ("geography", "STRING");
    ("geometry", "STRING"); ("hierarchyid", "STRING") ].

(** *** The patterns, in the order the source uses them: each source
    pattern as written, then its syntax tree *)

(** Flags MULTILINE, IGNORECASE. *)
Definition go_pattern : string := "^GO\s*$".
Definition re_go : re := seqs [Bol true; lit_ci "GO"; Star space; Eol true].
(** Flags MULTILINE, IGNORECASE. *)
Definition use_pattern : string := "^USE\s+.*$".
Definition re_use : re := seqs [Bol true; lit_ci "USE"; Plus space; Star dot; Eol true].
(** Flags MULTILINE, IGNORECASE. *)
Definition set_pattern : string := "^SET\s+.*$".
Definition re_set : re := seqs [Bol true; lit_ci "SET"; Plus space; Star dot; Eol true].
(** Flag DOTALL. *)
Definition comment_pattern : string := "/\*.*?\*/".
Definition re_comment : re := seqs [lit "/*"; StarLazy any; lit "*/"].
(** Flag IGNORECASE. *)
Definition create_table_source : string := "CREATE\s+TABLE\s+".
Definition create_table_pattern : re :=
  seqs [lit_ci "CREATE"; Plus space; lit_ci "TABLE"; Plus space].

(** No flags. *)
Definition schema_table_pattern : string := "\[?([^\[\]]+)\]?\.\[?([^\[\]]+)\]?\s*\(".
Definition re_schema_table : re :=
  seqs [Opt (Chr (only "[")); Grp 1 (Plus (none_of "[]")); Opt (Chr (only "]"));
        Chr (only ".");
        Opt (Chr (only "[")); Grp 2 (Plus (none_of "[]")); Opt (Chr (only "]"));
        Star space; Chr (only "(")].
(** No flags. *)
Definition table_pattern : string := "\[?([^\[\]]+)\]?\s*\(".
Definition re_table : re :=
  seqs [Opt (Chr (only "[")); Grp 1 (Plus (none_of "[]")); Opt (Chr (only "]"));
        Star space; Chr (only "(")].

(** Flags DOTALL, IGNORECASE. *)
Definition constraint_pattern : string :=
  ",?\s*CONSTRAINT\s+\[?[^\]]*\]?\s+(PRIMARY KEY|UNIQUE|FOREIGN KEY|CHECK).*?(?:WITH\s*\([^)]*\))?.*?(?=,\s*\[|$)".
Definition re_constraint : re :=
  seqs [Opt (Chr (only ",")); Star space; lit_ci "CONSTRAINT"; Plus space;
        Opt (Chr (only "[")); Star (none_of "]"); Opt (Chr (only "]")); Plus space;
        Grp 1 (alts [lit_ci "PRIMARY KEY"; lit_ci "UNIQUE";
                     lit_ci "FOREIGN KEY"; lit_ci "CHECK"]);
        StarLazy any;
        Opt (seqs [lit_ci "WITH"; Star space; Chr (only "(");
                   Star (none_of ")"); Chr (only ")")]);
        StarLazy any;
        Ahead (Alt (seqs [Chr (only ","); Star space; Chr (only "[")]) (Eol false))].

(** Flag IGNORECASE. *)
Definition skip_pattern : string :=
  "^\s*(CONSTRAINT|PRIMARY|UNIQUE|FOREIGN|CHECK|PAD_INDEX|STATISTICS_NORECOMPUTE|IGNORE_DUP_KEY|ALLOW_ROW_LOCKS|ALLOW_PAGE_LOCKS)".
Definition skip_keywords : list string :=
  ["CONSTRAINT"; "PRIMARY"; "UNIQUE"; "FOREIGN"; "CHECK"; "PAD_INDEX";
   "STATISTICS_NORECOMPUTE"; "IGNORE_DUP_KEY"; "ALLOW_ROW_LOCKS";
   "ALLOW_PAGE_LOCKS"].
Definition re_skip : re :=
  seqs [Bol false; Star space; Grp 1 (alts (map (fun k => lit_ci (str k)) skip_keywords))].

(** No flags. *)
Definition column_pattern : string :=
  "\[?([^\[\]]+)\]?\s+\[?([a-zA-Z_]+)(?:\(([^)]+)\))?\]?\s*(.*)".
Definition re_column : re :=
  seqs [Opt (Chr (only "[")); Grp 1 (Plus (none_of "[]")); Opt (Chr (only "]"));
        Plus space;
        Opt (Chr (only "[")); Grp 2 (Plus letter_);
        Opt (seqs [Chr (only "("); Grp 3 (Plus (none_of ")")); Chr (only ")")]);
        Opt (Chr (only "]")); Star space; Grp 4 (Star dot)].

(** *** [_smart_split] *)

(** The loop over the characters; the result is [parts] and [current] as
    they stand when the text is exhausted. *)
Fixpoint smart_split_loop (txt : text) (parts : list text) (current : text)
    (paren_depth : Z) : list text * text :=
  match txt with
  | [] => (parts, current)
  | char :: txt' =>
      if Ascii.eqb char "(" then
        smart_split_loop txt' parts (current ++ [char]) (paren_depth + 1)
      else if Ascii.eqb char ")" then
        smart_split_loop txt' parts (current ++ [char]) (paren_depth - 1)
      else if Ascii.eqb char "," && (paren_depth =? 0)%Z then
        smart_split_loop txt' (parts ++ [strip current]) [] paren_depth
      else
        smart_split_loop txt' parts (current ++ [char]) paren_depth
  end.

Definition _smart_split (txt : text) : list text :=
  let '(parts, current) := smart_split_loop txt [] [] 0 in
  if truthy current then parts ++ [strip current] else parts.

(** *** [_parse_columns] *)

Definition index_options : list string :=
  ["PAD_INDEX"; "STATISTICS_NORECOMPUTE"; "IGNORE_DUP_KEY"; "ALLOW_ROW_LOCKS";
   "ALLOW_PAGE_LOCKS"].

(** The body of the loop over [column_lines]: [Ok None] stands for a line
    that adds no column ([continue], or no match). *)
Definition parse_column_line (line : text) : result (option ColumnDefinition) :=
  let line := strip line in
  if negb (truthy line) then Ok None
  else if match re_match re_skip line with Some _ => true | None => false end
  then Ok None
  else if contains "=" line
          && existsb (fun opt => contains (str opt) (upper line)) index_options
  then Ok None
  else
    match re_match re_column line with
    | Some column_match =>
        col_name <- group_str column_match 1 ;;
        g2 <- group_str column_match 2 ;;
        let col_type := lower g2 in
        let col_params := group column_match 3 in
        let col_modifiers :=
          if truthy_opt (group column_match 4)
          then match group column_match 4 with Some s => s | None => [] end
          else [] in
        let nullable := negb (contains "NOT NULL" (upper col_modifiers)) in
        Ok (Some (Column col_name col_type col_params nullable))
    | None => Ok None
    end.

Fixpoint parse_columns_loop (column_lines : list text)
    (columns : list ColumnDefinition) : result (list ColumnDefinition) :=
  match column_lines with
  | [] => Ok columns
  | line :: more =>
      c <- parse_column_line line ;;
      match c with
      | Some col => parse_columns_loop more (columns ++ [col])
      | None => parse_columns_loop more columns
      end
  end.

Definition _parse_columns (columns_raw : text) : result (list ColumnDefinition) :=
  let column_lines := _smart_split columns_raw in
  parse_columns_loop column_lines [].

(** *** [_parse_single_table] *)

(** The scan for the bounds of the column list: the result is
    [(start_idx, end_idx)], each [-1] when not set. *)
Fixpoint scan_body (cs : text) (i paren_depth start_idx : Z) : Z * Z :=
  match cs with
  | [] => (start_idx, (-1)%Z)
  | char :: cs' =>
      if Ascii.eqb char "(" then
        let start_idx :=
          if (paren_depth =? 0)%Z && (start_idx =? -1)%Z then (i + 1)%Z
          else start_idx in
        scan_body cs' (i + 1) (paren_depth + 1) start_idx
      else if Ascii.eqb char ")" then
        let paren_depth := (paren_depth - 1)%Z in
        if (paren_depth =? 0)%Z && negb (start_idx =? -1)%Z then (start_idx, i)
        else scan_body cs' (i + 1) paren_depth start_idx
      else scan_body cs' (i + 1) paren_depth start_idx
  end.

(** The table name: [Ok None] when neither pattern matches. *)
Definition table_name_of (table_content : text)
    : result (option (option text * text)) :=
  match re_match re_schema_table table_content with
  | Some table_name_match =>
      schema_name <- group_str table_name_match 1 ;;
      table_name <- group_str table_name_match 2 ;;
      Ok (Some (Some schema_name, table_name))
  | None =>
      match re_match re_table table_content with
      | Some table_name_match =>
          table_name <- group_str table_name_match 1 ;;
          Ok (Some (None, table_name))
      | None => Ok None
      end
  end.

Definition _parse_single_table (table_content : text)
    : result (option TableDefinition) :=
  names <- table_name_of table_content ;;
  match names with
  | None => Ok None
  | Some (schema_name, table_name) =>
      let '(start_idx, end_idx) := scan_body table_content 0 0 (-1) in
      if (start_idx =? -1)%Z || (end_idx =? -1)%Z then Ok None
      else
        let columns_raw := slice table_content start_idx end_idx in
        let columns_raw := re_sub re_constraint [] columns_raw in
        columns <- _parse_columns columns_raw ;;
        Ok (Some (Table schema_name table_name columns))
  end.

(** *** [parse_sql_server_ddl] *)

(** [if table_info:] holds for every dictionary returned: it has three
    keys, and only the empty dictionary and [None] are false. *)
Fixpoint parse_tables_loop (tables_raw : list text)
    (tables : list TableDefinition) : result (list TableDefinition) :=
  match tables_raw with
  | [] => Ok tables
  | table_raw :: more =>
      table_info <- _parse_single_table table_raw ;;
      match table_info with
      | Some t => parse_tables_loop more (tables ++ [t])
      | None => parse_tables_loop more tables
      end
  end.

(** The four substitutions that clean the document. *)
Definition clean (content : text) : text :=
  let content := re_sub re_go [] content in
  let content := re_sub re_use [] content in
  let content := re_sub re_set [] content in
  re_sub re_comment [] content.

Definition parse_sql_server_ddl (content : text) : result (list TableDefinition) :=
  let content := clean content in
  let tables_raw := re_split create_table_pattern content in
  parse_tables_loop (tl tables_raw) [].

(** *** [convert_data_type] *)

Definition convert_data_type (sql_server_type : text) (params : option text) : text :=
  let base_type := lower sql_server_type in
  if in_list base_type ["decimal"; "numeric"] && truthy_opt params then
    "DECIMAL(" ++ match params with Some p => p | None => "None" end ++ ")"
  else if in_list base_type ["char"; "varchar"; "nchar"; "nvarchar"] then
    "STRING"
  else if in_list base_type ["float"] && truthy_opt params then
    match int (match params with Some p => p | None => [] end) with
    | Ok n => if (n <? 25)%Z then "FLOAT" else "DOUBLE"
    | Raise _ => "DOUBLE"
    end
  else dict_get type_mapping base_type "STRING".

(** *** [generate_databricks_ddl] *)

Definition column_def (col : ColumnDefinition) : text :=
  let databricks_type := convert_data_type (col_type col) (col_params col) in
  let null_clause : text := if nullable col then "" else " NOT NULL" in
  "  " ++ col_name col ++ " " ++ databricks_type ++ null_clause.

Definition generate_databricks_ddl (table : TableDefinition) (use_catalog : bool) : text :=
  let full_table_name :=
    if use_catalog && truthy_opt (schema table)
    then match schema table with Some s => s | None => [] end ++ "." ++ name table
    else name table in
  let column_defs := map column_def (columns table) in
  let ddl_parts : list text :=
    [ "CREATE TABLE IF NOT EXISTS " ++ full_table_name ++ " (";
      join ("," ++ nl) column_defs;
      str ")";
      str "USING DELTA;" ] in
  join nl ddl_parts.

(** ** The vocabulary of the properties *)

(** The worked example of the specification, and what the parser returns
    for it. *)
Definition orders_ddl : text :=
  "CREATE TABLE dbo.Orders ( [Id] int NOT NULL, [Amount] decimal(10,2) NULL, CONSTRAINT PK_Orders PRIMARY KEY (Id) )".

Definition orders_parsed : TableDefinition :=
  Table (Some (str "dbo")) "Orders "
    [ Column "Id" "int" None false;
      Column "Amount" "decimal" (Some (str "10,2")) true ].

(** The change of nesting depth at one character. *)
Definition paren_step (c : ascii) : Z :=
  if Ascii.eqb c "(" then 1 else if Ascii.eqb c ")" then (-1) else 0.

(** The signed nesting depth a text leaves behind: the number of opening
    parentheses minus the number of closing ones. *)
Fixpoint depth (s : text) : Z :=
  match s with
  | [] => 0
  | c :: t => paren_step c + depth t
  end.

(** The fragments a text contributes when a split point follows it. *)
Definition closed_parts (a : text) : list text :=
  let '(parts, current) := smart_split_loop a [] [] 0 in parts ++ [strip current].

(** The groups a pattern sets on every path through it. *)
Fixpoint sure_groups (r : re) : list nat :=
  match r with
  | Seq r1 r2 => sure_groups r1 ++ sure_groups r2
  | Grp n r1 => n :: sure_groups r1
  | _ => []
  end.

(** The columns a line adds. *)
Definition columns_of_line (line : text) : list ColumnDefinition :=
  match parse_column_line line with
  | Ok (Some col) => [col]
  | _ => []
  end.

(** The tables a fragment adds. *)
Definition tables_of_fragment (table_raw : text) : list TableDefinition :=
  match _parse_single_table table_raw with
  | Ok (Some t) => [t]
  | _ => []
  end.

(** The fragments handed to [_parse_single_table]: what follows each
    CREATE TABLE in the cleaned document. *)
Definition fragments (content : text) : list text :=
  tl (re_split create_table_pattern (clean content)).

(** A type is known when its lower-cased name is a key of [type_mapping]. *)
Definition known_type (base_type : text) : bool :=
  existsb (fun kv => text_eqb base_type (str (fst kv))) type_mapping.

(** A text without parentheses. *)
Definition no_paren (s : text) : Prop :=
  forall c, In c s -> c <> "("%char /\ c <> ")"%char.

(** A fragment has an unmatched opening parenthesis when the text after
    one of its opening parentheses never closes it. *)
Definition unmatched_open (table_content : text) : Prop :=
  exists pre body,
    table_content = pre ++ "("%char :: body /\
    forall n, (0 <= depth (firstn n body))%Z.

(** A fragment is unclosed when its first parenthesis opens the column list
    and the text after it never closes it: no prefix of that text closes
    more parentheses than it opens. *)
Definition unclosed (table_content : text) : Prop :=
  exists pre body,
    table_content = pre ++ "("%char :: body /\
    no_paren pre /\
    forall n, (0 <= depth (firstn n body))%Z.

(** A marker occurs in a text in any letter case. *)
Definition occurs_ci (marker : string) (s : text) : Prop :=
  exists a m b, s = a ++ m ++ b /\ upper m = str marker.

(** [s] begins with the letters of [w], in any letter case. *)
Fixpoint starts_with_ci (w s : text) : bool :=
  match w, s with
  | [], _ => true
  | a :: w', b :: s' => is_ci a b && starts_with_ci w' s'
  | _ :: _, [] => false
  end.

(** The keywords that open a constraint clause: the first five of the
    filter. *)
Definition constraint_keywords : list string :=
  ["CONSTRAINT"; "PRIMARY"; "UNIQUE"; "FOREIGN"; "CHECK"].

(** A line begins with a keyword when, after optional whitespace, its next
    letters are those of the keyword in some letter case. *)
Definition begins_with_ci (kw : string) (line : text) : Prop :=
  exists ws word rest,
    line = ws ++ word ++ rest /\ forallb is_space ws = true /\ upper word = str kw.

(** The column section of the rendered text: the second of [ddl_parts]. *)
Definition column_section (table : TableDefinition) : text :=
  join ("," ++ nl) (map column_def (columns table)).

(** The characters of an identifier: letters, digits and the underscore. *)
Definition ident_char (c : ascii) : bool := letter_ c || is_digit c.

(** Columns the renderer writes on one line that reads as a column line:
    named by an identifier that does not begin with a keyword of the
    filter, and with params of ASCII characters free of whitespace,
    parentheses, brackets and equals signs. *)
Definition plain_name (s : text) : bool :=
  truthy s && forallb ident_char s &&
  forallb (fun kw => negb (starts_with_ci (str kw) s)) skip_keywords.

Definition plain_param_char (c : ascii) : bool :=
  (code c <? 128)%nat && negb (is_space c) && none_of "()[]=" c.

Definition plain_params (o : option text) : bool :=
  match o with
  | None => true
  | Some p => forallb plain_param_char p
  end.

Definition renderable (col : ColumnDefinition) : bool :=
  plain_name (col_name col) && plain_params (col_params col).

(** The name the column parser reads from the rendered line of a column:
    the line of a NOT NULL column gives the name, the type and the word NOT,
    all in the name. *)
Definition name_read_back (col : ColumnDefinition) : text :=
  if nullable col then col_name col
  else col_name col ++ " " ++ convert_data_type (col_type col) (col_params col)
       ++ " NOT".

(** The text of a rendered type: a word of capitals, then nothing or a
    parenthesized argument text. *)
Definition args_text (args : option text) : text :=
  match args with
  | None => []
  | Some q => "(" ++ q ++ ")"
  end.

Definition type_shape (T : text) : Prop :=
  exists w args,
    T = w ++ args_text args /\ w <> [] /\ forallb is_upper w = true /\
    match args with
    | None => True
    | Some q => q <> [] /\ forallb plain_param_char q = true
    end.

(** A fact about one character, settled on each of its 256 values. *)
Ltac by_cases_on_char c :=
  destruct c as [[] [] [] [] [] [] [] []]; vm_compute; congruence.

(** A text is collected whole when the loop, at depth 0, adds it to
    [current] without a split and is at depth 0 again after it. *)
Definition whole (L : text) : Prop :=
  forall r parts cur,
    smart_split_loop (L ++ r) parts cur 0 = smart_split_loop r parts (cur ++ L) 0.

(** The end of [_smart_split]: the last fragment is added when it is not
    empty. *)
Definition finish (pc : list text * text) : list text :=
  let '(parts, current) := pc in
  if truthy current then parts ++ [strip current] else parts.

(** What follows the name in the column pattern. *)
Definition column_tail : re :=
  seqs [Opt (Chr (only "]")); Plus space;
        Opt (Chr (only "[")); Grp 2 (Plus letter_);
        Opt (seqs [Chr (only "("); Grp 3 (Plus (none_of ")")); Chr (only ")")]);
        Opt (Chr (only "]")); Star space; Grp 4 (Star dot)].

(** The characters of a rendered type and of a plain name. *)
Definition type_char (c : ascii) : bool := negb (is_space c) && none_of "[]=" c.

(** ** The vocabulary of the further properties *)

(** What a successful match of a pattern does to the state, written as a
    relation: [matches r st st'] when [r] can pass from [st] to [st']. *)
Inductive matches : re -> mstate -> mstate -> Prop :=
| M_eps st : matches Eps st st
| M_chr p c sn t cps :
    p c = true ->
    matches (Chr p) (MState sn (c :: t) cps) (MState (c :: sn) t cps)
| M_star p a sn b cps :
    forallb p a = true ->
    matches (Star p) (MState sn (a ++ b) cps) (MState (rev a ++ sn) b cps)
| M_star_lazy p a sn b cps :
    forallb p a = true ->
    matches (StarLazy p) (MState sn (a ++ b) cps) (MState (rev a ++ sn) b cps)
| M_opt_some r st st' : matches r st st' -> matches (Opt r) st st'
| M_opt_none r st : matches (Opt r) st st
| M_seq r1 r2 st st1 st2 :
    matches r1 st st1 -> matches r2 st1 st2 -> matches (Seq r1 r2) st st2
| M_alt_l r1 r2 st st' : matches r1 st st' -> matches (Alt r1 r2) st st'
| M_alt_r r1 r2 st st' : matches r2 st st' -> matches (Alt r1 r2) st st'
| M_grp n r st st' :
    matches r st st' ->
    matches (Grp n r) st
      (MState (seen st') (rest st') ((n, passed st st') :: caps st'))
| M_bol ml st : at_bol ml st = true -> matches (Bol ml) st st
| M_eol ml st : at_eol ml st = true -> matches (Eol ml) st st
| M_ahead r st st' : matches r st st' -> matches (Ahead r) st st.

(** A property [Q n v] of the text [v] of group [n] that every group of the
    pattern guarantees by its body. *)
Fixpoint groups_keep (Q : nat -> text -> Prop) (r : re) : Prop :=
  match r with
  | Grp n r1 =>
      (forall st st', matches r1 st st' -> Q n (passed st st')) /\ groups_keep Q r1
  | Seq r1 r2 | Alt r1 r2 => groups_keep Q r1 /\ groups_keep Q r2
  | Opt r1 | Ahead r1 => groups_keep Q r1
  | _ => True
  end.

(** A balanced text: it closes every parenthesis it opens and never closes
    one it has not opened. *)
Definition balanced (body : text) : Prop :=
  depth body = 0%Z /\ forall n, (0 <= depth (firstn n body))%Z.

(** What the groups of the column pattern and of the two table-name patterns
    hold when they are set. *)
Definition column_group_ok (n : nat) (v : text) : Prop :=
  match n with
  | 1 => v <> [] /\ forallb (none_of "[]") v = true
  | 2 => v <> [] /\ forallb letter_ v = true
  | 3 => v <> [] /\ forallb (none_of ")") v = true
  | 4 => forallb dot v = true
  | _ => True
  end.

Definition name_group_ok (n : nat) (v : text) : Prop :=
  match n with
  | 1 | 2 => v <> [] /\ forallb (none_of "[]") v = true
  | _ => True
  end.

(** A well-formed parsed column: a name that is not empty and has no
    bracket, a type of lower-case letters and underscores that is not empty,
    and params, when there are any, that are not empty and have no closing
    parenthesis. *)
Definition lower_letter_ (c : ascii) : bool := is_lower c || Ascii.eqb c "_".

Definition column_ok (col : ColumnDefinition) : Prop :=
  col_name col <> [] /\ forallb (none_of "[]") (col_name col) = true /\
  col_type col <> [] /\ forallb lower_letter_ (col_type col) = true /\
  match col_params col with
  | Some p => p <> [] /\ forallb (none_of ")") p = true
  | None => True
  end.

(** A well-formed parsed table: a name, and a schema when there is one, that
    are not empty and have no bracket, and well-formed columns. *)
Definition table_ok (t : TableDefinition) : Prop :=
  name t <> [] /\ forallb (none_of "[]") (name t) = true /\
  match schema t with
  | Some s => s <> [] /\ forallb (none_of "[]") s = true
  | None => True
  end /\
  forall col, In col (columns t) -> column_ok col.

(** The text of a column line after its type: nothing, or one space and the
    modifiers. *)
Definition tail_text (mods : option text) : text :=
  match mods with
  | None => []
  | Some m => " " ++ m
  end.

Definition mods_text (mods : option text) : text :=
  match mods with
  | None => []
  | Some m => m
  end.

(** A text without an equals sign. *)
Definition no_equals (s : text) : Prop :=
  forallb (fun x => negb (Ascii.eqb "=" x)) s = true.

(** Modifiers as they stand on one line: not empty, without a line feed or
    an equals sign, and with no whitespace at either end. *)
Definition modifiers_ok (mods : option text) : Prop :=
  match mods with
  | None => True
  | Some m =>
      m <> [] /\ forallb dot m = true /\ no_equals m /\
      is_space (hd " "%char m) = false /\ is_space (last m " "%char) = false
  end.

(** Params as they stand between parentheses: not empty, without a closing
    parenthesis, a line feed or an equals sign. *)
Definition params_ok (args : option text) : Prop :=
  match args with
  | None => True
  | Some p =>
      p <> [] /\ forallb (none_of ")") p = true /\ forallb dot p = true /\ no_equals p
  end.

(** What the column pattern takes for modifiers when the type is bracketed:
    the parenthesized params, when there are any, come first. *)
Definition bracketed_type_modifiers (args mods : option text) : text :=
  match args with
  | Some p => "(" ++ p ++ ")" ++ tail_text mods
  | None => mods_text mods
  end.

(** A text of ASCII characters. *)
Definition ascii_text (s : text) : bool := forallb (fun c => (code c <? 128)%nat) s.

(** The target types the mapper can answer with when it does not build a
    DECIMAL from the params. *)
Definition fixed_types : list text :=
  str "STRING" :: str "FLOAT" :: str "DOUBLE" ::
  map (fun kv => str (snd kv)) type_mapping.

(** [s.endswith(p)] *)
Definition ends_with (p s : text) : bool := starts_with (rev p) (rev s).

(** A text with no whitespace character in it. *)
Definition no_space (s : text) : bool := forallb (fun c => negb (is_space c)) s.

(** ** [sp_chunk.py]: [split_into_chunks] *)

Module SpChunk.

(** The while loop of [split_into_chunks].  The loop need not end, so the
    model counts the tests of the loop condition down from [fuel]: [None]
    says that the count ran out with the loop still going. *)
Fixpoint chunk_loop (fuel : nat) (txt : text) (chunk_size start : Z)
    (chunks : list text) : option (list text) :=
  match fuel with
  | O => None
  | S fuel' =>
      if (start <? Z.of_nat (length txt))%Z then
        let end_ := Z.min (start + chunk_size) (Z.of_nat (length txt)) in
        chunk_loop fuel' txt chunk_size end_ (chunks ++ [slice txt start end_])
      else Some chunks
  end.

Definition split_into_chunks (fuel : nat) (txt : text) (chunk_size : Z) :
    option (list text) :=
  chunk_loop fuel txt chunk_size 0 [].

(** Chunks of the right sizes: every chunk but the last has exactly
    [chunk_size] characters, the last one has at least one and at most
    [chunk_size]. *)
Fixpoint sized (chunk_size : Z) (chunks : list text) : bool :=
  match chunks with
  | [] => true
  | c :: rest =>
      match rest with
      | [] => (0 <? Z.of_nat (length c))%Z && (Z.of_nat (length c) <=? chunk_size)%Z
      | _ :: _ => (Z.of_nat (length c) =? chunk_size)%Z && sized chunk_size rest
      end
  end.

End SpChunk.

(** ** [convert_file] and [main] *)

(** [pathlib] and the file system are outside the program, and the model
    takes them as given: a type of paths with [Path(s)], [str(p)], the
    default output path [p.parent / (p.stem + "_databricks.sql")] and the
    test whether two paths name one file; and the text [str(e)] of an
    exception of the parser.  A file system gives every path the text of
    the file there, or nothing when no file is there; directories, access
    rights and bytes that are no UTF-8 are not modelled.  Standard output
    is the list of the printed lines. *)
Class Pathlib : Type := {
  path : Type;
  Path : text -> path;
  path_str : path -> text;
  default_output : path -> path;
  same_file : path -> path -> bool;
  exn_str : exn -> text
}.

Section Files.

Context `{Pathlib}.

Definition files : Type := path -> option text.

Record world : Type := World {
  fs : files;
  stdout : list text
}.

(** [open(p, 'w')] followed by [f.write(content)] *)
Definition write_file (p : path) (content : text) (w : world) : world :=
  World (fun q => if same_file q p then Some content else fs w q) (stdout w).

Definition print (line : text) (w : world) : world :=
  World (fs w) (stdout w ++ [line]).

(** What [convert_file] can raise. *)
Inductive raised : Type :=
| FileNotFoundError (message : text)
| Exn (e : exn).

Definition raised_str (r : raised) : text :=
  match r with
  | FileNotFoundError message => message
  | Exn e => exn_str e
  end.

(** [str(n)] of a length *)
Definition decimal (n : nat) : text := str (NilZero.string_of_uint (Nat.to_uint n)).

(** The loop that collects the header, the statement and an empty line
    for every table. *)
Fixpoint ddl_loop (tables : list TableDefinition) (use_catalog : bool)
    (databricks_ddls : list text) : list text :=
  match tables with
  | [] => databricks_ddls
  | table :: more =>
      let ddl := generate_databricks_ddl table use_catalog in
      ddl_loop more use_catalog
        (databricks_ddls ++ ["-- Table: " ++ name table; ddl; []])
  end.

Definition summary_line (table : TableDefinition) : text :=
  let schema_prefix : text :=
    if truthy_opt (schema table)
    then match schema table with Some s => s | None => [] end ++ "."
    else [] in
  "  - " ++ schema_prefix ++ name table ++ " (" ++
  decimal (length (columns table)) ++ " columns)".

Definition output_path_of (input_path : path) (output_file : option text) : path :=
  if truthy_opt output_file
  then Path match output_file with Some o => o | None => [] end
  else default_output input_path.

(** The result is the world [convert_file] leaves behind and the exception
    it raised, if any. *)
Definition convert_file (input_file : text) (output_file : option text)
    (use_catalog : bool) (w : world) : world * option raised :=
  let input_path := Path input_file in
  match fs w input_path with
  | None => (w, Some (FileNotFoundError ("Input file not found: " ++ input_file)))
  | Some content =>
      match parse_sql_server_ddl content with
      | Raise e => (w, Some (Exn e))
      | Ok [] => (print "No tables found in the input file." w, None)
      | Ok tables =>
          let databricks_ddls := ddl_loop tables use_catalog [] in
          let output_content := join nl databricks_ddls in
          let output_path := output_path_of input_path output_file in
          let w := write_file output_path output_content w in
          let w := print "Conversion complete!" w in
          let w := print ("Input file: " ++ input_file) w in
          let w := print ("Output file: " ++ path_str output_path) w in
          let w := print ("Total tables converted: " ++ decimal (length tables)) w in
          let w := print (nl ++ "Tables converted:") w in
          (fold_left (fun w table => print (summary_line table) w) tables w, None)
      end
  end.

(** [sys.argv] is [argv]; the result is the world [main] leaves behind and
    the status it exits with, if it exits. *)
Definition main (argv : list text) (w : world) : world * option Z :=
  let input_file : text := "Sql Server Tbale ddls.sql" in
  let output_file : option text := None in
  let input_file := if (1 <? length argv)%nat then nth 1 argv [] else input_file in
  let output_file :=
    if (2 <? length argv)%nat then Some (nth 2 argv []) else output_file in
  match convert_file input_file output_file true w with
  | (w', None) => (w', None)
  | (w', Some e) => (print ("Error: " ++ raised_str e) w', Some 1%Z)
  end.

(** The part of the output file that belongs to one table. *)
Definition table_block (use_catalog : bool) (table : TableDefinition) : text :=
  "-- Table: " ++ name table ++ nl ++ generate_databricks_ddl table use_catalog ++ nl.

(** The input file [main] takes from its arguments. *)
Definition input_of (argv : list text) : text :=
  nth 1 argv (str "Sql Server Tbale ddls.sql").

End Files.

(** An instance for the examples: paths are file names in one directory,
    without a separator.  The stem of a name is the name up to its last
    dot, when that dot is neither the first nor the last character of the
    name, and the whole name otherwise. *)
Fixpoint rfind_dot (s : text) (i : nat) : option nat :=
  match s with
  | [] => None
  | c :: s' =>
      match rfind_dot s' (S i) with
      | Some j => Some j
      | None => if Ascii.eqb c "." then Some i else None
      end
  end.

Definition stem (file_name : text) : text :=
  match rfind_dot file_name 0 with
  | Some i =>
      if (0 <? i)%nat && (i <? length file_name - 1)%nat
      then firstn i file_name
      else file_name
  | None => file_name
  end.

Definition one_directory : Pathlib := {|
  path := text;
  Path := fun s => s;
  path_str := fun p => p;
  default_output := fun p => stem p ++ "_databricks.sql";
  same_file := text_eqb;
  exn_str := fun _ => []
|}.

(** The file system with one file in it. *)
Definition one_file (file_name content : text) : @files one_directory :=
  fun p : text => if text_eqb p file_name then Some content else None.

Definition no_file : @files one_directory := fun _ : text => None.

(** ** [proc_converter_v2.py]: [is_token_limit] *)

Module ProcConverter.

Definition token_limit_words : list string := ["max"; "length"; "limit"; "token"].

Definition is_token_limit (stop_reason : option text) : bool :=
  if negb (truthy_opt stop_reason) then false
  else
    let s := lower match stop_reason with Some r => r | None => [] end in
    existsb (fun t => contains (str t) s) token_limit_words.

End ProcConverter.

(** * Properties *)

(** ** Characters and strings *)

Lemma text_eqb_eq (a b : text) : text_eqb a b = true <-> a = b.
Proof.
  revert b; induction a as [|x a IH]; intros [|y b]; simpl; split;
    try congruence; try reflexivity.
  - intros H. apply andb_true_iff in H as [H1 H2].
    apply Ascii.eqb_eq in H1. apply IH in H2. congruence.
  - intros H. injection H as -> ->. rewrite Ascii.eqb_refl. simpl.
    apply IH. reflexivity.
Qed.

Lemma text_eqb_refl (a : text) : text_eqb a a = true.
Proof. apply text_eqb_eq. reflexivity. Qed.

Lemma lower_app (a b : text) : lower (a ++ b) = lower a ++ lower b.
Proof. apply map_app. Qed.

Lemma upper_app (a b : text) : upper (a ++ b) = upper a ++ upper b.
Proof. apply map_app. Qed.

(** ** The type mapper *)

(** C10: without params the static table decides, also for the types that
    have a rule of their own when params are given: decimal and numeric map
    to the bare DECIMAL and float maps to DOUBLE. *)
Theorem convert_data_type_without_params :
  convert_data_type "decimal" None = "DECIMAL" /\
  convert_data_type "numeric" None = "DECIMAL" /\
  convert_data_type "float" None = "DOUBLE".
Proof. repeat split. Qed.

(** decimal with a params string p does not give DECIMAL(p) for every p:
    the guard [and params] is false for the empty string, and the table
    answers with the bare DECIMAL. *)
Lemma decimal_empty_params :
  convert_data_type "decimal" (Some []) = "DECIMAL" /\
  convert_data_type "decimal" (Some []) <> "DECIMAL(" ++ [] ++ ")".
Proof. split; [reflexivity | discriminate]. Qed.

Lemma int_ok_nonempty (p : text) (n : Z) : int p = Ok n -> p <> [].
Proof. intros H ->. discriminate H. Qed.

Lemma truthy_nonempty (p : text) : p <> [] -> truthy p = true.
Proof. destruct p; [contradiction | reflexivity]. Qed.

(** C3 (amended): the rules of the type mapper.  decimal and numeric with a
    non-empty params string p give DECIMAL(p) verbatim; money gives
    DECIMAL(19,4); float with params that read as an integer n gives FLOAT
    when n < 25 and DOUBLE otherwise, and DOUBLE when the params do not read
    as an integer; nvarchar gives STRING whatever the params. *)
Theorem convert_data_type_rules :
  convert_data_type "decimal" (Some (str "10,2")) = "DECIMAL(10,2)" /\
  (forall p : text, p <> [] ->
     convert_data_type "decimal" (Some p) = "DECIMAL(" ++ p ++ ")" /\
     convert_data_type "numeric" (Some p) = "DECIMAL(" ++ p ++ ")") /\
  convert_data_type "money" None = "DECIMAL(19,4)" /\
  (forall (p : text) (n : Z), int p = Ok n -> (n < 25)%Z ->
     convert_data_type "float" (Some p) = "FLOAT") /\
  (forall (p : text) (n : Z), int p = Ok n -> (25 <= n)%Z ->
     convert_data_type "float" (Some p) = "DOUBLE") /\
  (forall (p : text) (e : exn), int p = Raise e ->
     convert_data_type "float" (Some p) = "DOUBLE") /\
  (forall p : option text, convert_data_type "nvarchar" p = "STRING").
Proof.
  split; [reflexivity|].
  split.
  { intros p Hp. unfold convert_data_type. simpl.
    rewrite (truthy_nonempty p Hp). split; reflexivity. }
  split; [reflexivity|].
  split.
  { intros p n Hint Hlt. unfold convert_data_type. simpl.
    rewrite (truthy_nonempty p (int_ok_nonempty p n Hint)), Hint.
    apply Z.ltb_lt in Hlt. rewrite Hlt. reflexivity. }
  split.
  { intros p n Hint Hge. unfold convert_data_type. simpl.
    rewrite (truthy_nonempty p (int_ok_nonempty p n Hint)), Hint.
    apply Z.ltb_ge in Hge. rewrite Hge. reflexivity. }
  split.
  { intros p e Hint. unfold convert_data_type. simpl.
    destruct (truthy p); [rewrite Hint|]; reflexivity. }
  intros p. unfold convert_data_type. simpl.
  destruct (truthy_opt p); reflexivity.
Qed.

Lemma convert_data_type_rules_witness :
  convert_data_type "numeric" (Some (str "19,0")) = "DECIMAL(19,0)" /\
  convert_data_type "float" (Some (str " 1_0 ")) = "FLOAT" /\
  convert_data_type "float" (Some (str "30")) = "DOUBLE" /\
  convert_data_type "float" (Some (str "max")) = "DOUBLE" /\
  convert_data_type "float" (Some ("028"%char :: str "10")) = "DOUBLE" /\
  convert_data_type "float" (Some (repeat "0"%char 4301)) = "DOUBLE".
Proof.
  destruct convert_data_type_rules as (_ & Hdec & _ & Hlt & Hge & Hbad & _).
  split; [apply (Hdec (str "19,0")); discriminate|].
  split; [apply (Hlt (str " 1_0 ") 10%Z); [reflexivity | lia]|].
  split; [apply (Hge (str "30") 30%Z); [reflexivity | lia]|].
  split; [apply (Hbad (str "max") ValueError); reflexivity|].
  split; [apply (Hbad ("028"%char :: str "10") ValueError); reflexivity|].
  apply (Hbad (repeat "0"%char 4301) ValueError). vm_compute. reflexivity.
Defined.

(** ** The worked example *)

(** C1 (what the code does on the example): one table comes back, with
    schema dbo, the two columns Id (int, not nullable) and Amount (decimal,
    params 10,2, nullable), and the rendering has the expected header and
    column lines and nothing of the constraint; but the table name is
    "Orders " with the space that precedes the parenthesis, not "Orders". *)
Theorem orders_example :
  parse_sql_server_ddl orders_ddl = Ok [orders_parsed] /\
  name orders_parsed <> "Orders" /\
  generate_databricks_ddl orders_parsed true =
    "CREATE TABLE IF NOT EXISTS dbo.Orders  (" ++ nl ++
    "  Id INT NOT NULL," ++ nl ++
    "  Amount DECIMAL(10,2)" ++ nl ++
    ")" ++ nl ++
    "USING DELTA;" /\
  contains "CREATE TABLE IF NOT EXISTS dbo.Orders"
    (generate_databricks_ddl orders_parsed true) = true /\
  contains "Id INT NOT NULL" (generate_databricks_ddl orders_parsed true) = true /\
  contains "Amount DECIMAL(10,2)" (generate_databricks_ddl orders_parsed true) = true /\
  contains "CONSTRAINT" (generate_databricks_ddl orders_parsed true) = false /\
  contains "PK_Orders" (generate_databricks_ddl orders_parsed true) = false /\
  contains "PRIMARY KEY" (generate_databricks_ddl orders_parsed true) = false.
Proof.
  split; [vm_compute; reflexivity|].
  split; [discriminate|].
  repeat split; vm_compute; reflexivity.
Qed.

(** With bracketed names and no space before the parenthesis, as SQL Server
    scripts its tables, the same table comes back under the name "Orders". *)
Lemma orders_bracketed_example :
  parse_sql_server_ddl
    "CREATE TABLE [dbo].[Orders]( [Id] int NOT NULL, [Amount] decimal(10,2) NULL, CONSTRAINT PK_Orders PRIMARY KEY (Id) )" =
  Ok [Table (Some (str "dbo")) "Orders"
        [ Column "Id" "int" None false;
          Column "Amount" "decimal" (Some (str "10,2")) true ]].
Proof. vm_compute. reflexivity. Qed.

(** ** The top-level comma split *)

Lemma depth_app (a b : text) : depth (a ++ b) = (depth a + depth b)%Z.
Proof. induction a as [|c a IH]; simpl; [reflexivity | rewrite IH; lia]. Qed.

Lemma smart_split_loop_cons (c : ascii) (t : text) (parts : list text)
    (cur : text) (d : Z) :
  smart_split_loop (c :: t) parts cur d =
  if Ascii.eqb c "," && (d =? 0)%Z
  then smart_split_loop t (parts ++ [strip cur]) [] (d + paren_step c)
  else smart_split_loop t parts (cur ++ [c]) (d + paren_step c).
Proof.
  simpl. unfold paren_step.
  destruct (Ascii.eqb c "(") eqn:E1.
  { apply Ascii.eqb_eq in E1. subst c. reflexivity. }
  destruct (Ascii.eqb c ")") eqn:E2.
  { apply Ascii.eqb_eq in E2. subst c. reflexivity. }
  rewrite Z.add_0_r. reflexivity.
Qed.

Lemma smart_split_loop_app (a b : text) : forall parts cur d,
  smart_split_loop (a ++ b) parts cur d =
  let '(p, c) := smart_split_loop a parts cur d in
  smart_split_loop b p c (d + depth a).
Proof.
  induction a as [|x a IH]; intros parts cur d.
  - simpl. rewrite Z.add_0_r. reflexivity.
  - rewrite <- app_comm_cons, !smart_split_loop_cons.
    simpl depth. rewrite Z.add_assoc.
    destruct (Ascii.eqb x "," && (d =? 0)%Z); apply IH.
Qed.

(** Parts are only ever added at the end, and [current] is always the tail
    end of what has been read. *)
Lemma smart_split_loop_grows (a : text) : forall parts cur d,
  exists l c' a',
    smart_split_loop a parts cur d = (parts ++ l, c') /\ cur ++ a = a' ++ c'.
Proof.
  induction a as [|x a IH]; intros parts cur d.
  - exists [], cur, []. simpl. rewrite !app_nil_r. split; reflexivity.
  - rewrite smart_split_loop_cons.
    destruct (Ascii.eqb x "," && (d =? 0)%Z).
    + destruct (IH (parts ++ [strip cur]) [] (d + paren_step x)%Z)
        as (l & c' & a' & Hl & Ha).
      exists (strip cur :: l), c', (cur ++ x :: a').
      split; [rewrite Hl, <- app_assoc; reflexivity|].
      simpl in Ha. rewrite Ha, <- app_assoc. reflexivity.
    + destruct (IH parts (cur ++ [x]) (d + paren_step x)%Z)
        as (l & c' & a' & Hl & Ha).
      exists l, c', a'. split; [exact Hl|].
      rewrite <- Ha, <- app_assoc. reflexivity.
Qed.

(** The parts found do not depend on the parts already there. *)
Lemma smart_split_loop_parts (a : text) : forall parts cur d,
  smart_split_loop a parts cur d =
  (parts ++ fst (smart_split_loop a [] cur d), snd (smart_split_loop a [] cur d)).
Proof.
  induction a as [|x a IH]; intros parts cur d.
  - simpl. rewrite app_nil_r. reflexivity.
  - rewrite !smart_split_loop_cons.
    destruct (Ascii.eqb x "," && (d =? 0)%Z).
    + rewrite IH. rewrite (IH ([] ++ [strip cur])). simpl.
      rewrite <- app_assoc. reflexivity.
    + apply IH.
Qed.

(** A stretch of text in which no comma stands at depth 0 is added to
    [current] whole. *)
Lemma smart_split_loop_no_split (a : text) : forall parts cur d,
  (forall n, nth_error a n = Some ","%char -> (d + depth (firstn n a) <> 0)%Z) ->
  smart_split_loop a parts cur d = (parts, cur ++ a).
Proof.
  induction a as [|x a IH]; intros parts cur d H.
  - simpl. rewrite app_nil_r. reflexivity.
  - rewrite smart_split_loop_cons.
    destruct (Ascii.eqb x "," && (d =? 0)%Z) eqn:E.
    + apply andb_true_iff in E as [E1 E2].
      apply Ascii.eqb_eq in E1. apply Z.eqb_eq in E2. subst x.
      exfalso. apply (H 0%nat); [reflexivity | simpl; lia].
    + rewrite IH.
      * rewrite <- app_assoc. reflexivity.
      * intros n Hn. specialize (H (S n) Hn). simpl in H. lia.
Qed.

(** What follows a text being collected either joins it whole or is cut at
    a first split point, closing a fragment that starts with the text. *)
Lemma smart_split_loop_first (b : text) : forall parts cur d,
  smart_split_loop b parts cur d = (parts, cur ++ b) \/
  exists y b' l c',
    b = y ++ ","%char :: b' /\
    smart_split_loop b parts cur d = (parts ++ strip (cur ++ y) :: l, c').
Proof.
  induction b as [|x b IH]; intros parts cur d.
  - left. simpl. rewrite app_nil_r. reflexivity.
  - rewrite smart_split_loop_cons.
    destruct (Ascii.eqb x "," && (d =? 0)%Z) eqn:E.
    + right. apply andb_true_iff in E as [E1 _]. apply Ascii.eqb_eq in E1. subst x.
      destruct (smart_split_loop_grows b (parts ++ [strip cur]) [] (d + paren_step ",")%Z)
        as (l & c' & _ & Hl & _).
      exists [], b, l, c'. split; [reflexivity|].
      rewrite Hl, app_nil_r, <- app_assoc. reflexivity.
    + destruct (IH parts (cur ++ [x]) (d + paren_step x)%Z)
        as [Hw | (y & b' & l & c' & Hb & Hl)].
      * left. rewrite Hw, <- app_assoc. reflexivity.
      * right. exists (x :: y), b', l, c'. split; [rewrite Hb; reflexivity|].
        rewrite Hl, <- app_assoc. reflexivity.
Qed.

(** A text that is collected whole and is followed by more text ends up
    inside one fragment of the result. *)
Lemma smart_split_keeps (pre mid post : text) :
  mid <> [] ->
  (forall n, nth_error mid n = Some ","%char ->
             (depth pre + depth (firstn n mid) <> 0)%Z) ->
  exists l1 x y l2 pre' post',
    pre = pre' ++ x /\ post = y ++ post' /\
    _smart_split (pre ++ mid ++ post) = l1 ++ strip (x ++ mid ++ y) :: l2.
Proof.
  intros Hmid Hin. unfold _smart_split.
  rewrite smart_split_loop_app.
  destruct (smart_split_loop_grows pre [] [] 0%Z) as (l1 & x & pre' & Hpre & Hx).
  simpl in Hpre, Hx. rewrite Hpre, smart_split_loop_app.
  rewrite (smart_split_loop_no_split mid l1 x (0 + depth pre)%Z)
    by (intros n Hn; specialize (Hin n Hn); lia).
  destruct (smart_split_loop_first post l1 (x ++ mid) (0 + depth pre + depth mid)%Z)
    as [Hw | (y & b' & l & c' & Hb & Hl)].
  - rewrite Hw. exists l1, x, post, [], pre', [].
    split; [exact Hx|]. split; [rewrite app_nil_r; reflexivity|].
    destruct ((x ++ mid) ++ post) eqn:E.
    + exfalso. apply app_eq_nil in E as [E _]. apply app_eq_nil in E as [_ E].
      contradiction.
    + simpl. rewrite <- E, <- app_assoc. reflexivity.
  - rewrite Hl. exists l1, x, y.
    destruct (truthy c').
    + exists (l ++ [strip c']), pre', (","%char :: b').
      split; [exact Hx|]. split; [exact Hb|].
      rewrite <- !app_assoc. reflexivity.
    + exists l, pre', (","%char :: b').
      split; [exact Hx|]. split; [exact Hb|].
      rewrite <- !app_assoc. reflexivity.
Qed.

(** A fragment can be broken at a comma inside a parenthesized span: when
    a closing parenthesis comes first, the depth is back at 0 inside the
    span and its comma is a split point. *)
Lemma smart_split_inside_span :
  _smart_split ")(a,b)" = [str ")(a"; str "b)"].
Proof. reflexivity. Qed.

(** C2 (amended): when the text before a parenthesized span does not close
    more parentheses than it opens, the span lies whole inside one returned
    fragment; and a comma is a split point exactly when the signed depth at
    its position is 0: at any other depth it stays inside a fragment, at
    depth 0 the fragments before it are closed and the split starts afresh
    after it. *)
Theorem smart_split_top_level :
  (forall pre inner post : text,
     (0 <= depth pre)%Z ->
     (forall n, (0 <= depth (firstn n inner))%Z) ->
     exists l1 x y l2 pre' post',
       pre = pre' ++ x /\ post = y ++ post' /\
       _smart_split (pre ++ ("(" ++ inner ++ ")") ++ post) =
       l1 ++ strip (x ++ ("(" ++ inner ++ ")") ++ y) :: l2) /\
  (forall a b : text,
     depth a <> 0%Z ->
     exists l1 x y l2 a' b',
       a = a' ++ x /\ b = y ++ b' /\
       _smart_split (a ++ "," ++ b) = l1 ++ strip (x ++ "," ++ y) :: l2) /\
  (forall a b : text,
     depth a = 0%Z ->
     _smart_split (a ++ "," ++ b) = closed_parts a ++ _smart_split b).
Proof.
  split; [|split].
  - intros pre inner post Hpre Hinner.
    apply smart_split_keeps; [discriminate|].
    intros [|n] Hn; [discriminate|].
    change (str "(" ++ inner ++ str ")") with ("("%char :: inner ++ str ")") in *.
    rewrite firstn_cons. cbn [depth]. simpl in Hn.
    assert (Hd : (0 <= depth (firstn n (inner ++ ")")))%Z).
    { destruct (Nat.le_gt_cases n (length inner)) as [Hle | Hgt].
      - rewrite firstn_app.
        replace (n - length inner)%nat with 0%nat by lia.
        simpl. rewrite app_nil_r. apply Hinner.
      - exfalso. apply nth_error_split in Hn as (l1 & l2 & Heq & Hlen).
        pose proof (f_equal (@length ascii) Heq) as Hl.
        rewrite !length_app in Hl. simpl in Hl.
        assert (l2 = []) by (destruct l2; [reflexivity | simpl in Hl; lia]).
        subst l2. apply app_inj_tail in Heq as [_ Heq]. discriminate. }
    change (paren_step "(") with 1%Z. lia.
  - intros a b Ha.
    apply (smart_split_keeps a "," b); [discriminate|].
    intros [|n] Hn; simpl; [lia|].
    destruct n; discriminate.
  - intros a b Ha. unfold _smart_split, closed_parts.
    rewrite smart_split_loop_app.
    destruct (smart_split_loop a [] [] 0) as [p c].
    change (str "," ++ b) with (","%char :: b).
    rewrite smart_split_loop_cons, Ha.
    change (Ascii.eqb "," "," && (0 + 0 =? 0)%Z) with true. cbv iota.
    change (0 + 0 + paren_step ",")%Z with 0%Z.
    rewrite smart_split_loop_parts.
    destruct (smart_split_loop b [] [] 0) as [p2 c2]. cbn [fst snd].
    destruct (truthy c2); [rewrite <- app_assoc|]; reflexivity.
Qed.

Lemma smart_split_top_level_witness :
  (exists l1 x y l2 pre' post',
     str "x " = pre' ++ x /\ str ", z" = y ++ post' /\
     _smart_split ("x " ++ ("(" ++ "a,b" ++ ")") ++ ", z") =
     l1 ++ strip (x ++ ("(" ++ "a,b" ++ ")") ++ y) :: l2) /\
  (exists l1 x y l2 a' b',
     str "f(a" = a' ++ x /\ str "b)" = y ++ b' /\
     _smart_split ("f(a" ++ "," ++ "b)") = l1 ++ strip (x ++ "," ++ y) :: l2) /\
  _smart_split ("a" ++ "," ++ "b") = closed_parts "a" ++ _smart_split "b".
Proof.
  destruct smart_split_top_level as (H1 & H2 & H3).
  split; [|split].
  - apply (H1 (str "x ") (str "a,b") (str ", z")).
    + vm_compute. discriminate.
    + intros n. do 4 (destruct n as [|n]; [vm_compute; discriminate|]).
      vm_compute. discriminate.
  - apply (H2 (str "f(a") (str "b)")). vm_compute. discriminate.
  - apply (H3 (str "a") (str "b")). reflexivity.
Defined.

(** ** The matcher *)

(** Whatever a repetition returns comes from its continuation. *)
Lemma star_greedy_sound {R : Type} (p : ascii -> bool) (rs : text) :
  forall (sn : text) (k : text -> text -> option R) (res : R),
    star_greedy p sn rs k = Some res ->
    exists sn' rs', k sn' rs' = Some res.
Proof.
  induction rs as [|c t IH]; intros sn k res H; simpl in H.
  - eauto.
  - destruct (p c); [|eauto].
    destruct (star_greedy p (c :: sn) t k) eqn:E; [|eauto].
    injection H as ->. eapply IH. exact E.
Qed.

Lemma star_lazy_sound {R : Type} (p : ascii -> bool) (rs : text) :
  forall (sn : text) (k : text -> text -> option R) (res : R),
    star_lazy p sn rs k = Some res ->
    exists sn' rs', k sn' rs' = Some res.
Proof.
  induction rs as [|c t IH]; intros sn k res H; simpl in H.
  - destruct (k sn []) eqn:E; [injection H as ->; eauto | discriminate].
  - destruct (k sn (c :: t)) eqn:E; [injection H as ->; eauto|].
    destruct (p c); [|discriminate]. eapply IH. exact H.
Qed.

(** A successful run hands its continuation a state in which the groups
    set before are still set and the sure groups of the pattern are set. *)
Lemma run_sound (r : re) :
  forall (st : mstate) (k : mstate -> option mstate) (res : mstate),
    run r st k = Some res ->
    exists st',
      k st' = Some res /\
      forall n, In n (sure_groups r) \/ assoc n (caps st) <> None ->
                assoc n (caps st') <> None.
Proof.
  induction r as [|p|p|p|r IH|r1 IH1 r2 IH2|r1 IH1 r2 IH2|g r IH|ml|ml|r IH];
    intros st k res H; simpl in H.
  - exists st. split; [exact H|]. intros n [[]|Hn]; exact Hn.
  - destruct (rest st) as [|c t]; [discriminate|].
    destruct (p c); [|discriminate].
    eexists. split; [exact H|]. intros n [[]|Hn]; exact Hn.
  - apply star_greedy_sound in H as (sn' & rs' & H).
    eexists. split; [exact H|]. intros n [[]|Hn]; exact Hn.
  - apply star_lazy_sound in H as (sn' & rs' & H).
    eexists. split; [exact H|]. intros n [[]|Hn]; exact Hn.
  - destruct (run r st k) eqn:E.
    + injection H as ->. apply IH in E as (st' & Hk & Hc).
      exists st'. split; [exact Hk|]. intros n [[]|Hn]. apply Hc. right. exact Hn.
    + exists st. split; [exact H|]. intros n [[]|Hn]; exact Hn.
  - apply IH1 in H as (st1 & H & Hc1). apply IH2 in H as (st2 & H & Hc2).
    exists st2. split; [exact H|]. intros n [Hn|Hn].
    + simpl in Hn. apply in_app_or in Hn as [Hn|Hn].
      * apply Hc2. right. apply Hc1. left. exact Hn.
      * apply Hc2. left. exact Hn.
    + apply Hc2. right. apply Hc1. right. exact Hn.
  - destruct (run r1 st k) eqn:E.
    + injection H as ->. apply IH1 in E as (st' & Hk & Hc).
      exists st'. split; [exact Hk|]. intros n [[]|Hn]. apply Hc. right. exact Hn.
    + apply IH2 in H as (st' & Hk & Hc).
      exists st'. split; [exact Hk|]. intros n [[]|Hn]. apply Hc. right. exact Hn.
  - apply IH in H as (st' & Hk & Hc).
    eexists. split; [exact Hk|]. intros n Hn. simpl.
    destruct (Nat.eqb n g) eqn:E; [discriminate|].
    apply Hc. destruct Hn as [[Hn|Hn]|Hn].
    + subst g. rewrite Nat.eqb_refl in E. discriminate.
    + left. exact Hn.
    + right. exact Hn.
  - destruct (at_bol ml st); [|discriminate].
    exists st. split; [exact H|]. intros n [[]|Hn]; exact Hn.
  - destruct (at_eol ml st); [|discriminate].
    exists st. split; [exact H|]. intros n [[]|Hn]; exact Hn.
  - destruct (run r st Some); [|discriminate].
    exists st. split; [exact H|]. intros n [[]|Hn]; exact Hn.
Qed.

(** After [re.match] the sure groups of the pattern are all set. *)
Lemma re_match_sure_groups (r : re) (s : text) (m : mstate) (n : nat) :
  re_match r s = Some m -> In n (sure_groups r) ->
  exists v, group_str m n = Ok v.
Proof.
  intros H Hn. unfold re_match in H.
  apply run_sound in H as (st' & Hk & Hc). injection Hk as ->.
  specialize (Hc n (or_introl Hn)). unfold group_str, group.
  destruct (assoc n (caps m)) as [v|]; [eauto | contradiction].
Qed.

(** ** Totality of the parser *)

Lemma parse_column_line_total (line : text) :
  exists c, parse_column_line line = Ok c.
Proof.
  unfold parse_column_line.
  destruct (negb (truthy (strip line))); [eauto|].
  destruct (re_match re_skip (strip line)); [eauto|].
  destruct (contains "=" (strip line) &&
            existsb (fun opt => contains (str opt) (upper (strip line))) index_options);
    [eauto|].
  destruct (re_match re_column (strip line)) as [m|] eqn:E; [|eauto].
  destruct (re_match_sure_groups _ _ _ 1 E) as (v1 & H1); [simpl; tauto|].
  destruct (re_match_sure_groups _ _ _ 2 E) as (v2 & H2); [simpl; tauto|].
  rewrite H1, H2. simpl. eauto.
Qed.

Lemma parse_columns_loop_spec (lines : list text) : forall acc,
  parse_columns_loop lines acc = Ok (acc ++ flat_map columns_of_line lines).
Proof.
  induction lines as [|line more IH]; intros acc; simpl.
  - rewrite app_nil_r. reflexivity.
  - unfold columns_of_line at 1.
    destruct (parse_column_line_total line) as (c & Hc). rewrite Hc. simpl.
    destruct c as [col|]; rewrite IH; [rewrite <- app_assoc|]; reflexivity.
Qed.

Lemma parse_columns_spec (columns_raw : text) :
  _parse_columns columns_raw = Ok (flat_map columns_of_line (_smart_split columns_raw)).
Proof. unfold _parse_columns. apply parse_columns_loop_spec. Qed.

Lemma table_name_of_total (table_content : text) :
  exists r, table_name_of table_content = Ok r.
Proof.
  unfold table_name_of.
  destruct (re_match re_schema_table table_content) as [m|] eqn:E.
  - destruct (re_match_sure_groups _ _ _ 1 E) as (v1 & H1); [simpl; tauto|].
    destruct (re_match_sure_groups _ _ _ 2 E) as (v2 & H2); [simpl; tauto|].
    rewrite H1, H2. simpl. eauto.
  - destruct (re_match re_table table_content) as [m|] eqn:E'; [|eauto].
    destruct (re_match_sure_groups _ _ _ 1 E') as (v1 & H1); [simpl; tauto|].
    rewrite H1. simpl. eauto.
Qed.

Lemma parse_single_table_total (table_content : text) :
  exists r, _parse_single_table table_content = Ok r.
Proof.
  unfold _parse_single_table.
  destruct (table_name_of_total table_content) as (r & Hr). rewrite Hr. simpl.
  destruct r as [[schema_name table_name]|]; [|eauto].
  destruct (scan_body table_content 0 0 (-1)) as [start_idx end_idx].
  destruct ((start_idx =? -1)%Z || (end_idx =? -1)%Z); [eauto|].
  rewrite parse_columns_spec. simpl. eauto.
Qed.

Lemma parse_tables_loop_spec (tables_raw : list text) : forall acc,
  parse_tables_loop tables_raw acc = Ok (acc ++ flat_map tables_of_fragment tables_raw).
Proof.
  induction tables_raw as [|f more IH]; intros acc; simpl.
  - rewrite app_nil_r. reflexivity.
  - unfold tables_of_fragment at 1.
    destruct (parse_single_table_total f) as (r & Hr). rewrite Hr. simpl.
    destruct r as [t|]; rewrite IH; [rewrite <- app_assoc|]; reflexivity.
Qed.

Lemma parse_sql_server_ddl_spec (content : text) :
  parse_sql_server_ddl content = Ok (flat_map tables_of_fragment (fragments content)).
Proof. unfold parse_sql_server_ddl, fragments. apply parse_tables_loop_spec. Qed.

Lemma dict_get_unknown (d : list (string * string)) (key default : text) :
  existsb (fun kv => text_eqb key (str (fst kv))) d = false ->
  dict_get d key default = default.
Proof.
  induction d as [|[k v] d IH]; simpl; intros H; [reflexivity|].
  apply orb_false_iff in H as [H1 H2]. rewrite H1. apply IH. exact H2.
Qed.

Lemma in_list_known (x : text) (l : list string) :
  (forall y, In y l -> In y (map fst type_mapping)) ->
  known_type x = false -> in_list x l = false.
Proof.
  intros Hl Hk. unfold in_list.
  destruct (existsb (fun y => text_eqb x (str y)) l) eqn:E; [|reflexivity].
  apply existsb_exists in E as (y & Hy & Hxy).
  apply Hl, in_map_iff in Hy as (kv & Hkv & Hin).
  assert (known_type x = true); [|congruence].
  apply existsb_exists. exists kv. split; [exact Hin|]. rewrite Hkv. exact Hxy.
Qed.

Lemma convert_data_type_unknown (sql_server_type : text) (params : option text) :
  known_type (lower sql_server_type) = false ->
  convert_data_type sql_server_type params = "STRING".
Proof.
  intros Hk. unfold convert_data_type.
  rewrite (in_list_known _ ["decimal"; "numeric"]); [|simpl; intuition (subst; simpl; tauto)|exact Hk].
  rewrite (in_list_known _ ["char"; "varchar"; "nchar"; "nvarchar"]);
    [|simpl; intuition (subst; simpl; tauto)|exact Hk].
  rewrite (in_list_known _ ["float"]); [|simpl; intuition (subst; simpl; tauto)|exact Hk].
  cbn [andb]. apply dict_get_unknown. exact Hk.
Qed.

(** C7: [parse_sql_server_ddl] returns a list of tables for every input and
    never raises: a fragment gives a table or is skipped, a line of a column
    list gives a column or is dropped, both in source order; and a type that
    is not in the table is mapped to STRING. *)
Theorem parse_sql_server_ddl_total :
  (forall content : text,
     exists tables, parse_sql_server_ddl content = Ok tables /\
                    tables = flat_map tables_of_fragment (fragments content)) /\
  (forall table_raw : text, exists r, _parse_single_table table_raw = Ok r) /\
  (forall columns_raw : text,
     _parse_columns columns_raw =
     Ok (flat_map columns_of_line (_smart_split columns_raw))) /\
  (forall line : text, exists c, parse_column_line line = Ok c) /\
  (forall (sql_server_type : text) (params : option text),
     known_type (lower sql_server_type) = false ->
     convert_data_type sql_server_type params = "STRING").
Proof.
  split; [|split; [|split; [|split]]].
  - intros content. eexists. split; [apply parse_sql_server_ddl_spec | reflexivity].
  - exact parse_single_table_total.
  - exact parse_columns_spec.
  - exact parse_column_line_total.
  - exact convert_data_type_unknown.
Qed.

Lemma parse_sql_server_ddl_total_witness :
  convert_data_type "cursor" None = "STRING" /\
  convert_data_type "Money2" (Some (str "3")) = "STRING".
Proof.
  destruct parse_sql_server_ddl_total as (_ & _ & _ & _ & H).
  split; apply H; reflexivity.
Defined.

(** ** Tables without columns *)




(** ** Column lists that are never closed *)

Lemma scan_body_no_paren (pre : text) : forall rest i d s,
  no_paren pre ->
  scan_body (pre ++ rest) i d s = scan_body rest (i + Z.of_nat (length pre)) d s.
Proof.
  induction pre as [|c pre IH]; intros rest i d s H.
  - simpl. rewrite Z.add_0_r. reflexivity.
  - destruct (H c (or_introl eq_refl)) as [H1 H2].
    apply Ascii.eqb_neq in H1, H2.
    cbn [app scan_body]. rewrite H1, H2, IH.
    + f_equal. rewrite length_cons. lia.
    + intros x Hx. apply H. right. exact Hx.
Qed.

Lemma scan_body_never_closed (body : text) : forall i d s,
  (forall n, (0 < d + depth (firstn n body))%Z) ->
  snd (scan_body body i d s) = (-1)%Z.
Proof.
  induction body as [|c body IH]; intros i d s H; [reflexivity|].
  cbn [scan_body].
  destruct (Ascii.eqb c "(") eqn:E1.
  - apply IH. intros n. specialize (H (S n)). cbn [firstn depth] in H.
    unfold paren_step in H. rewrite E1 in H. lia.
  - destruct (Ascii.eqb c ")") eqn:E2.
    + assert (Hd : (0 < d - 1)%Z).
      { specialize (H 1%nat). cbn [firstn depth] in H.
        unfold paren_step in H. rewrite E1, E2 in H. lia. }
      replace ((d - 1 =? 0)%Z) with false by (symmetry; apply Z.eqb_neq; lia).
      cbn [andb]. apply IH. intros n. specialize (H (S n)). cbn [firstn depth] in H.
      unfold paren_step in H. rewrite E1, E2 in H. lia.
    + apply IH. intros n. specialize (H (S n)). cbn [firstn depth] in H.
      unfold paren_step in H. rewrite E1, E2 in H. lia.
Qed.

Lemma scan_body_unclosed (table_content : text) :
  unclosed table_content -> snd (scan_body table_content 0 0 (-1)) = (-1)%Z.
Proof.
  intros (pre & body & -> & Hpre & Hbody).
  rewrite scan_body_no_paren by exact Hpre.
  cbn [scan_body]. rewrite Ascii.eqb_refl.
  apply scan_body_never_closed. intros n. specialize (Hbody n). lia.
Qed.

Lemma parse_single_table_unclosed (table_content : text) :
  unclosed table_content -> _parse_single_table table_content = Ok None.
Proof.
  intros H. apply scan_body_unclosed in H. unfold _parse_single_table.
  destruct (table_name_of_total table_content) as (r & Hr). rewrite Hr. simpl.
  destruct r as [[schema_name table_name]|]; [|reflexivity].
  destruct (scan_body table_content 0 0 (-1)) as [start_idx end_idx].
  simpl in H. subst end_idx. rewrite orb_true_r. reflexivity.
Qed.

(** A fragment with an opening parenthesis that is never closed can still
    give a table: a closing parenthesis before it takes the counter of the
    scan below zero, the unmatched parenthesis brings it back to zero
    without setting [start_idx], and the scan then finds the next balanced
    span. *)
Lemma stray_close_keeps_table :
  unmatched_open "t ) ( ( a int )" /\
  fragments "CREATE TABLE t ) ( ( a int )" = [str "t ) ( ( a int )"] /\
  scan_body "t ) ( ( a int )" 0 0 (-1) = (7%Z, 14%Z) /\
  parse_sql_server_ddl "CREATE TABLE t ) ( ( a int )" =
    Ok [Table None "t ) ( " [Column "a" "int" None true]].
Proof.
  split; [|split; [|split]]; try (vm_compute; reflexivity).
  exists (str "t ) "), (str " ( a int )"). split; [reflexivity|].
  intros n. do 10 (destruct n as [|n]; [vm_compute; discriminate|]).
  destruct n; vm_compute; discriminate.
Qed.

(** C6 (amended): a fragment whose first parenthesis opens the column list
    (no parenthesis stands before it) and is never closed gives no table and
    no exception: the scan leaves [end_idx] at -1, [_parse_single_table]
    returns [None], and [parse_sql_server_ddl] returns what the other
    fragments give. *)
Theorem unclosed_table_is_skipped (content table_raw : text)
    (before after : list text) :
  fragments content = before ++ table_raw :: after ->
  unclosed table_raw ->
  snd (scan_body table_raw 0 0 (-1)) = (-1)%Z /\
  _parse_single_table table_raw = Ok None /\
  parse_sql_server_ddl content =
  Ok (flat_map tables_of_fragment before ++ flat_map tables_of_fragment after).
Proof.
  intros Hf Hu. split; [apply scan_body_unclosed; exact Hu|].
  split; [apply parse_single_table_unclosed; exact Hu|].
  rewrite parse_sql_server_ddl_spec, Hf, flat_map_app. cbn [flat_map].
  unfold tables_of_fragment at 2.
  rewrite (parse_single_table_unclosed _ Hu). reflexivity.
Qed.

Lemma unclosed_table_is_skipped_witness :
  parse_sql_server_ddl "CREATE TABLE t ( a int, b decimal(10,2)" = Ok [].
Proof.
  apply (unclosed_table_is_skipped
           "CREATE TABLE t ( a int, b decimal(10,2)"
           "t ( a int, b decimal(10,2)" [] []).
  - vm_compute. reflexivity.
  - exists (str "t "), (str " a int, b decimal(10,2)").
    split; [reflexivity|]. split.
    + intros c [<-|[<-|[]]]; split; discriminate.
    + intros n. do 24 (destruct n as [|n]; [vm_compute; discriminate|]).
      vm_compute. discriminate.
Defined.

(** ** Substrings and stripping *)

Lemma starts_with_spec (p s : text) :
  starts_with p s = true <-> exists b, s = p ++ b.
Proof.
  revert s; induction p as [|a p IH]; intros s; simpl.
  - split; [intros _; exists s; reflexivity | reflexivity].
  - destruct s as [|x s].
    + split; [discriminate | intros (b & Hb); discriminate].
    + rewrite andb_true_iff, Ascii.eqb_eq, IH. split.
      * intros [-> (b & ->)]. exists b. reflexivity.
      * intros (b & Hb). injection Hb as -> ->. split; [reflexivity | eauto].
Qed.

Lemma contains_spec (needle hay : text) :
  contains needle hay = true <-> exists a b, hay = a ++ needle ++ b.
Proof.
  induction hay as [|x hay IH].
  - simpl. rewrite orb_false_r, starts_with_spec. split.
    + intros (b & Hb). exists [], b. exact Hb.
    + intros (a & b & Hab). destruct a; [|discriminate]. exists b. exact Hab.
  - cbn [contains]. rewrite orb_true_iff, starts_with_spec, IH. split.
    + intros [(b & Hb) | (a & b & Hab)].
      * exists [], b. exact Hb.
      * exists (x :: a), b. rewrite Hab. reflexivity.
    + intros (a & b & Hab). destruct a as [|y a].
      * left. exists b. exact Hab.
      * right. injection Hab as _ Hab. eauto.
Qed.

Lemma contains_upper_spec (marker : string) (s : text) :
  contains (str marker) (upper s) = true <-> occurs_ci marker s.
Proof.
  rewrite contains_spec. unfold occurs_ci, upper. split.
  - intros (a' & b' & H).
    apply map_eq_app in H as (a & mb & -> & Ha & H).
    apply map_eq_app in H as (m & b & -> & Hm & Hb).
    exists a, m, b. split; [reflexivity | exact Hm].
  - intros (a & m & b & -> & Hm).
    exists (map to_upper a), (map to_upper b). rewrite !map_app, Hm. reflexivity.
Qed.

Lemma lstrip_spaces (ws s : text) :
  forallb is_space ws = true -> lstrip (ws ++ s) = lstrip s.
Proof.
  induction ws as [|c ws IH]; simpl; intros H; [reflexivity|].
  apply andb_true_iff in H as [H1 H2]. rewrite H1. apply IH. exact H2.
Qed.

Lemma lstrip_keep (x : text) (c : ascii) (y : text) :
  is_space c = false -> lstrip (x ++ c :: y) = lstrip x ++ c :: y.
Proof.
  intros Hc. induction x as [|a x IH]; simpl.
  - rewrite Hc. reflexivity.
  - destruct (is_space a); [exact IH | reflexivity].
Qed.

Lemma rstrip_keep (a : text) (c : ascii) (b : text) :
  is_space c = false -> rstrip (a ++ c :: b) = a ++ c :: rstrip b.
Proof.
  intros Hc. unfold rstrip.
  rewrite rev_app_distr. cbn [rev]. rewrite <- app_assoc. cbn [app].
  rewrite lstrip_keep by exact Hc.
  rewrite rev_app_distr. cbn [rev]. rewrite rev_involutive.
  rewrite <- app_assoc. reflexivity.
Qed.

Lemma rstrip_nonspace (k r : text) :
  forallb (fun c => negb (is_space c)) k = true -> rstrip (k ++ r) = k ++ rstrip r.
Proof.
  induction k as [|c k IH]; simpl; intros H; [reflexivity|].
  apply andb_true_iff in H as [H1 H2]. apply negb_true_iff in H1.
  change (c :: k ++ r) with ([] ++ c :: k ++ r).
  rewrite (rstrip_keep [] c (k ++ r) H1). cbn [app]. rewrite IH by exact H2.
  reflexivity.
Qed.

(** Whitespace, then a word without whitespace, then anything: stripping
    leaves the word and what follows it, stripped on the right. *)
Lemma strip_word (ws word rest : text) :
  forallb is_space ws = true ->
  word <> [] ->
  forallb (fun c => negb (is_space c)) word = true ->
  strip (ws ++ word ++ rest) = word ++ rstrip rest.
Proof.
  intros Hws Hne Hword. unfold strip.
  destruct word as [|c word]; [contradiction|].
  cbn [forallb] in Hword. apply andb_true_iff in Hword as [Hc Hword].
  apply negb_true_iff in Hc.
  cbn [app]. rewrite (rstrip_keep ws c (word ++ rest) Hc).
  rewrite (rstrip_nonspace word rest Hword).
  rewrite lstrip_spaces by exact Hws. simpl. rewrite Hc. reflexivity.
Qed.

(** ** Literals and alternatives in the matcher *)

Lemma run_lit_ci (w : text) : forall sn rs cps k,
  run (lit_ci w) (MState sn rs cps) k =
  if starts_with_ci w rs
  then k (MState (rev (firstn (length w) rs) ++ sn) (skipn (length w) rs) cps)
  else None.
Proof.
  induction w as [|a w IH]; intros sn rs cps k.
  - reflexivity.
  - change (lit_ci (a :: w)) with (Seq (Chr (is_ci a)) (lit_ci w)).
    cbn [run rest seen caps starts_with_ci].
    destruct rs as [|b rs]; [reflexivity|].
    destruct (is_ci a b); [|reflexivity].
    rewrite IH. cbn [andb length firstn skipn rev].
    rewrite <- app_assoc. reflexivity.
Qed.

Lemma starts_with_ci_upper (w k rest : text) :
  upper k = upper w -> starts_with_ci w (k ++ rest) = true.
Proof.
  revert k; induction w as [|a w IH]; intros k H; [reflexivity|].
  destruct k as [|b k]; [discriminate|].
  injection H as Hb Hk. cbn [app starts_with_ci].
  unfold is_ci at 1. rewrite Hb, Ascii.eqb_refl. apply IH. exact Hk.
Qed.

Lemma run_alts_some (rs : list re) (r : re) (st : mstate)
    (k : mstate -> option mstate) :
  In r rs -> run r st k <> None -> run (alts rs) st k <> None.
Proof.
  induction rs as [|r1 rs IH]; intros Hin Hr; [contradiction|].
  destruct rs as [|r2 rs].
  - destruct Hin as [->|[]]. exact Hr.
  - change (alts (r1 :: r2 :: rs)) with (Alt r1 (alts (r2 :: rs))).
    cbn [run]. destruct (run r1 st k) eqn:E; [discriminate|].
    apply IH; [|exact Hr].
    destruct Hin as [->|Hin]; [congruence | exact Hin].
Qed.

Lemma run_alts_none (rs : list re) (st : mstate) (k : mstate -> option mstate) :
  rs <> [] -> (forall r, In r rs -> run r st k = None) -> run (alts rs) st k = None.
Proof.
  induction rs as [|r1 rs IH]; intros Hne H; [contradiction|].
  destruct rs as [|r2 rs].
  - apply H. left. reflexivity.
  - change (alts (r1 :: r2 :: rs)) with (Alt r1 (alts (r2 :: rs))).
    cbn [run]. rewrite (H r1) by (left; reflexivity).
    apply IH; [discriminate|]. intros r Hr. apply H. right. exact Hr.
Qed.

(** ** The constraint filter *)

Lemma upper_letter_not_space (c : ascii) :
  is_upper (to_upper c) = true -> is_space c = false.
Proof.
  destruct c as [[] [] [] [] [] [] [] []]; vm_compute; congruence.
Qed.

Lemma upper_word_not_space (k w : text) :
  upper k = w -> forallb is_upper w = true ->
  forallb (fun c => negb (is_space c)) k = true.
Proof.
  revert w; induction k as [|c k IH]; intros w H Hw; [reflexivity|].
  subst w. cbn [upper map forallb] in Hw. apply andb_true_iff in Hw as [H1 H2].
  cbn [forallb]. rewrite (upper_letter_not_space c H1). cbn [negb andb].
  apply (IH (upper k)); [reflexivity | exact H2].
Qed.

(** The filter of the column loop on a stripped line. *)
Lemma re_skip_unfold (line : text) :
  re_match re_skip line =
  star_greedy space [] line (fun sn rs =>
    run (alts (map (fun k => lit_ci (str k)) skip_keywords)) (MState sn rs [])
      (fun st' => Some (MState (seen st') (rest st')
                          ((1%nat, passed (MState sn rs []) st') :: caps st')))).
Proof. reflexivity. Qed.

Lemma star_greedy_stop {R : Type} (p : ascii -> bool) (sn rs : text)
    (k : text -> text -> option R) :
  match rs with c :: _ => p c = false | [] => True end ->
  star_greedy p sn rs k = k sn rs.
Proof. destruct rs as [|c t]; simpl; [reflexivity | intros ->; reflexivity]. Qed.

Lemma constraint_keyword_facts (kw : string) :
  In kw constraint_keywords ->
  In kw skip_keywords /\ str kw <> [] /\
  forallb is_upper (str kw) = true /\ upper (str kw) = str kw.
Proof.
  intros H. repeat (destruct H as [<-|H]; [vm_compute; intuition discriminate|]).
  destruct H.
Qed.

Lemma keyword_line_skipped (kw : string) (line : text) :
  In kw constraint_keywords -> begins_with_ci kw line ->
  parse_column_line line = Ok None.
Proof.
  intros Hkw (ws & word & rest & -> & Hws & Hword).
  destruct (constraint_keyword_facts kw Hkw) as (Hin & Hne & Hup & Hfix).
  assert (Hns : forallb (fun c => negb (is_space c)) word = true)
    by (apply (upper_word_not_space word (str kw)); assumption).
  assert (Hw : word <> []) by (intros ->; apply Hne; symmetry; exact Hword).
  unfold parse_column_line. rewrite (strip_word ws word rest Hws Hw Hns).
  assert (Ht : truthy (word ++ rstrip rest) = true)
    by (destruct word; [contradiction | reflexivity]).
  rewrite Ht. cbn [negb].
  assert (Hm : re_match re_skip (word ++ rstrip rest) <> None).
  { rewrite re_skip_unfold, star_greedy_stop.
    - apply (run_alts_some _ (lit_ci (str kw))).
      + apply (in_map (fun k => lit_ci (str k))). exact Hin.
      + rewrite run_lit_ci.
        rewrite (starts_with_ci_upper (str kw) word (rstrip rest))
          by (rewrite Hfix; exact Hword).
        discriminate.
    - destruct word as [|c word]; [contradiction|].
      cbn [forallb] in Hns. apply andb_true_iff in Hns as [Hc _].
      apply negb_true_iff in Hc. exact Hc. }
  destruct (re_match re_skip (word ++ rstrip rest)); [reflexivity | contradiction].
Qed.

(** C9: the constraint filter compares bare prefixes.  A fragment that
    begins, after optional whitespace and in any letter case, with the
    letters CONSTRAINT, PRIMARY, UNIQUE, FOREIGN or CHECK adds no column to
    the parsed list, whatever follows those letters: CheckStatus int NULL
    gives no column, while [CheckStatus] int NULL gives the column. *)
Theorem constraint_filter_matches_prefixes :
  (forall columns_raw : text,
     _parse_columns columns_raw =
     Ok (flat_map columns_of_line (_smart_split columns_raw))) /\
  (forall (kw : string) (line : text),
     In kw constraint_keywords -> begins_with_ci kw line ->
     parse_column_line line = Ok None /\ columns_of_line line = []) /\
  parse_column_line "CheckStatus int NULL" = Ok None /\
  parse_column_line "[CheckStatus] int NULL" =
    Ok (Some (Column "CheckStatus" "int" None true)) /\
  _parse_columns "[Id] int NOT NULL, CheckStatus int NULL, [CheckStatus] int NULL" =
    Ok [Column "Id" "int" None false; Column "CheckStatus" "int" None true].
Proof.
  split; [exact parse_columns_spec|].
  split.
  { intros kw line Hkw Hline.
    pose proof (keyword_line_skipped kw line Hkw Hline) as H.
    split; [exact H|]. unfold columns_of_line. rewrite H. reflexivity. }
  repeat split; vm_compute; reflexivity.
Qed.

Lemma constraint_filter_matches_prefixes_witness :
  parse_column_line "  uniqueKey varchar(10) NULL" = Ok None /\
  columns_of_line "  uniqueKey varchar(10) NULL" = [].
Proof.
  destruct constraint_filter_matches_prefixes as (_ & H & _).
  apply (H "UNIQUE").
  - vm_compute. tauto.
  - exists (str "  "), (str "unique"), (str "Key varchar(10) NULL").
    repeat split; reflexivity.
Defined.

(** ** Rendering and parsing again *)

Lemma join_four (sep a b c d : text) :
  join sep [a; b; c; d] = a ++ sep ++ b ++ sep ++ c ++ sep ++ d.
Proof. reflexivity. Qed.

Lemma generate_databricks_ddl_parts (table : TableDefinition) (use_catalog : bool) :
  exists full_table_name,
    generate_databricks_ddl table use_catalog =
    ("CREATE TABLE IF NOT EXISTS " ++ full_table_name ++ " (") ++ nl ++
    column_section table ++ nl ++ ")" ++ nl ++ "USING DELTA;".
Proof.
  unfold generate_databricks_ddl, column_section.
  exists (if use_catalog && truthy_opt (schema table)
          then match schema table with Some s => s | None => [] end ++ "." ++ name table
          else name table).
  apply join_four.
Qed.

Lemma dict_get_in (d : list (string * string)) (key default : text) :
  In (dict_get d key default) (default :: map (fun kv => str (snd kv)) d).
Proof.
  induction d as [|[k v] d IH]; cbn [dict_get map].
  - left. reflexivity.
  - destruct (text_eqb key (str k)).
    + right. left. reflexivity.
    + destruct IH as [IH|IH]; [left; exact IH | right; right; exact IH].
Qed.

Lemma word_shape (w : text) :
  w <> [] -> forallb is_upper w = true -> type_shape w.
Proof.
  intros H1 H2. exists w, None. rewrite app_nil_r. repeat split; assumption.
Qed.

Lemma type_mapping_shapes (T : text) :
  In T (str "STRING" :: map (fun kv => str (snd kv)) type_mapping) -> type_shape T.
Proof.
  intros H. cbn [map type_mapping snd] in H.
  repeat (destruct H as [<- | H];
    [ first [ apply word_shape; [discriminate | reflexivity]
            | exists (str "DECIMAL"), (Some (str "19,4"));
              repeat split; (reflexivity || discriminate)
            | exists (str "DECIMAL"), (Some (str "10,4"));
              repeat split; (reflexivity || discriminate) ] | ]).
  destruct H.
Qed.

Lemma convert_data_type_shape (sql_server_type : text) (params : option text) :
  plain_params params = true ->
  type_shape (convert_data_type sql_server_type params).
Proof.
  intros Hp. unfold convert_data_type.
  destruct (in_list (lower sql_server_type) ["decimal"; "numeric"] && truthy_opt params) eqn:E1.
  - apply andb_true_iff in E1 as [_ E1].
    destruct params as [p|]; [|discriminate].
    exists (str "DECIMAL"), (Some p).
    split; [reflexivity|]. split; [discriminate|]. split; [reflexivity|].
    split; [destruct p; [discriminate | discriminate] | exact Hp].
  - destruct (in_list (lower sql_server_type) ["char"; "varchar"; "nchar"; "nvarchar"]).
    + apply word_shape; [discriminate | reflexivity].
    + destruct (in_list (lower sql_server_type) ["float"] && truthy_opt params).
      * destruct (int match params with Some p => p | None => [] end) as [n|e].
        -- destruct (n <? 25)%Z; apply word_shape; (discriminate || reflexivity).
        -- apply word_shape; [discriminate | reflexivity].
      * apply type_mapping_shapes, dict_get_in.
Qed.

(** *** Characters of a rendered line *)

Lemma ident_char_facts (c : ascii) :
  ident_char c = true ->
  is_space c = false /\ none_of "[]" c = true /\ none_of "()," c = true /\
  Ascii.eqb c "=" = false /\ Ascii.eqb c "[" = false.
Proof. intros H. repeat split; revert H; by_cases_on_char c. Qed.

Lemma upper_char_facts (c : ascii) :
  is_upper c = true ->
  is_space c = false /\ none_of "[]" c = true /\ none_of "()," c = true /\
  Ascii.eqb c "=" = false /\ Ascii.eqb c "[" = false /\ Ascii.eqb c "]" = false /\
  letter_ c = true /\ to_lower (to_lower c) = to_lower c.
Proof. intros H. repeat split; revert H; by_cases_on_char c. Qed.

Lemma param_char_facts (c : ascii) :
  plain_param_char c = true ->
  is_space c = false /\ none_of "[]" c = true /\ none_of "()" c = true /\
  none_of ")" c = true /\ Ascii.eqb c "=" = false /\ Ascii.eqb c "]" = false.
Proof. intros H. repeat split; revert H; by_cases_on_char c. Qed.

Lemma forallb_impl_in {A : Type} (p q : A -> bool) (l : list A) :
  (forall x, p x = true -> q x = true) -> forallb p l = true -> forallb q l = true.
Proof.
  intros Hpq H. apply forallb_forall. intros x Hx. apply Hpq.
  rewrite forallb_forall in H. apply H. exact Hx.
Qed.

(** *** The split of a rendered column section *)

Lemma smart_split_loop_word (a : text) : forall r parts cur d,
  forallb (none_of "(),") a = true ->
  smart_split_loop (a ++ r) parts cur d = smart_split_loop r parts (cur ++ a) d.
Proof.
  induction a as [|x a IH]; intros r parts cur d H.
  - rewrite app_nil_r. reflexivity.
  - cbn [forallb] in H. apply andb_true_iff in H as [Hx Ha].
    cbn [app]. rewrite smart_split_loop_cons.
    assert (E : Ascii.eqb x "," = false /\ paren_step x = 0%Z)
      by (revert Hx; clear; split; revert Hx; by_cases_on_char x).
    destruct E as [E1 E2]. rewrite E1, E2, Z.add_0_r. cbn [andb].
    rewrite IH by exact Ha. rewrite <- app_assoc. reflexivity.
Qed.

Lemma smart_split_loop_inner (q : text) : forall r parts cur d,
  forallb (none_of "()") q = true -> d <> 0%Z ->
  smart_split_loop (q ++ r) parts cur d = smart_split_loop r parts (cur ++ q) d.
Proof.
  induction q as [|x q IH]; intros r parts cur d H Hd.
  - rewrite app_nil_r. reflexivity.
  - cbn [forallb] in H. apply andb_true_iff in H as [Hx Hq].
    cbn [app]. rewrite smart_split_loop_cons.
    assert (E : paren_step x = 0%Z) by (revert Hx; clear; by_cases_on_char x).
    apply Z.eqb_neq in Hd. rewrite Hd, andb_false_r, E, Z.add_0_r.
    apply Z.eqb_neq in Hd.
    rewrite IH by assumption. rewrite <- app_assoc. reflexivity.
Qed.

Lemma smart_split_loop_open (t : text) (parts : list text) (cur : text) (d : Z) :
  smart_split_loop ("("%char :: t) parts cur d =
  smart_split_loop t parts (cur ++ ["("%char]) (d + 1).
Proof. reflexivity. Qed.

Lemma smart_split_loop_close (t : text) (parts : list text) (cur : text) (d : Z) :
  smart_split_loop (")"%char :: t) parts cur d =
  smart_split_loop t parts (cur ++ [")"%char]) (d - 1).
Proof. reflexivity. Qed.

Lemma whole_word (a : text) : forallb (none_of "(),") a = true -> whole a.
Proof. intros H r parts cur. apply smart_split_loop_word. exact H. Qed.

Lemma whole_app (a b : text) : whole a -> whole b -> whole (a ++ b).
Proof.
  intros Ha Hb r parts cur.
  rewrite <- app_assoc, Ha, Hb, <- app_assoc. reflexivity.
Qed.

Lemma whole_args (args : option text) :
  match args with
  | None => True
  | Some q => forallb plain_param_char q = true
  end -> whole (args_text args).
Proof.
  destruct args as [q|]; intros H r parts cur.
  - assert (Hq : forallb (none_of "()") q = true).
    { revert H. apply forallb_impl_in. intros x Hx. apply param_char_facts, Hx. }
    unfold args_text.
    change ((str "(" ++ q ++ str ")") ++ r)
      with ("("%char :: ((q ++ str ")") ++ r)).
    rewrite smart_split_loop_open.
    rewrite <- app_assoc, smart_split_loop_inner by (exact Hq || discriminate).
    change (str ")" ++ r) with (")"%char :: r).
    rewrite smart_split_loop_close.
    f_equal. rewrite <- !app_assoc. reflexivity.
  - cbn [args_text app]. rewrite app_nil_r. reflexivity.
Qed.

Lemma smart_split_finish (txt : text) :
  _smart_split txt = finish (smart_split_loop txt [] [] 0).
Proof. reflexivity. Qed.

(** Lines that are collected whole and lose only their indentation when
    stripped come back one fragment each. *)
Lemma smart_split_lines (bodies : list text) :
  (forall b, In b bodies ->
     whole ("  " ++ b) /\
     forall ws, forallb is_space ws = true -> strip (ws ++ b) = b) ->
  bodies <> [] ->
  forall parts ws,
    forallb is_space ws = true ->
    finish (smart_split_loop (join ("," ++ nl) (map (fun b => "  " ++ b) bodies))
              parts ws 0) = parts ++ bodies.
Proof.
  induction bodies as [|b bodies IH]; intros Hall Hne parts ws Hws; [contradiction|].
  destruct (Hall b (or_introl eq_refl)) as [Hwhole Htight].
  assert (Hstrip : strip (ws ++ "  " ++ b) = b).
  { rewrite app_assoc. apply Htight. rewrite forallb_app, Hws. reflexivity. }
  destruct bodies as [|b2 bodies].
  - cbn [map join].
    rewrite <- (app_nil_r (str "  " ++ b)), Hwhole. cbn [smart_split_loop finish].
    assert (Ht : truthy (ws ++ "  " ++ b) = true) by (destruct ws; reflexivity).
    rewrite Ht, Hstrip. reflexivity.
  - change (join ("," ++ nl) (map (fun b => "  " ++ b) (b :: b2 :: bodies)))
      with (("  " ++ b) ++ ("," ++ nl) ++
            join ("," ++ nl) (map (fun b => "  " ++ b) (b2 :: bodies))).
    rewrite Hwhole.
    change ((str "," ++ nl) ++ join ("," ++ nl) (map (fun b => "  " ++ b) (b2 :: bodies)))
      with (","%char :: "010"%char ::
            join ("," ++ nl) (map (fun b => "  " ++ b) (b2 :: bodies))).
    rewrite smart_split_loop_cons.
    change (Ascii.eqb "," "," && (0 =? 0)%Z) with true. cbv iota.
    rewrite smart_split_loop_cons.
    change (Ascii.eqb "010" "," && (0 + paren_step "," =? 0)%Z) with false. cbv iota.
    change (0 + paren_step "," + paren_step "010")%Z with 0%Z.
    rewrite Hstrip, IH.
    + rewrite <- app_assoc. reflexivity.
    + intros x Hx. apply Hall. right. exact Hx.
    + discriminate.
    + reflexivity.
Qed.

(** *** Greedy repetition with backtracking *)

Lemma star_greedy_all_fail {R : Type} (p : ascii -> bool) (b : text) :
  forall (sn : text) (k : text -> text -> option R),
    (forall x y, b = x ++ y -> x <> [] -> k (rev x ++ sn) y = None) ->
    star_greedy p sn b k = k sn b.
Proof.
  induction b as [|c t IH]; intros sn k H; [reflexivity|].
  cbn [star_greedy]. destruct (p c); [|reflexivity].
  rewrite IH.
  - pose proof (H [c] t eq_refl) as Hc. cbn [rev app] in Hc.
    rewrite Hc by discriminate. reflexivity.
  - intros x y Hxy Hx.
    specialize (H (c :: x) y). cbn [rev] in H. rewrite <- app_assoc in H.
    apply H; [rewrite Hxy; reflexivity | discriminate].
Qed.

Lemma star_greedy_prefix {R : Type} (p : ascii -> bool) (a b : text) :
  forall (sn : text) (k : text -> text -> option R) (res : R),
    forallb p a = true ->
    star_greedy p (rev a ++ sn) b k = Some res ->
    star_greedy p sn (a ++ b) k = Some res.
Proof.
  induction a as [|c a IH]; intros sn k res Ha H; [exact H|].
  cbn [forallb] in Ha. apply andb_true_iff in Ha as [Hc Ha].
  cbn [app star_greedy]. rewrite Hc.
  rewrite (IH (c :: sn) k res Ha); [reflexivity|].
  cbn [rev] in H. rewrite <- app_assoc in H. exact H.
Qed.

(** The run stops where the class stops, and the continuation succeeds
    there. *)
Lemma run_star_pick (p : ascii -> bool) (a b sn : text) (cps : list (nat * text))
    (k : mstate -> option mstate) (res : mstate) :
  forallb p a = true ->
  match b with c :: _ => p c = false | [] => True end ->
  k (MState (rev a ++ sn) b cps) = Some res ->
  run (Star p) (MState sn (a ++ b) cps) k = Some res.
Proof.
  intros Ha Hb Hk. cbn [run seen rest caps].
  apply star_greedy_prefix; [exact Ha|].
  rewrite star_greedy_stop by exact Hb. exact Hk.
Qed.

(** The run could go on, but the continuation fails at every longer
    length and succeeds here. *)
Lemma run_star_back (p : ascii -> bool) (a b sn : text) (cps : list (nat * text))
    (k : mstate -> option mstate) (res : mstate) :
  forallb p a = true ->
  (forall x y, b = x ++ y -> x <> [] ->
               k (MState (rev x ++ rev a ++ sn) y cps) = None) ->
  k (MState (rev a ++ sn) b cps) = Some res ->
  run (Star p) (MState sn (a ++ b) cps) k = Some res.
Proof.
  intros Ha Hb Hk. cbn [run seen rest caps].
  apply star_greedy_prefix; [exact Ha|].
  rewrite star_greedy_all_fail; [exact Hk|].
  intros x y Hxy Hx. apply Hb; assumption.
Qed.

Lemma passed_rev (a sn rs rs' : text) (cps cps' : list (nat * text)) :
  passed (MState sn rs cps) (MState (rev a ++ sn) rs' cps') = a.
Proof.
  unfold passed. cbn [seen].
  rewrite length_app, Nat.add_sub, firstn_app, firstn_all, Nat.sub_diag.
  cbn [firstn]. rewrite app_nil_r. apply rev_involutive.
Qed.

(** *** The column pattern on a rendered line *)

Lemma re_column_unfold :
  re_column =
  Seq (Opt (Chr (only "["))) (Seq (Grp 1 (Plus (none_of "[]"))) column_tail).
Proof. reflexivity. Qed.

Lemma column_tail_fails (sn y : text) (cps : list (nat * text))
    (k : mstate -> option mstate) :
  match y with
  | c :: _ => is_space c = false /\ Ascii.eqb c "]" = false
  | [] => True
  end ->
  run column_tail (MState sn y cps) k = None.
Proof.
  intros H. unfold column_tail, Plus.
  cbn [seqs fold_right run rest seen caps].
  destruct y as [|c y]; [reflexivity|].
  destruct H as [H1 H2].
  unfold only, space. rewrite Ascii.eqb_sym, H2, H1. reflexivity.
Qed.

(** Steps of the matcher, one construct at a time. *)
Lemma seqs_cons (r : re) (rs : list re) : seqs (r :: rs) = Seq r (seqs rs).
Proof. reflexivity. Qed.

Lemma run_seq (r1 r2 : re) (st : mstate) (k : mstate -> option mstate) :
  run (Seq r1 r2) st k = run r1 st (fun st' => run r2 st' k).
Proof. reflexivity. Qed.

Lemma run_grp (n : nat) (r : re) (st : mstate) (k : mstate -> option mstate) :
  run (Grp n r) st k =
  run r st (fun st' => k (MState (seen st') (rest st') ((n, passed st st') :: caps st'))).
Proof. reflexivity. Qed.

Lemma run_opt_miss (r : re) (st : mstate) (k : mstate -> option mstate) :
  run r st k = None -> run (Opt r) st k = k st.
Proof. intros H. cbn [run]. rewrite H. reflexivity. Qed.

Lemma run_opt_hit (r : re) (st : mstate) (k : mstate -> option mstate) (res : mstate) :
  run r st k = Some res -> run (Opt r) st k = Some res.
Proof. intros H. cbn [run]. rewrite H. reflexivity. Qed.

Lemma run_chr_miss (p : ascii -> bool) (sn rs : text) (cps : list (nat * text))
    (k : mstate -> option mstate) :
  match rs with c :: _ => p c = false | [] => True end ->
  run (Chr p) (MState sn rs cps) k = None.
Proof.
  intros H. cbn [run rest]. destruct rs as [|c t]; [reflexivity|].
  rewrite H. reflexivity.
Qed.

Lemma run_chr_hit (p : ascii -> bool) (c : ascii) (sn t : text)
    (cps : list (nat * text)) (k : mstate -> option mstate) :
  p c = true ->
  run (Chr p) (MState sn (c :: t) cps) k = k (MState (c :: sn) t cps).
Proof. intros H. cbn [run rest seen caps]. rewrite H. reflexivity. Qed.

Lemma passed_rev_cons (a : text) (c : ascii) (sn rs rs' : text)
    (cps cps' : list (nat * text)) :
  passed (MState sn rs cps) (MState (rev a ++ c :: sn) rs' cps') = c :: a.
Proof.
  rewrite <- (passed_rev (c :: a) sn rs rs' cps cps').
  cbn [rev]. rewrite <- app_assoc. reflexivity.
Qed.

Lemma passed_same (sn rs rs' : text) (cps cps' : list (nat * text)) :
  passed (MState sn rs cps) (MState sn rs' cps') = [].
Proof. exact (passed_rev [] sn rs rs' cps cps'). Qed.

(** The end of the column pattern at the end of the line. *)
Lemma column_end_ok (sn : text) (cps : list (nat * text)) :
  run (seqs [Opt (Chr (only "]")); Star space; Grp 4 (Star dot)])
    (MState sn [] cps) Some =
  Some (MState sn [] ((4%nat, []) :: cps)).
Proof.
  rewrite seqs_cons, run_seq, run_opt_miss by (apply run_chr_miss; exact I).
  rewrite seqs_cons, run_seq.
  apply (run_star_pick space [] []); [reflexivity | exact I|].
  rewrite seqs_cons, run_seq, run_grp.
  apply (run_star_pick dot [] []); [reflexivity | exact I|].
  cbn [seen rest caps rev app]. rewrite passed_same. reflexivity.
Qed.

Lemma column_word_ok (sn w rest' : text) (cps : list (nat * text))
    (k : mstate -> option mstate) (res : mstate) :
  w <> [] -> forallb is_upper w = true ->
  match rest' with c :: _ => letter_ c = false | [] => True end ->
  run (Opt (seqs [Chr (only "("); Grp 3 (Plus (none_of ")")); Chr (only ")")]))
    (MState (rev w ++ " "%char :: sn) rest' ((2%nat, w) :: cps))
    (fun st' => run (seqs [Opt (Chr (only "]")); Star space; Grp 4 (Star dot)]) st' k)
    = Some res ->
  run column_tail (MState sn (" " ++ w ++ rest') cps) k = Some res.
Proof.
  intros Hw Hup Hstop Hk.
  assert (Hletters : forallb letter_ w = true).
  { revert Hup. apply forallb_impl_in. intros x Hx. apply upper_char_facts, Hx. }
  destruct w as [|w0 w]; [contradiction|].
  cbn [forallb] in Hup, Hletters.
  apply andb_true_iff in Hup as [Hw0 Hup].
  apply andb_true_iff in Hletters as [Hl0 Hletters].
  destruct (upper_char_facts w0 Hw0) as (Hs0 & _ & _ & _ & Hb0 & _ & _ & _).
  change (str " " ++ (w0 :: w) ++ rest') with (" "%char :: w0 :: w ++ rest').
  unfold column_tail.
  rewrite seqs_cons, run_seq, run_opt_miss by (apply run_chr_miss; reflexivity).
  rewrite seqs_cons, run_seq. unfold Plus at 1.
  rewrite run_seq, run_chr_hit by reflexivity.
  apply (run_star_pick space [] (w0 :: w ++ rest')); [reflexivity | exact Hs0 |].
  cbn [rev app].
  rewrite seqs_cons, run_seq, run_opt_miss
    by (apply run_chr_miss; unfold only; rewrite Ascii.eqb_sym; exact Hb0).
  rewrite seqs_cons, run_seq, run_grp. unfold Plus at 1.
  rewrite run_seq, run_chr_hit by exact Hl0.
  apply (run_star_pick letter_ w rest'); [exact Hletters | exact Hstop |].
  cbn [seen rest caps]. rewrite passed_rev_cons.
  rewrite seqs_cons, run_seq.
  cbn [rev] in Hk. rewrite <- app_assoc in Hk. exact Hk.
Qed.

Lemma column_args_ok (sn q : text) (cps : list (nat * text))
    (k : mstate -> option mstate) (res : mstate) :
  q <> [] -> forallb plain_param_char q = true ->
  k (MState (")"%char :: rev q ++ "("%char :: sn) [] ((3%nat, q) :: cps)) = Some res ->
  run (Opt (seqs [Chr (only "("); Grp 3 (Plus (none_of ")")); Chr (only ")")]))
    (MState sn ("(" ++ q ++ ")") cps) k = Some res.
Proof.
  intros Hq Hplain Hk.
  assert (Hnp : forallb (none_of ")") q = true).
  { revert Hplain. apply forallb_impl_in. intros x Hx. apply param_char_facts, Hx. }
  destruct q as [|q0 q]; [contradiction|].
  cbn [forallb] in Hnp. apply andb_true_iff in Hnp as [Hq0 Hnp].
  change (str "(" ++ (q0 :: q) ++ str ")") with ("("%char :: q0 :: q ++ [")"%char]).
  apply run_opt_hit.
  rewrite seqs_cons, run_seq, run_chr_hit by reflexivity.
  rewrite seqs_cons, run_seq, run_grp. unfold Plus at 1.
  rewrite run_seq, run_chr_hit by exact Hq0.
  apply (run_star_pick (none_of ")") q [")"%char]); [exact Hnp | reflexivity |].
  cbn [seen rest caps]. rewrite passed_rev_cons.
  rewrite seqs_cons, run_seq, run_chr_hit by reflexivity.
  cbn [seqs fold_right run].
  cbn [rev] in Hk. rewrite <- app_assoc in Hk. exact Hk.
Qed.

Lemma column_tail_ok (sn w : text) (args : option text) (cps : list (nat * text)) :
  w <> [] -> forallb is_upper w = true ->
  match args with
  | None => True
  | Some q => q <> [] /\ forallb plain_param_char q = true
  end ->
  exists sn',
    run column_tail (MState sn (" " ++ w ++ args_text args) cps) Some =
    Some (MState sn' []
            ((4%nat, []) :: match args with Some q => [(3%nat, q)] | None => [] end
             ++ (2%nat, w) :: cps)).
Proof.
  intros Hw Hup Hargs.
  destruct args as [q|]; eexists.
  - apply column_word_ok; [exact Hw | exact Hup | reflexivity |].
    destruct Hargs as [Hq Hplain].
    apply column_args_ok; [exact Hq | exact Hplain |].
    apply column_end_ok.
  - apply column_word_ok; [exact Hw | exact Hup | exact I |].
    rewrite run_opt_miss
      by (rewrite seqs_cons, run_seq; apply run_chr_miss; exact I).
    apply column_end_ok.
Qed.

Lemma type_char_facts (c : ascii) :
  type_char c = true ->
  is_space c = false /\ Ascii.eqb c "]" = false /\ Ascii.eqb "=" c = false /\
  none_of "[]" c = true /\ Ascii.eqb "[" c = false.
Proof. intros H. repeat split; revert H; by_cases_on_char c. Qed.

Lemma ident_type_char (c : ascii) : ident_char c = true -> type_char c = true.
Proof. by_cases_on_char c. Qed.

Lemma upper_type_char (c : ascii) : is_upper c = true -> type_char c = true.
Proof. by_cases_on_char c. Qed.

Lemma param_type_char (c : ascii) : plain_param_char c = true -> type_char c = true.
Proof. by_cases_on_char c. Qed.

Lemma type_text_chars (w : text) (args : option text) :
  forallb is_upper w = true ->
  match args with
  | None => True
  | Some q => q <> [] /\ forallb plain_param_char q = true
  end ->
  forallb type_char (w ++ args_text args) = true.
Proof.
  intros Hw Hargs. rewrite forallb_app.
  rewrite (forallb_impl_in _ _ _ upper_type_char Hw).
  destruct args as [q|]; [|reflexivity].
  destruct Hargs as [_ Hq]. unfold args_text.
  change (str "(" ++ q ++ str ")") with ("("%char :: q ++ [")"%char]).
  cbn [forallb]. rewrite forallb_app, (forallb_impl_in _ _ _ param_type_char Hq).
  reflexivity.
Qed.

Lemma contains_char_false (c : ascii) (s : text) :
  forallb (fun x => negb (Ascii.eqb c x)) s = true -> contains [c] s = false.
Proof.
  induction s as [|x s IH]; intros H; [reflexivity|].
  cbn [forallb] in H. apply andb_true_iff in H as [Hx Hs].
  apply negb_true_iff in Hx.
  cbn [contains starts_with]. rewrite Hx, IH by exact Hs. reflexivity.
Qed.

Lemma starts_with_ci_sep (w a r : text) (c : ascii) :
  starts_with_ci w a = false ->
  forallb (fun x => negb (is_ci x c)) w = true ->
  starts_with_ci w (a ++ c :: r) = false.
Proof.
  revert a; induction w as [|x w IH]; intros a H Hw; [discriminate|].
  cbn [forallb] in Hw. apply andb_true_iff in Hw as [Hx Hw].
  apply negb_true_iff in Hx.
  destruct a as [|b a]; cbn [app starts_with_ci].
  - rewrite Hx. reflexivity.
  - cbn [starts_with_ci] in H. destruct (is_ci x b); [|reflexivity].
    cbn [andb] in *. apply IH; assumption.
Qed.

Lemma rstrip_all_nonspace (k : text) :
  forallb (fun c => negb (is_space c)) k = true -> rstrip k = k.
Proof.
  intros H. rewrite <- (app_nil_r k) at 1.
  rewrite rstrip_nonspace by exact H. apply app_nil_r.
Qed.

(** The stripped form of a rendered line: name, one space, type. *)
Lemma strip_rendered (ws nm T : text) :
  forallb is_space ws = true ->
  nm <> [] -> forallb type_char nm = true ->
  T <> [] -> forallb type_char T = true ->
  strip (ws ++ nm ++ " " ++ T) = nm ++ " " ++ T.
Proof.
  intros Hws Hnm Hnmc HT HTc.
  assert (Hns : forall s, forallb type_char s = true ->
                          forallb (fun c => negb (is_space c)) s = true).
  { intros s. apply forallb_impl_in. intros c Hc.
    apply type_char_facts in Hc as (Hc & _). rewrite Hc. reflexivity. }
  rewrite strip_word by (try apply Hns; assumption).
  f_equal. destruct T as [|t0 T]; [contradiction|].
  pose proof (Hns _ HTc) as H. cbn [forallb] in H.
  apply andb_true_iff in H as [H0 H]. apply negb_true_iff in H0.
  change (str " " ++ t0 :: T) with (str " " ++ t0 :: T).
  rewrite (rstrip_keep (str " ") t0 T H0), (rstrip_all_nonspace T H).
  reflexivity.
Qed.

Lemma re_skip_plain (nm r : text) :
  plain_name nm = true -> re_match re_skip (nm ++ " " ++ r) = None.
Proof.
  unfold plain_name. intros H.
  apply andb_true_iff in H as [H Hkw]. apply andb_true_iff in H as [Hne Hid].
  rewrite re_skip_unfold, star_greedy_stop.
  - apply run_alts_none; [discriminate|].
    intros x Hx. apply in_map_iff in Hx as (kw & <- & Hin).
    rewrite run_lit_ci.
    change (nm ++ str " " ++ r) with (nm ++ " "%char :: r).
    rewrite starts_with_ci_sep; [reflexivity | |].
    + rewrite forallb_forall in Hkw. apply negb_true_iff, Hkw, Hin.
    + revert kw Hin. apply forallb_forall. vm_compute. reflexivity.
  - destruct nm as [|c nm]; [discriminate|].
    cbn [forallb] in Hid. apply andb_true_iff in Hid as [Hc _].
    apply ident_char_facts in Hc. apply Hc.
Qed.

Lemma re_column_plain (nm w : text) (args : option text) :
  nm <> [] -> forallb ident_char nm = true ->
  w <> [] -> forallb is_upper w = true ->
  match args with
  | None => True
  | Some q => q <> [] /\ forallb plain_param_char q = true
  end ->
  exists sn',
    re_match re_column (nm ++ " " ++ w ++ args_text args) =
    Some (MState sn' []
            ((4%nat, []) :: match args with Some q => [(3%nat, q)] | None => [] end
             ++ [(2%nat, w); (1%nat, nm)])).
Proof.
  intros Hnm Hid Hw Hup Hargs.
  assert (Hnb : forallb (none_of "[]") nm = true).
  { revert Hid. apply forallb_impl_in. intros x Hx. apply ident_char_facts, Hx. }
  pose proof (type_text_chars w args Hup Hargs) as HT.
  destruct nm as [|n0 nm]; [contradiction|].
  cbn [forallb] in Hid, Hnb.
  apply andb_true_iff in Hid as [Hn0 Hid]. apply andb_true_iff in Hnb as [Hb0 Hnb].
  destruct (ident_char_facts n0 Hn0) as (_ & _ & _ & _ & Hbr).
  destruct (column_tail_ok (rev nm ++ [n0]) w args [(1%nat, n0 :: nm)] Hw Hup Hargs)
    as (sn' & Hok).
  exists sn'. unfold re_match. rewrite re_column_unfold.
  change ((n0 :: nm) ++ str " " ++ w ++ args_text args)
    with (n0 :: nm ++ (str " " ++ w ++ args_text args)).
  rewrite run_seq, run_opt_miss
    by (apply run_chr_miss; unfold only; rewrite Ascii.eqb_sym; exact Hbr).
  rewrite run_seq, run_grp. unfold Plus at 1.
  rewrite run_seq, run_chr_hit by exact Hb0.
  apply run_star_back; [exact Hnb | |].
  - intros x y Hxy Hx. cbn [seen rest caps].
    apply column_tail_fails.
    destruct x as [|x0 x]; [contradiction|].
    injection Hxy as _ Hxy.
    destruct y as [|c y]; [exact I|].
    assert (Hc : type_char c = true).
    { rewrite Hxy, forallb_app in HT. apply andb_true_iff in HT as [_ HT].
      cbn [forallb] in HT. apply andb_true_iff in HT as [HT _]. exact HT. }
    apply type_char_facts in Hc. split; apply Hc.
  - cbn [seen rest caps]. rewrite passed_rev_cons.
    refine (eq_trans Hok _). destruct args; reflexivity.
Qed.

Lemma parse_rendered_line (nm w : text) (args : option text) :
  plain_name nm = true ->
  w <> [] -> forallb is_upper w = true ->
  match args with
  | None => True
  | Some q => q <> [] /\ forallb plain_param_char q = true
  end ->
  parse_column_line (nm ++ " " ++ w ++ args_text args) =
  Ok (Some (Column nm (lower w) args true)).
Proof.
  intros Hplain Hw Hup Hargs.
  pose proof Hplain as Hp. unfold plain_name in Hp.
  apply andb_true_iff in Hp as [Hp _]. apply andb_true_iff in Hp as [Hne Hid].
  assert (Hnm : nm <> []) by (intros ->; discriminate).
  pose proof (forallb_impl_in _ _ _ ident_type_char Hid) as Hnmc.
  pose proof (type_text_chars w args Hup Hargs) as HT.
  assert (HTne : w ++ args_text args <> [])
    by (intros H; apply app_eq_nil in H as [H _]; contradiction).
  unfold parse_column_line.
  pose proof (strip_rendered [] nm (w ++ args_text args) eq_refl Hnm Hnmc HTne HT)
    as Hstrip.
  cbn [app] in Hstrip. rewrite Hstrip.
  assert (Ht : truthy (nm ++ " " ++ w ++ args_text args) = true)
    by (destruct nm; [contradiction | reflexivity]).
  rewrite Ht, re_skip_plain by exact Hplain. cbn [negb].
  assert (Heq : contains "=" (nm ++ " " ++ w ++ args_text args) = false).
  { apply (contains_char_false "=").
    rewrite !forallb_app. cbn [forallb str list_ascii_of_string].
    assert (H : forall s, forallb type_char s = true ->
                          forallb (fun x => negb (Ascii.eqb "=" x)) s = true).
    { intros s. apply forallb_impl_in. intros c Hc.
      apply type_char_facts in Hc as (_ & _ & Hc & _). rewrite Hc. reflexivity. }
    rewrite forallb_app in HT. apply andb_true_iff in HT as [HT1 HT2].
    rewrite (H _ Hnmc), (H _ HT1), (H _ HT2). reflexivity. }
  rewrite Heq. cbn [andb].
  destruct (re_column_plain nm w args Hnm Hid Hw Hup Hargs) as (sn' & Hm).
  rewrite Hm. destruct args as [q|]; reflexivity.
Qed.

(** * Further properties *)

(** ** The matcher as a relation *)

Lemma star_greedy_matches {R : Type} (p : ascii -> bool) (rs : text) :
  forall (sn : text) (k : text -> text -> option R) (res : R),
    star_greedy p sn rs k = Some res ->
    exists a b, rs = a ++ b /\ forallb p a = true /\ k (rev a ++ sn) b = Some res.
Proof.
  induction rs as [|c t IH]; intros sn k res H; cbn [star_greedy] in H.
  - exists [], []. repeat split. exact H.
  - destruct (p c) eqn:Hc.
    + destruct (star_greedy p (c :: sn) t k) eqn:E.
      * injection H as ->. apply IH in E as (a & b & -> & Ha & Hk).
        exists (c :: a), b. split; [reflexivity|]. split.
        -- cbn [forallb]. rewrite Hc, Ha. reflexivity.
        -- cbn [rev]. rewrite <- app_assoc. exact Hk.
      * exists [], (c :: t). repeat split. exact H.
    + exists [], (c :: t). repeat split. exact H.
Qed.

Lemma star_lazy_matches {R : Type} (p : ascii -> bool) (rs : text) :
  forall (sn : text) (k : text -> text -> option R) (res : R),
    star_lazy p sn rs k = Some res ->
    exists a b, rs = a ++ b /\ forallb p a = true /\ k (rev a ++ sn) b = Some res.
Proof.
  induction rs as [|c t IH]; intros sn k res H; cbn [star_lazy] in H.
  - destruct (k sn []) eqn:E; [|discriminate]. injection H as ->.
    exists [], []. repeat split. exact E.
  - destruct (k sn (c :: t)) eqn:E.
    + injection H as ->. exists [], (c :: t). repeat split. exact E.
    + destruct (p c) eqn:Hc; [|discriminate].
      apply IH in H as (a & b & -> & Ha & Hk).
      exists (c :: a), b. split; [reflexivity|]. split.
      * cbn [forallb]. rewrite Hc, Ha. reflexivity.
      * cbn [rev]. rewrite <- app_assoc. exact Hk.
Qed.

(** Whatever the matcher returns, it reached by a match of the pattern. *)
Lemma run_matches (r : re) :
  forall (st : mstate) (k : mstate -> option mstate) (res : mstate),
    run r st k = Some res ->
    exists st', matches r st st' /\ k st' = Some res.
Proof.
  induction r as [|p|p|p|r IH|r1 IH1 r2 IH2|r1 IH1 r2 IH2|g r IH|ml|ml|r IH];
    intros [sn rs cps] k res H; cbn [run seen rest caps] in H.
  - eexists. split; [constructor | exact H].
  - destruct rs as [|c t]; [discriminate|].
    destruct (p c) eqn:Hc; [|discriminate].
    eexists. split; [constructor; exact Hc | exact H].
  - apply star_greedy_matches in H as (a & b & -> & Ha & H).
    eexists. split; [constructor; exact Ha | exact H].
  - apply star_lazy_matches in H as (a & b & -> & Ha & H).
    eexists. split; [constructor; exact Ha | exact H].
  - destruct (run r (MState sn rs cps) k) eqn:E.
    + injection H as ->. apply IH in E as (st' & Hm & Hk).
      exists st'. split; [apply M_opt_some; exact Hm | exact Hk].
    + eexists. split; [apply M_opt_none | exact H].
  - apply IH1 in H as (st1 & Hm1 & H). apply IH2 in H as (st2 & Hm2 & H).
    exists st2. split; [eapply M_seq; eassumption | exact H].
  - destruct (run r1 (MState sn rs cps) k) eqn:E.
    + injection H as ->. apply IH1 in E as (st' & Hm & Hk).
      exists st'. split; [apply M_alt_l; exact Hm | exact Hk].
    + apply IH2 in H as (st' & Hm & Hk).
      exists st'. split; [apply M_alt_r; exact Hm | exact Hk].
  - apply IH in H as (st' & Hm & Hk).
    eexists. split; [apply M_grp; exact Hm | exact Hk].
  - destruct (at_bol ml (MState sn rs cps)) eqn:E; [|discriminate].
    eexists. split; [apply M_bol; exact E | exact H].
  - destruct (at_eol ml (MState sn rs cps)) eqn:E; [|discriminate].
    eexists. split; [apply M_eol; exact E | exact H].
  - destruct (run r (MState sn rs cps) Some) eqn:E; [|discriminate].
    apply IH in E as (st' & Hm & _).
    eexists. split; [eapply M_ahead; exact Hm | exact H].
Qed.

(** A match passes over a stretch of the text ahead. *)
Lemma matches_passes (r : re) (st st' : mstate) :
  matches r st st' ->
  exists x, seen st' = rev x ++ seen st /\ rest st = x ++ rest st'.
Proof.
  induction 1 as [st|p c sn t cps Hc|p a sn b cps Ha|p a sn b cps Ha
                  |r st st' Hm IH|r st|r1 r2 st st1 st2 H1 IH1 H2 IH2
                  |r1 r2 st st' Hm IH|r1 r2 st st' Hm IH|n r st st' Hm IH
                  |ml st Hb|ml st He|r st st' Hm IH];
    cbn [seen rest];
    try (exists []; split; reflexivity);
    try exact IH.
  - exists [c]. split; reflexivity.
  - exists a. split; reflexivity.
  - exists a. split; reflexivity.
  - destruct IH1 as (x & Hx1 & Hx2). destruct IH2 as (y & Hy1 & Hy2).
    exists (x ++ y). rewrite Hy1, Hx1, Hx2, Hy2, rev_app_distr, <- !app_assoc.
    split; reflexivity.
Qed.

Lemma matches_passed (r : re) (st st' : mstate) :
  matches r st st' ->
  seen st' = rev (passed st st') ++ seen st /\ rest st = passed st st' ++ rest st'.
Proof.
  intros H. apply matches_passes in H as (x & Hx1 & Hx2).
  assert (E : passed st st' = x).
  { destruct st as [sn rs cps], st' as [sn' rs' cps']. cbn [seen] in Hx1. subst sn'.
    apply passed_rev. }
  rewrite E. split; assumption.
Qed.

(** One or more characters of a class: the text passed is not empty and
    stays in the class. *)
Lemma plus_passed (p : ascii -> bool) (st st' : mstate) :
  matches (Plus p) st st' ->
  passed st st' <> [] /\ forallb p (passed st st') = true.
Proof.
  intros H. unfold Plus in H.
  inversion H as [| | | | | |r1 r2 s0 s1 s2 H1 H2| | | | | |]; subst.
  inversion H1 as [|q c sn t cps Hc| | | | | | | | | | |]; subst.
  inversion H2 as [| |q a sn' b cps' Ha| | | | | | | | | |]; subst.
  rewrite passed_rev_cons. split; [discriminate|].
  cbn [forallb]. rewrite Hc, Ha. reflexivity.
Qed.

Lemma star_passed (p : ascii -> bool) (st st' : mstate) :
  matches (Star p) st st' -> forallb p (passed st st') = true.
Proof.
  intros H. inversion H as [| |q a sn b cps Ha| | | | | | | | | |]; subst.
  rewrite passed_rev. exact Ha.
Qed.

(** The groups set by a match have the properties their bodies give. *)
Lemma matches_groups_keep (Q : nat -> text -> Prop) (r : re) (st st' : mstate) :
  matches r st st' -> groups_keep Q r ->
  (forall n v, In (n, v) (caps st) -> Q n v) ->
  forall n v, In (n, v) (caps st') -> Q n v.
Proof.
  induction 1 as [st|p c sn t cps Hc|p a sn b cps Ha|p a sn b cps Ha
                  |r st st' Hm IH|r st|r1 r2 st st1 st2 H1 IH1 H2 IH2
                  |r1 r2 st st' Hm IH|r1 r2 st st' Hm IH|g r st st' Hm IH
                  |ml st Hb|ml st He|r st st' Hm IH];
    intros HQ Hst; cbn [groups_keep caps] in *; try exact Hst.
  - apply IH; assumption.
  - destruct HQ as [HQ1 HQ2]. apply IH2; [exact HQ2|]. apply IH1; assumption.
  - apply IH; [apply HQ | exact Hst].
  - apply IH; [apply HQ | exact Hst].
  - destruct HQ as [HQ1 HQ2]. intros n v [E|Hin].
    + injection E as <- <-. apply HQ1. exact Hm.
    + apply (IH HQ2 Hst). exact Hin.
Qed.

Lemma assoc_in (n : nat) (l : list (nat * text)) (v : text) :
  assoc n l = Some v -> In (n, v) l.
Proof.
  induction l as [|[m w] l IH]; cbn [assoc]; [discriminate|].
  destruct (Nat.eqb n m) eqn:E.
  - intros H. injection H as ->. apply Nat.eqb_eq in E. subst m. left. reflexivity.
  - intros H. right. apply IH. exact H.
Qed.

(** After [re.match], every group that is set has the property its body
    gives. *)
Lemma re_match_groups (Q : nat -> text -> Prop) (r : re) (s : text) (m : mstate)
    (n : nat) (v : text) :
  groups_keep Q r -> re_match r s = Some m -> group m n = Some v -> Q n v.
Proof.
  intros HQ Hm Hg. unfold re_match in Hm.
  apply run_matches in Hm as (st' & Hst & E). injection E as ->.
  apply (matches_groups_keep Q r _ _ Hst HQ); [intros ? ? []|].
  apply assoc_in. exact Hg.
Qed.

(** ** What the parser returns is well formed *)

Lemma re_column_groups : groups_keep column_group_ok re_column.
Proof.
  cbn [re_column seqs fold_right groups_keep].
  repeat split; try exact I;
    try (apply star_passed; assumption);
    match goal with
    | H : matches (Plus _) _ _ |- _ => destruct (plus_passed _ _ _ H); assumption
    end.
Qed.

Lemma re_schema_table_groups : groups_keep name_group_ok re_schema_table.
Proof.
  cbn [re_schema_table seqs fold_right groups_keep].
  repeat split; try exact I;
    match goal with
    | H : matches (Plus _) _ _ |- _ => destruct (plus_passed _ _ _ H); assumption
    end.
Qed.

Lemma re_table_groups : groups_keep name_group_ok re_table.
Proof.
  cbn [re_table seqs fold_right groups_keep].
  repeat split; try exact I;
    match goal with
    | H : matches (Plus _) _ _ |- _ => destruct (plus_passed _ _ _ H); assumption
    end.
Qed.

Lemma group_str_ok (m : mstate) (n : nat) (v : text) :
  group_str m n = Ok v -> group m n = Some v.
Proof.
  unfold group_str. destruct (group m n); [|discriminate].
  intros H. injection H as ->. reflexivity.
Qed.

Lemma lower_letters (v : text) :
  forallb letter_ v = true -> forallb lower_letter_ (lower v) = true.
Proof.
  induction v as [|c v IH]; intros H; [reflexivity|].
  cbn [forallb] in H. apply andb_true_iff in H as [Hc Hv].
  cbn [lower map forallb]. fold (lower v). rewrite (IH Hv), andb_true_r.
  revert Hc. clear. by_cases_on_char c.
Qed.

Lemma parse_column_line_ok (line : text) (col : ColumnDefinition) :
  parse_column_line line = Ok (Some col) -> column_ok col.
Proof.
  unfold parse_column_line. intros H.
  destruct (negb (truthy (strip line))); [discriminate|].
  destruct (re_match re_skip (strip line)); [discriminate|].
  destruct (contains "=" (strip line) &&
            existsb (fun opt => contains (str opt) (upper (strip line))) index_options);
    [discriminate|].
  destruct (re_match re_column (strip line)) as [m|] eqn:Em; [|discriminate].
  destruct (group_str m 1) as [v1|] eqn:E1; [|discriminate].
  destruct (group_str m 2) as [v2|] eqn:E2; [|discriminate].
  cbn [bind] in H. injection H as <-.
  pose proof (re_match_groups _ _ _ _ 1 v1 re_column_groups Em (group_str_ok _ _ _ E1))
    as [H1 H1'].
  pose proof (re_match_groups _ _ _ _ 2 v2 re_column_groups Em (group_str_ok _ _ _ E2))
    as [H2 H2'].
  unfold column_ok. cbn [col_name col_type col_params].
  split; [exact H1|]. split; [exact H1'|].
  split; [destruct v2; [contradiction | discriminate]|].
  split; [apply lower_letters; exact H2'|].
  destruct (group m 3) as [p|] eqn:E3; [|exact I].
  exact (re_match_groups _ _ _ _ 3 p re_column_groups Em E3).
Qed.

Lemma table_name_of_ok (table_content : text) (schema_name : option text)
    (table_name : text) :
  table_name_of table_content = Ok (Some (schema_name, table_name)) ->
  table_name <> [] /\ forallb (none_of "[]") table_name = true /\
  match schema_name with
  | Some s => s <> [] /\ forallb (none_of "[]") s = true
  | None => True
  end.
Proof.
  unfold table_name_of. intros H.
  destruct (re_match re_schema_table table_content) as [m|] eqn:Em.
  - destruct (group_str m 1) as [v1|] eqn:E1; [|discriminate].
    destruct (group_str m 2) as [v2|] eqn:E2; [|discriminate].
    cbn [bind] in H. injection H as <- <-.
    pose proof (re_match_groups _ _ _ _ 1 v1 re_schema_table_groups Em
                  (group_str_ok _ _ _ E1)) as H1.
    pose proof (re_match_groups _ _ _ _ 2 v2 re_schema_table_groups Em
                  (group_str_ok _ _ _ E2)) as [H2 H2'].
    split; [exact H2|]. split; [exact H2' | exact H1].
  - destruct (re_match re_table table_content) as [m|] eqn:Em'; [|discriminate].
    destruct (group_str m 1) as [v1|] eqn:E1; [|discriminate].
    cbn [bind] in H. injection H as <- <-.
    pose proof (re_match_groups _ _ _ _ 1 v1 re_table_groups Em'
                  (group_str_ok _ _ _ E1)) as [H1 H1'].
    split; [exact H1|]. split; [exact H1' | exact I].
Qed.

Lemma parse_single_table_ok (table_content : text) (t : TableDefinition) :
  _parse_single_table table_content = Ok (Some t) -> table_ok t.
Proof.
  unfold _parse_single_table. intros H.
  destruct (table_name_of table_content) as [[[sch nm]|]|] eqn:En;
    cbn [bind] in H; try discriminate.
  destruct (scan_body table_content 0 0 (-1)) as [start_idx end_idx].
  destruct ((start_idx =? -1)%Z || (end_idx =? -1)%Z); [discriminate|].
  rewrite parse_columns_spec in H. cbn [bind] in H. injection H as <-.
  destruct (table_name_of_ok _ _ _ En) as (Hn & Hn' & Hs).
  unfold table_ok. cbn [name schema columns].
  split; [exact Hn|]. split; [exact Hn'|]. split; [exact Hs|].
  intros col Hcol. apply in_flat_map in Hcol as (line & _ & Hcol).
  unfold columns_of_line in Hcol.
  destruct (parse_column_line line) as [[c|]|] eqn:El; try contradiction.
  destruct Hcol as [<-|[]]. exact (parse_column_line_ok line c El).
Qed.

(** X1: every table [parse_sql_server_ddl] returns is well formed: its name
    (and its schema, when it has one) is not empty and holds no bracket, and
    each of its columns has a name that is not empty and holds no bracket, a
    type that is not empty and made of lower-case letters and underscores,
    and params that, when present, are not empty and hold no closing
    parenthesis. *)
Theorem parsed_tables_well_formed (content : text) (tables : list TableDefinition)
    (t : TableDefinition) :
  parse_sql_server_ddl content = Ok tables -> In t tables -> table_ok t.
Proof.
  rewrite parse_sql_server_ddl_spec. intros H Hin. injection H as <-.
  apply in_flat_map in Hin as (f & _ & Hin).
  unfold tables_of_fragment in Hin.
  destruct (_parse_single_table f) as [[t'|]|] eqn:E; try contradiction.
  destruct Hin as [<-|[]]. exact (parse_single_table_ok f t' E).
Qed.

Lemma parsed_tables_well_formed_witness : table_ok orders_parsed.
Proof.
  apply (parsed_tables_well_formed orders_ddl [orders_parsed] orders_parsed).
  - vm_compute. reflexivity.
  - left. reflexivity.
Defined.

(** ** The bounds of the column list *)

Lemma depth_firstn_cons (c : ascii) (t : text) (n : nat) :
  depth (firstn (S n) (c :: t)) = (paren_step c + depth (firstn n t))%Z.
Proof. reflexivity. Qed.

(** Once [start_idx] is set, the scan ends at the parenthesis that brings the
    depth back to 0. *)
Lemma scan_body_closing (cs : text) : forall i d start st en,
  start <> (-1)%Z -> (1 <= d)%Z ->
  scan_body cs i d start = (st, en) -> en <> (-1)%Z ->
  st = start /\
  exists body post,
    cs = body ++ ")"%char :: post /\ en = (i + Z.of_nat (length body))%Z /\
    (d + depth body = 1)%Z /\ forall n, (1 <= d + depth (firstn n body))%Z.
Proof.
  induction cs as [|c cs IH]; intros i d start st en Hs Hd H Hen.
  - cbn [scan_body] in H. injection H as _ <-. contradiction.
  - cbn [scan_body] in H.
    assert (Hs' : (start =? -1)%Z = false) by (apply Z.eqb_neq; exact Hs).
    destruct (Ascii.eqb c "(") eqn:E1.
    + rewrite Hs', andb_false_r in H.
      assert (Hd1 : (1 <= d + 1)%Z) by lia.
      destruct (IH _ _ _ _ _ Hs Hd1 H Hen) as (-> & body & post & -> & -> & Hb & Hp).
      split; [reflexivity|]. exists (c :: body), post.
      assert (Hc : paren_step c = 1%Z) by (unfold paren_step; rewrite E1; reflexivity).
      split; [reflexivity|]. split; [rewrite length_cons; lia|].
      split; [cbn [depth]; lia|].
      intros [|n]; [cbn [firstn depth]; lia|].
      rewrite depth_firstn_cons. specialize (Hp n). lia.
    + destruct (Ascii.eqb c ")") eqn:E2.
      * apply Ascii.eqb_eq in E2. subst c.
        rewrite Hs' in H. cbn [negb] in H. rewrite andb_true_r in H.
        destruct (d - 1 =? 0)%Z eqn:E0.
        -- injection H as <- <-. split; [reflexivity|].
           exists [], cs. apply Z.eqb_eq in E0.
           split; [reflexivity|]. split; [cbn [length]; lia|].
           split; [cbn [depth]; lia|].
           intros n. destruct n; cbn [firstn depth]; lia.
        -- apply Z.eqb_neq in E0.
           assert (Hd1 : (1 <= d - 1)%Z) by lia.
           destruct (IH _ _ _ _ _ Hs Hd1 H Hen)
             as (-> & body & post & -> & -> & Hb & Hp).
           split; [reflexivity|]. exists (")"%char :: body), post.
           split; [reflexivity|]. split; [rewrite length_cons; lia|].
           split; [cbn [depth]; change (paren_step ")") with (-1)%Z; lia|].
           intros [|n]; [cbn [firstn depth]; lia|].
           rewrite depth_firstn_cons. change (paren_step ")") with (-1)%Z.
           specialize (Hp n). lia.
      * destruct (IH _ _ _ _ _ Hs Hd H Hen) as (-> & body & post & -> & -> & Hb & Hp).
        split; [reflexivity|]. exists (c :: body), post.
        assert (Hc : paren_step c = 0%Z)
          by (unfold paren_step; rewrite E1, E2; reflexivity).
        split; [reflexivity|]. split; [rewrite length_cons; lia|].
        split; [cbn [depth]; lia|].
        intros [|n]; [cbn [firstn depth]; lia|].
        rewrite depth_firstn_cons. specialize (Hp n). lia.
Qed.

(** Before [start_idx] is set, the scan looks for an opening parenthesis at
    depth 0. *)
Lemma scan_body_opening (cs : text) : forall i d st en,
  (0 <= i)%Z ->
  scan_body cs i d (-1) = (st, en) -> st <> (-1)%Z -> en <> (-1)%Z ->
  exists pre body post,
    cs = pre ++ "("%char :: body ++ ")"%char :: post /\
    st = (i + Z.of_nat (length pre) + 1)%Z /\
    en = (st + Z.of_nat (length body))%Z /\
    balanced body.
Proof.
  induction cs as [|c cs IH]; intros i d st en Hi H Hst Hen.
  - cbn [scan_body] in H. injection H as <- _. contradiction.
  - cbn [scan_body] in H.
    destruct (Ascii.eqb c "(") eqn:E1.
    + apply Ascii.eqb_eq in E1. subst c.
      change ((-1 =? -1)%Z) with true in H. rewrite andb_true_r in H.
      destruct (d =? 0)%Z eqn:E0.
      * apply Z.eqb_eq in E0. subst d.
        assert (Hpos : (i + 1)%Z <> (-1)%Z) by lia.
        destruct (scan_body_closing cs (i + 1) (0 + 1) (i + 1) st en
                    Hpos (Z.le_refl 1) H Hen)
          as (-> & body & post & -> & -> & Hb & Hp).
        exists [], body, post. cbn [length app].
        split; [reflexivity|]. split; [lia|]. split; [lia|].
        split; [lia|]. intros n. specialize (Hp n). lia.
      * assert (Hi1 : (0 <= i + 1)%Z) by lia.
        destruct (IH _ _ _ _ Hi1 H Hst Hen)
          as (pre & body & post & -> & -> & -> & Hbal).
        exists ("("%char :: pre), body, post.
        split; [reflexivity|]. split; [rewrite length_cons; lia|].
        split; [reflexivity | exact Hbal].
    + destruct (Ascii.eqb c ")") eqn:E2.
      * change ((-1 =? -1)%Z) with true in H. cbn [negb] in H.
        rewrite andb_false_r in H.
        assert (Hi1 : (0 <= i + 1)%Z) by lia.
        destruct (IH _ _ _ _ Hi1 H Hst Hen)
          as (pre & body & post & -> & -> & -> & Hbal).
        exists (c :: pre), body, post.
        split; [reflexivity|]. split; [rewrite length_cons; lia|].
        split; [reflexivity | exact Hbal].
      * assert (Hi1 : (0 <= i + 1)%Z) by lia.
        destruct (IH _ _ _ _ Hi1 H Hst Hen)
          as (pre & body & post & -> & -> & -> & Hbal).
        exists (c :: pre), body, post.
        split; [reflexivity|]. split; [rewrite length_cons; lia|].
        split; [reflexivity | exact Hbal].
Qed.


Lemma slice_middle (pre body post : text) :
  slice (pre ++ body ++ post) (Z.of_nat (length pre))
    (Z.of_nat (length pre) + Z.of_nat (length body)) = body.
Proof.
  unfold slice, norm_idx. rewrite !length_app.
  replace (Z.of_nat (length pre) <? 0)%Z with false by (symmetry; apply Z.ltb_ge; lia).
  replace (Z.of_nat (length pre) + Z.of_nat (length body) <? 0)%Z with false
    by (symmetry; apply Z.ltb_ge; lia).
  rewrite !Z.min_l by lia.
  replace (Z.of_nat (length pre) + Z.of_nat (length body) - Z.of_nat (length pre))%Z
    with (Z.of_nat (length body)) by lia.
  rewrite !Nat2Z.id, skipn_app, skipn_all, Nat.sub_diag. cbn [skipn app].
  rewrite firstn_app, firstn_all, Nat.sub_diag. cbn [firstn]. apply app_nil_r.
Qed.

(** X2: when the scan of [_parse_single_table] finds both bounds, they
    delimit a balanced span: [start_idx] is just after an opening
    parenthesis, [end_idx] is at a closing one, and the text between them,
    which becomes [columns_raw], closes every parenthesis it opens and never
    closes one it has not opened. *)
Theorem scan_body_finds_balanced_span (table_content : text) (start_idx end_idx : Z) :
  scan_body table_content 0 0 (-1) = (start_idx, end_idx) ->
  start_idx <> (-1)%Z -> end_idx <> (-1)%Z ->
  exists pre body post,
    table_content = pre ++ "("%char :: body ++ ")"%char :: post /\
    start_idx = (Z.of_nat (length pre) + 1)%Z /\
    end_idx = (start_idx + Z.of_nat (length body))%Z /\
    balanced body /\
    slice table_content start_idx end_idx = body.
Proof.
  intros H Hs He.
  destruct (scan_body_opening _ _ _ _ _ (Z.le_refl 0) H Hs He)
    as (pre & body & post & -> & -> & -> & Hbal).
  exists pre, body, post.
  split; [reflexivity|]. split; [lia|]. split; [reflexivity|]. split; [exact Hbal|].
  change (pre ++ "("%char :: body ++ ")"%char :: post)
    with (pre ++ ["("%char] ++ body ++ ")"%char :: post).
  rewrite app_assoc.
  pose proof (slice_middle (pre ++ ["("%char]) body (")"%char :: post)) as Hsl.
  rewrite length_app in Hsl. cbn [length] in Hsl.
  replace (0 + Z.of_nat (length pre) + 1)%Z with (Z.of_nat (length pre + 1)) by lia.
  exact Hsl.
Qed.

Lemma scan_body_finds_balanced_span_witness :
  exists pre body post,
    str "t ( a int, b decimal(10,2) ) x" = pre ++ "("%char :: body ++ ")"%char :: post /\
    3%Z = (Z.of_nat (length pre) + 1)%Z /\
    27%Z = (3 + Z.of_nat (length body))%Z /\
    balanced body /\
    slice "t ( a int, b decimal(10,2) ) x" 3 27 = body.
Proof.
  apply (scan_body_finds_balanced_span "t ( a int, b decimal(10,2) ) x" 3 27).
  - vm_compute. reflexivity.
  - discriminate.
  - discriminate.
Defined.

Lemma scan_body_closes (body : text) : forall i d start post,
  start <> (-1)%Z ->
  (d + depth body = 1)%Z ->
  (forall n, (1 <= d + depth (firstn n body))%Z) ->
  scan_body (body ++ ")"%char :: post) i d start =
  (start, (i + Z.of_nat (length body))%Z).
Proof.
  induction body as [|c body IH]; intros i d start post Hs Hb Hp.
  - cbn [depth] in Hb. assert (d = 1%Z) by lia. subst d.
    cbn [app scan_body length]. change (Ascii.eqb ")" "(") with false.
    change (Ascii.eqb ")" ")") with true. cbv iota.
    apply Z.eqb_neq in Hs. rewrite Hs. cbn. f_equal. lia.
  - cbn [app scan_body]. cbn [depth] in Hb.
    assert (Hs' : (start =? -1)%Z = false) by (apply Z.eqb_neq; exact Hs).
    assert (Hp' : forall n, (1 <= d + paren_step c + depth (firstn n body))%Z).
    { intros n. specialize (Hp (S n)). rewrite depth_firstn_cons in Hp. lia. }
    assert (H1 : (1 <= d + paren_step c)%Z).
    { specialize (Hp' 0%nat). cbn [firstn depth] in Hp'. lia. }
    rewrite length_cons.
    destruct (Ascii.eqb c "(") eqn:E1.
    + assert (Hc : paren_step c = 1%Z) by (unfold paren_step; rewrite E1; reflexivity).
      rewrite Hs', andb_false_r. rewrite Hc in *.
      rewrite IH
          by first [assumption | lia | intros n; specialize (Hp' n); lia].
        f_equal. lia.
    + destruct (Ascii.eqb c ")") eqn:E2.
      * assert (Hc : paren_step c = (-1)%Z)
          by (unfold paren_step; rewrite E1, E2; reflexivity).
        rewrite Hc in *.
        replace (d - 1 =? 0)%Z with false by (symmetry; apply Z.eqb_neq; lia).
        cbn [andb]. rewrite IH
          by first [assumption | lia | intros n; specialize (Hp' n); lia].
        f_equal. lia.
      * assert (Hc : paren_step c = 0%Z)
          by (unfold paren_step; rewrite E1, E2; reflexivity).
        rewrite Hc in *.
        rewrite IH
          by first [assumption | lia | intros n; specialize (Hp' n); lia].
        f_equal. lia.
Qed.

(** X3: in a fragment whose text before the first parenthesis holds no
    parenthesis and whose column list is balanced, the scan finds exactly
    that column list; and when the table-name patterns find a name in the
    fragment, [_parse_single_table] returns the table of that name with the
    columns parsed from that list (after the constraint clauses are
    removed). *)
Theorem balanced_column_list_is_found (pre body post : text)
    (schema_name : option text) (table_name : text) :
  no_paren pre -> balanced body ->
  table_name_of (pre ++ "("%char :: body ++ ")"%char :: post) =
    Ok (Some (schema_name, table_name)) ->
  scan_body (pre ++ "("%char :: body ++ ")"%char :: post) 0 0 (-1) =
    ((Z.of_nat (length pre) + 1)%Z,
     (Z.of_nat (length pre) + 1 + Z.of_nat (length body))%Z) /\
  _parse_single_table (pre ++ "("%char :: body ++ ")"%char :: post) =
    Ok (Some (Table schema_name table_name
                (flat_map columns_of_line
                   (_smart_split (re_sub re_constraint [] body))))).
Proof.
  intros Hpre [Hb Hp] Hname.
  assert (Hscan : scan_body (pre ++ "("%char :: body ++ ")"%char :: post) 0 0 (-1) =
                  ((Z.of_nat (length pre) + 1)%Z,
                   (Z.of_nat (length pre) + 1 + Z.of_nat (length body))%Z)).
  { rewrite scan_body_no_paren by exact Hpre.
    cbn [scan_body]. change (Ascii.eqb "(" "(") with true. cbv iota.
    change ((0 =? 0)%Z && (-1 =? -1)%Z) with true. cbv iota.
    rewrite scan_body_closes.
    - f_equal; lia.
    - lia.
    - lia.
    - intros n. specialize (Hp n). lia. }
  split; [exact Hscan|].
  unfold _parse_single_table. rewrite Hname. cbn [bind]. rewrite Hscan.
  replace (Z.of_nat (length pre) + 1 =? -1)%Z with false
    by (symmetry; apply Z.eqb_neq; lia).
  replace (Z.of_nat (length pre) + 1 + Z.of_nat (length body) =? -1)%Z with false
    by (symmetry; apply Z.eqb_neq; lia).
  cbn [orb].
  assert (Hsl : slice (pre ++ "("%char :: body ++ ")"%char :: post)
                  (Z.of_nat (length pre) + 1)
                  (Z.of_nat (length pre) + 1 + Z.of_nat (length body)) = body).
  { change (pre ++ "("%char :: body ++ ")"%char :: post)
      with (pre ++ ["("%char] ++ body ++ ")"%char :: post).
    rewrite app_assoc.
    pose proof (slice_middle (pre ++ ["("%char]) body (")"%char :: post)) as Hsl.
    rewrite length_app in Hsl. cbn [length] in Hsl.
    replace (Z.of_nat (length pre) + 1)%Z with (Z.of_nat (length pre + 1)) by lia.
    exact Hsl. }
  rewrite Hsl, parse_columns_spec. reflexivity.
Qed.

Lemma balanced_column_list_is_found_witness :
  scan_body (str "[t] " ++ "("%char :: str "[a] int, [b] decimal(10,2)" ++ ")"%char :: str " ON x")
    0 0 (-1) = ((Z.of_nat 4 + 1)%Z, (Z.of_nat 4 + 1 + Z.of_nat 26)%Z) /\
  _parse_single_table
    (str "[t] " ++ "("%char :: str "[a] int, [b] decimal(10,2)" ++ ")"%char :: str " ON x") =
    Ok (Some (Table None "t"
                (flat_map columns_of_line
                   (_smart_split (re_sub re_constraint [] "[a] int, [b] decimal(10,2)"))))).
Proof.
  apply (balanced_column_list_is_found (str "[t] ") (str "[a] int, [b] decimal(10,2)")
           (str " ON x") None (str "t")).
  - intros c Hc. repeat (destruct Hc as [<-|Hc]; [split; discriminate|]). destruct Hc.
  - split; [reflexivity|].
    intros n. do 27 (destruct n as [|n]; [vm_compute; discriminate|]).
    vm_compute. discriminate.
  - vm_compute. reflexivity.
Defined.

(** ** Bracketed names *)

Lemma run_opt_chr_hit (p : ascii -> bool) (c : ascii) (sn t : text)
    (cps : list (nat * text)) (k : mstate -> option mstate) (res : mstate) :
  p c = true ->
  k (MState (c :: sn) t cps) = Some res ->
  run (Opt (Chr p)) (MState sn (c :: t) cps) k = Some res.
Proof. intros Hc Hk. apply run_opt_hit. rewrite run_chr_hit by exact Hc. exact Hk. Qed.

Lemma star_greedy_none {R : Type} (p : ascii -> bool) (rs : text) :
  forall (sn : text) (k : text -> text -> option R),
    (forall x y, rs = x ++ y -> forallb p x = true -> k (rev x ++ sn) y = None) ->
    star_greedy p sn rs k = None.
Proof.
  induction rs as [|c t IH]; intros sn k H.
  - cbn [star_greedy]. apply (H [] []); reflexivity.
  - cbn [star_greedy]. destruct (p c) eqn:Hc.
    + rewrite IH.
      * apply (H [] (c :: t)); reflexivity.
      * intros x y Hxy Hx. specialize (H (c :: x) y).
        cbn [rev] in H. rewrite <- app_assoc in H. apply H.
        -- rewrite Hxy. reflexivity.
        -- cbn [forallb]. rewrite Hc, Hx. reflexivity.
    + apply (H [] (c :: t)); reflexivity.
Qed.

(** A run of a class inside a text that then leaves the class: the run is
    a prefix of the part in the class. *)
Lemma class_prefix (p : ascii -> bool) (x : text) : forall y a c w,
  x ++ y = a ++ c :: w -> forallb p x = true -> p c = false ->
  exists y', a = x ++ y' /\ y = y' ++ c :: w.
Proof.
  induction x as [|x0 x IH]; intros y a c w H Hx Hc.
  - exists a. split; [reflexivity | exact H].
  - cbn [forallb] in Hx. apply andb_true_iff in Hx as [Hx0 Hx].
    destruct a as [|a0 a].
    + cbn [app] in H. injection H as -> _. congruence.
    + cbn [app] in H. injection H as -> H.
      destruct (IH _ _ _ _ H Hx Hc) as (y' & -> & ->).
      exists y'. split; reflexivity.
Qed.

(** The bracketed part of a name pattern: an opening bracket, the name, a
    closing bracket. *)
Lemma run_bracketed (n : nat) (x rest' sn : text) (cps : list (nat * text))
    (rs : list re) (k : mstate -> option mstate) (res : mstate) :
  x <> [] -> forallb (none_of "[]") x = true ->
  run (seqs rs) (MState ("]"%char :: rev x ++ "["%char :: sn) rest' ((n, x) :: cps)) k
    = Some res ->
  run (seqs (Opt (Chr (only "[")) :: Grp n (Plus (none_of "[]")) ::
             Opt (Chr (only "]")) :: rs))
    (MState sn ("["%char :: x ++ "]"%char :: rest') cps) k = Some res.
Proof.
  intros Hx Hnb Hk.
  destruct x as [|x0 x]; [contradiction|].
  cbn [forallb] in Hnb. apply andb_true_iff in Hnb as [Hx0 Hnb].
  rewrite seqs_cons, run_seq. apply run_opt_chr_hit; [reflexivity|].
  rewrite seqs_cons, run_seq, run_grp. unfold Plus at 1.
  cbn [app]. rewrite run_seq, run_chr_hit by exact Hx0.
  apply (run_star_pick (none_of "[]") x ("]"%char :: rest')); [exact Hnb | reflexivity|].
  cbn [seen rest caps]. rewrite passed_rev_cons.
  rewrite seqs_cons, run_seq. apply run_opt_chr_hit; [reflexivity|].
  cbn [rev] in Hk. rewrite <- app_assoc in Hk. exact Hk.
Qed.

Lemma spaces_then (ws rest' : text) (c : ascii) (p : ascii -> bool) :
  forallb is_space ws = true -> p c = false ->
  (forall x, is_space x = true -> p x = false) ->
  match ws ++ c :: rest' with x :: _ => p x = false | [] => True end.
Proof.
  intros Hws Hc Hp. destruct ws as [|w ws]; [exact Hc|].
  cbn [forallb] in Hws. apply andb_true_iff in Hws as [Hw _].
  apply Hp. exact Hw.
Qed.

Lemma table_name_schema_bracketed (s t ws rest' : text) :
  s <> [] -> forallb (none_of "[]") s = true ->
  t <> [] -> forallb (none_of "[]") t = true ->
  forallb is_space ws = true ->
  table_name_of ("[" ++ s ++ "].[" ++ t ++ "]" ++ ws ++ "(" ++ rest') =
  Ok (Some (Some s, t)).
Proof.
  intros Hs Hsb Ht Htb Hws.
  assert (Hm : exists sn', re_match re_schema_table
                 ("[" ++ s ++ "].[" ++ t ++ "]" ++ ws ++ "(" ++ rest') =
               Some (MState sn' rest' [(2%nat, t); (1%nat, s)])).
  { eexists. unfold re_match, re_schema_table.
    change (str "[" ++ s ++ str "].[" ++ t ++ str "]" ++ ws ++ str "(" ++ rest')
      with ("["%char :: s ++ "]"%char ::
            ("."%char :: "["%char :: t ++ "]"%char :: ws ++ "("%char :: rest')).
    apply run_bracketed; [exact Hs | exact Hsb|].
    rewrite seqs_cons, run_seq, run_chr_hit by reflexivity.
    apply run_bracketed; [exact Ht | exact Htb|].
    rewrite seqs_cons, run_seq.
    apply (run_star_pick space ws ("("%char :: rest')); [exact Hws | reflexivity|].
    rewrite seqs_cons, run_seq, run_chr_hit by reflexivity.
    reflexivity. }
  destruct Hm as (sn' & Hm). unfold table_name_of. rewrite Hm. reflexivity.
Qed.

Lemma run_opt_none (r : re) (st : mstate) (k : mstate -> option mstate) :
  run r st k = None -> k st = None -> run (Opt r) st k = None.
Proof. intros H1 H2. cbn [run]. rewrite H1. exact H2. Qed.

Lemma none_of_dot_facts (c : ascii) :
  none_of "[]." c = true ->
  none_of "[]" c = true /\ only "]" c = false /\ only "." c = false.
Proof. intros H. repeat split; revert H; by_cases_on_char c. Qed.

Lemma space_not_dot (c : ascii) : is_space c = true -> only "." c = false.
Proof. by_cases_on_char c. Qed.

(** The pattern with a schema does not match a single bracketed name that
    holds no dot. *)
Lemma re_schema_table_single (t ws rest' : text) :
  t <> [] -> forallb (none_of "[].") t = true -> forallb is_space ws = true ->
  re_match re_schema_table ("["%char :: t ++ "]"%char :: ws ++ "("%char :: rest') = None.
Proof.
  intros Ht Htb Hws. unfold re_match, re_schema_table.
  destruct t as [|t0 t]; [contradiction|].
  cbn [forallb] in Htb. apply andb_true_iff in Htb as [Ht0 Htb].
  destruct (none_of_dot_facts t0 Ht0) as (Hnb0 & _ & _).
  rewrite seqs_cons, run_seq. apply run_opt_none.
  - rewrite run_chr_hit by reflexivity.
    rewrite seqs_cons, run_seq, run_grp. unfold Plus at 1.
    cbn [app]. rewrite run_seq, run_chr_hit by exact Hnb0.
    cbn [run seen rest caps]. apply star_greedy_none.
    intros x y Hxy Hx.
    symmetry in Hxy.
    destruct (class_prefix (none_of "[]") x y t "]"%char (ws ++ "("%char :: rest')
                Hxy Hx eq_refl) as (y' & Hty & ->).
    rewrite seqs_cons, run_seq. apply run_opt_none.
    + destruct y' as [|c y'].
      * cbn [app]. rewrite run_chr_hit by reflexivity.
        rewrite seqs_cons, run_seq. apply run_chr_miss.
        apply spaces_then; [exact Hws | reflexivity | exact space_not_dot].
      * apply run_chr_miss. cbn [app].
        assert (Hc : none_of "[]." c = true).
        { rewrite Hty, forallb_app in Htb. apply andb_true_iff in Htb as [_ Htb].
          cbn [forallb] in Htb. apply andb_true_iff in Htb as [Hc _]. exact Hc. }
        apply none_of_dot_facts in Hc. apply Hc.
    + rewrite seqs_cons, run_seq. apply run_chr_miss.
      destruct y' as [|c y']; [reflexivity|]. cbn [app].
      assert (Hc : none_of "[]." c = true).
      { rewrite Hty, forallb_app in Htb. apply andb_true_iff in Htb as [_ Htb].
        cbn [forallb] in Htb. apply andb_true_iff in Htb as [Hc _]. exact Hc. }
      apply none_of_dot_facts in Hc. apply Hc.
  - rewrite seqs_cons, run_seq, run_grp. unfold Plus at 1.
    rewrite run_seq. apply run_chr_miss. reflexivity.
Qed.

Lemma table_name_bracketed (t ws rest' : text) :
  t <> [] -> forallb (none_of "[].") t = true -> forallb is_space ws = true ->
  table_name_of ("[" ++ t ++ "]" ++ ws ++ "(" ++ rest') = Ok (Some (None, t)).
Proof.
  intros Ht Htb Hws.
  assert (Hnb : forallb (none_of "[]") t = true).
  { revert Htb. apply forallb_impl_in. intros c Hc. apply none_of_dot_facts, Hc. }
  change (str "[" ++ t ++ str "]" ++ ws ++ str "(" ++ rest')
    with ("["%char :: t ++ "]"%char :: ws ++ "("%char :: rest').
  unfold table_name_of. rewrite re_schema_table_single by assumption.
  assert (Hm : exists sn', re_match re_table
                 ("["%char :: t ++ "]"%char :: ws ++ "("%char :: rest') =
               Some (MState sn' rest' [(1%nat, t)])).
  { eexists. unfold re_match, re_table.
    apply run_bracketed; [exact Ht | exact Hnb|].
    rewrite seqs_cons, run_seq.
    apply (run_star_pick space ws ("("%char :: rest')); [exact Hws | reflexivity|].
    rewrite seqs_cons, run_seq, run_chr_hit by reflexivity.
    reflexivity. }
  destruct Hm as (sn' & Hm). rewrite Hm. reflexivity.
Qed.

(** X4: bracketed table names are read as written.  [schema].[table],
    then optional whitespace and the opening parenthesis, gives that schema
    and that table name, whatever characters other than brackets they hold;
    a single [table] without a dot gives that name and no schema. *)
Theorem bracketed_table_names (s t ws rest' : text) :
  t <> [] -> forallb is_space ws = true ->
  (s <> [] -> forallb (none_of "[]") s = true -> forallb (none_of "[]") t = true ->
   table_name_of ("[" ++ s ++ "].[" ++ t ++ "]" ++ ws ++ "(" ++ rest') =
   Ok (Some (Some s, t))) /\
  (forallb (none_of "[].") t = true ->
   table_name_of ("[" ++ t ++ "]" ++ ws ++ "(" ++ rest') = Ok (Some (None, t))).
Proof.
  intros Ht Hws. split.
  - intros Hs Hsb Htb. apply table_name_schema_bracketed; assumption.
  - intros Htb. apply table_name_bracketed; assumption.
Qed.

Lemma bracketed_table_names_witness :
  table_name_of ("[" ++ "my schema" ++ "].[" ++ "Order Lines" ++ "]" ++ " " ++ "(" ++ "[a] int)") =
    Ok (Some (Some (str "my schema"), str "Order Lines")) /\
  table_name_of ("[" ++ "Order Lines" ++ "]" ++ " " ++ "(" ++ "[a] int)") =
    Ok (Some (None, str "Order Lines")).
Proof.
  destruct (bracketed_table_names (str "my schema") (str "Order Lines") (str " ")
              (str "[a] int)")) as [H1 H2]; [discriminate | reflexivity|].
  split; [apply H1; (discriminate || reflexivity) | apply H2; reflexivity].
Defined.

(** ** Column lines with a bracketed name *)

Lemma last_app_nonempty {A : Type} (a b : list A) (d : A) :
  b <> [] -> last (a ++ b) d = last b d.
Proof.
  intros Hb. induction a as [|x a IH]; [reflexivity|].
  cbn [app last]. destruct (a ++ b) eqn:E.
  - apply app_eq_nil in E as [_ E]. contradiction.
  - exact IH.
Qed.

Lemma strip_fixed (s : text) :
  s <> [] -> is_space (hd " "%char s) = false -> is_space (last s " "%char) = false ->
  strip s = s.
Proof.
  intros Hs Hh Hl. unfold strip.
  rewrite (app_removelast_last " "%char Hs) at 1.
  rewrite (rstrip_keep (removelast s) (last s " "%char) [] Hl).
  change (rstrip []) with (@nil ascii).
  rewrite <- (app_removelast_last " "%char Hs).
  destruct s as [|c s]; [contradiction|]. cbn [hd] in Hh.
  cbn [lstrip]. rewrite Hh. reflexivity.
Qed.

Lemma re_skip_bracket (r : text) : re_match re_skip ("["%char :: r) = None.
Proof.
  rewrite re_skip_unfold, star_greedy_stop by reflexivity.
  apply run_alts_none; [discriminate|].
  intros x Hx. apply in_map_iff in Hx as (kw & <- & Hin).
  rewrite run_lit_ci.
  repeat (destruct Hin as [<-|Hin]; [reflexivity|]). destruct Hin.
Qed.

Lemma no_equals_app (a b : text) : no_equals a -> no_equals b -> no_equals (a ++ b).
Proof. unfold no_equals. intros Ha Hb. rewrite forallb_app, Ha, Hb. reflexivity. Qed.

Lemma letters_no_equals (ty : text) : forallb letter_ ty = true -> no_equals ty.
Proof.
  unfold no_equals. apply forallb_impl_in. intros c. by_cases_on_char c.
Qed.

Lemma letter_facts (c : ascii) :
  letter_ c = true ->
  is_space c = false /\ only "[" c = false /\ only "]" c = false /\ dot c = true.
Proof. intros H. repeat split; revert H; by_cases_on_char c. Qed.

(** The end of the column pattern on what follows the type and the params. *)
Lemma column_end_mods (sn : text) (mods : option text) (cps : list (nat * text)) :
  modifiers_ok mods ->
  exists sn',
    run (seqs [Opt (Chr (only "]")); Star space; Grp 4 (Star dot)])
      (MState sn (tail_text mods) cps) Some =
    Some (MState sn' [] ((4%nat, mods_text mods) :: cps)).
Proof.
  intros Hm. destruct mods as [m|].
  - destruct Hm as (Hne & Hdot & _ & Hhd & _). eexists.
    cbn [tail_text mods_text].
    change (str " " ++ m) with (" "%char :: m).
    rewrite seqs_cons, run_seq, run_opt_miss by (apply run_chr_miss; reflexivity).
    rewrite seqs_cons, run_seq.
    apply (run_star_pick space [" "%char] m); [reflexivity| |].
    { destruct m; [contradiction | exact Hhd]. }
    rewrite seqs_cons, run_seq, run_grp.
    rewrite <- (app_nil_r m) at 1.
    apply (run_star_pick dot m []); [exact Hdot | exact I|].
    cbn [seen rest caps seqs fold_right run]. rewrite passed_rev. reflexivity.
  - eexists. cbn [tail_text mods_text]. apply column_end_ok.
Qed.

Lemma column_args_hit (sn p r : text) (cps : list (nat * text))
    (k : mstate -> option mstate) (res : mstate) :
  p <> [] -> forallb (none_of ")") p = true ->
  k (MState (")"%char :: rev p ++ "("%char :: sn) r ((3%nat, p) :: cps)) = Some res ->
  run (Opt (seqs [Chr (only "("); Grp 3 (Plus (none_of ")")); Chr (only ")")]))
    (MState sn ("("%char :: p ++ ")"%char :: r) cps) k = Some res.
Proof.
  intros Hp Hnp Hk.
  destruct p as [|p0 p]; [contradiction|].
  cbn [forallb] in Hnp. apply andb_true_iff in Hnp as [Hp0 Hnp].
  apply run_opt_hit.
  rewrite seqs_cons, run_seq, run_chr_hit by reflexivity.
  rewrite seqs_cons, run_seq, run_grp. unfold Plus at 1.
  cbn [app]. rewrite run_seq, run_chr_hit by exact Hp0.
  apply (run_star_pick (none_of ")") p (")"%char :: r)); [exact Hnp | reflexivity |].
  cbn [seen rest caps]. rewrite passed_rev_cons.
  rewrite seqs_cons, run_seq, run_chr_hit by reflexivity.
  cbn [seqs fold_right run].
  cbn [rev] in Hk. rewrite <- app_assoc in Hk. exact Hk.
Qed.

Lemma re_column_bracketed_name (nm ty : text) (args mods : option text) :
  nm <> [] -> forallb (none_of "[]") nm = true ->
  ty <> [] -> forallb letter_ ty = true ->
  params_ok args -> modifiers_ok mods ->
  exists sn',
    re_match re_column
      ("["%char :: nm ++ "]"%char :: " "%char :: ty ++ args_text args ++ tail_text mods) =
    Some (MState sn' []
            ((4%nat, mods_text mods)
             :: match args with Some p => [(3%nat, p)] | None => [] end
             ++ [(2%nat, ty); (1%nat, nm)])).
Proof.
  intros Hnm Hnb Hty Hlet Hargs Hmods.
  destruct ty as [|t0 ty]; [contradiction|].
  cbn [forallb] in Hlet. apply andb_true_iff in Hlet as [Ht0 Hlet].
  destruct (letter_facts t0 Ht0) as (Hs0 & Hb0 & _ & _).
  assert (Hstop : match args_text args ++ tail_text mods with
                  | c :: _ => letter_ c = false
                  | [] => True
                  end).
  { destruct args as [p|]; [reflexivity|].
    destruct mods as [m|]; [reflexivity | exact I]. }
  destruct args as [p|].
  - destruct Hargs as (Hp & Hnp & _ & _).
    assert (Heq : args_text (Some p) ++ tail_text mods =
                  "("%char :: p ++ ")"%char :: tail_text mods).
    { unfold args_text. change (str "(" ++ p ++ str ")") with ("("%char :: p ++ [")"%char]).
      rewrite <- app_comm_cons, <- app_assoc. reflexivity. }
    rewrite Heq in *.
    destruct (column_end_mods (")"%char :: rev p ++ "("%char :: rev ty ++ t0 :: " "%char ::
                               "]"%char :: rev nm ++ ["["%char])
                mods [(3%nat, p); (2%nat, t0 :: ty); (1%nat, nm)] Hmods) as (sn' & Hend).
    exists sn'. unfold re_match, re_column.
    apply run_bracketed; [exact Hnm | exact Hnb|].
    rewrite seqs_cons, run_seq. unfold Plus at 1.
    rewrite run_seq, run_chr_hit by reflexivity.
    apply (run_star_pick space [] ((t0 :: ty) ++ "("%char :: p ++ ")"%char :: tail_text mods));
      [reflexivity | exact Hs0|].
    cbn [rev app].
    rewrite seqs_cons, run_seq, run_opt_miss by (apply run_chr_miss; exact Hb0).
    rewrite seqs_cons, run_seq, run_grp. unfold Plus at 1.
    rewrite run_seq, run_chr_hit by exact Ht0.
    apply (run_star_pick letter_ ty ("("%char :: p ++ ")"%char :: tail_text mods));
      [exact Hlet | exact Hstop|].
    cbn [seen rest caps]. rewrite passed_rev_cons.
    rewrite seqs_cons, run_seq.
    apply column_args_hit; [exact Hp | exact Hnp|].
    exact Hend.
  - destruct (column_end_mods (rev ty ++ t0 :: " "%char ::
                               "]"%char :: rev nm ++ ["["%char])
                mods [(2%nat, t0 :: ty); (1%nat, nm)] Hmods) as (sn' & Hend).
    exists sn'. unfold re_match, re_column.
    apply run_bracketed; [exact Hnm | exact Hnb|].
    rewrite seqs_cons, run_seq. unfold Plus at 1.
    rewrite run_seq, run_chr_hit by reflexivity.
    apply (run_star_pick space [] ((t0 :: ty) ++ args_text None ++ tail_text mods));
      [reflexivity | exact Hs0|].
    cbn [rev app].
    rewrite seqs_cons, run_seq, run_opt_miss by (apply run_chr_miss; exact Hb0).
    rewrite seqs_cons, run_seq, run_grp. unfold Plus at 1.
    rewrite run_seq, run_chr_hit by exact Ht0.
    apply (run_star_pick letter_ ty (args_text None ++ tail_text mods));
      [exact Hlet | exact Hstop|].
    cbn [seen rest caps]. rewrite passed_rev_cons.
    rewrite seqs_cons, run_seq.
    cbn [args_text app].
    rewrite run_opt_miss.
    + exact Hend.
    + rewrite seqs_cons, run_seq. apply run_chr_miss.
      destruct mods as [m|]; [reflexivity | exact I].
Qed.

Lemma forallb_last {A : Type} (p : A -> bool) (l : list A) (d : A) :
  l <> [] -> forallb p l = true -> p (last l d) = true.
Proof.
  intros Hl H. rewrite forallb_forall in H. apply H.
  rewrite (app_removelast_last d Hl) at 2. apply in_or_app. right. left. reflexivity.
Qed.

Lemma column_rest_last (ty : text) (args mods : option text) :
  ty <> [] -> forallb letter_ ty = true -> modifiers_ok mods ->
  is_space (last (ty ++ args_text args ++ tail_text mods) " "%char) = false.
Proof.
  intros Hty Hlet Hmods. destruct mods as [m|].
  - destruct Hmods as (Hm & _ & _ & _ & Hl).
    cbn [tail_text]. rewrite !app_assoc. rewrite last_app_nonempty by exact Hm. exact Hl.
  - cbn [tail_text]. rewrite app_nil_r. destruct args as [p|].
    + unfold args_text. rewrite !app_assoc.
      rewrite last_app_nonempty by discriminate. reflexivity.
    + cbn [args_text]. rewrite app_nil_r.
      apply letter_facts, forallb_last; assumption.
Qed.

Lemma column_rest_no_equals (ty : text) (args mods : option text) :
  forallb letter_ ty = true -> params_ok args -> modifiers_ok mods ->
  no_equals (ty ++ args_text args ++ tail_text mods).
Proof.
  intros Hlet Hargs Hmods.
  apply no_equals_app; [apply letters_no_equals; exact Hlet|].
  apply no_equals_app.
  - destruct args as [p|]; [|reflexivity].
    destruct Hargs as (_ & _ & _ & Hp). unfold args_text.
    apply (no_equals_app (str "(")); [reflexivity|].
    apply no_equals_app; [exact Hp | reflexivity].
  - destruct mods as [m|]; [|reflexivity].
    destruct Hmods as (_ & _ & Hm & _). cbn [tail_text].
    apply (no_equals_app (str " ")); [reflexivity | exact Hm].
Qed.

(** X5: a column line with a bracketed name, on one line and without an
    equals sign, is read as written.  The text between the brackets is the
    name, whatever it holds besides brackets; the letters after it are the
    type, lower-cased; parenthesized text right after the type is the
    params; and the column is nullable unless the modifiers hold NOT
    NULL. *)
Theorem bracketed_column_line (nm ty : text) (args mods : option text) :
  nm <> [] -> forallb (none_of "[]") nm = true -> no_equals nm ->
  ty <> [] -> forallb letter_ ty = true ->
  params_ok args -> modifiers_ok mods ->
  parse_column_line ("[" ++ nm ++ "] " ++ ty ++ args_text args ++ tail_text mods) =
  Ok (Some (Column nm (lower ty) args
              (negb (contains "NOT NULL" (upper (mods_text mods)))))).
Proof.
  intros Hnm Hnb Hne Hty Hlet Hargs Hmods.
  change (str "[" ++ nm ++ str "] " ++ ty ++ args_text args ++ tail_text mods)
    with ("["%char :: nm ++ "]"%char :: " "%char :: ty ++ args_text args ++ tail_text mods).
  set (R := ty ++ args_text args ++ tail_text mods).
  assert (HR : R <> []).
  { unfold R. intros E. apply app_eq_nil in E as [E _]. contradiction. }
  assert (Hstrip : strip ("["%char :: nm ++ "]"%char :: " "%char :: R) =
                   "["%char :: nm ++ "]"%char :: " "%char :: R).
  { apply strip_fixed; [discriminate | reflexivity|].
    change ("["%char :: nm ++ "]"%char :: " "%char :: R)
      with (("["%char :: nm) ++ ["]"%char; " "%char] ++ R).
    rewrite !app_assoc, last_app_nonempty by exact HR.
    apply column_rest_last; assumption. }
  assert (Heq : contains "=" ("["%char :: nm ++ "]"%char :: " "%char :: R) = false).
  { apply (contains_char_false "=").
    change ("["%char :: nm ++ "]"%char :: " "%char :: R)
      with (str "[" ++ nm ++ str "] " ++ R).
    apply no_equals_app; [reflexivity|].
    apply no_equals_app; [exact Hne|].
    apply no_equals_app; [reflexivity|].
    apply column_rest_no_equals; assumption. }
  destruct (re_column_bracketed_name nm ty args mods Hnm Hnb Hty Hlet Hargs Hmods)
    as (sn' & Hm). fold R in Hm.
  unfold parse_column_line. rewrite Hstrip.
  cbn [truthy negb]. rewrite re_skip_bracket, Heq. cbn [andb]. rewrite Hm.
  assert (Hmt : (if truthy_opt (Some (mods_text mods)) then mods_text mods else [])
                = mods_text mods).
  { destruct (mods_text mods); reflexivity. }
  destruct args as [p|].
  - cbn [group_str group caps assoc Nat.eqb app bind].
    cbn [group caps assoc Nat.eqb] in Hmt |- *. rewrite Hmt. reflexivity.
  - cbn [group_str group caps assoc Nat.eqb app bind].
    cbn [group caps assoc Nat.eqb] in Hmt |- *. rewrite Hmt. reflexivity.
Qed.

Lemma bracketed_column_line_witness :
  parse_column_line
    ("[" ++ "Unit Price" ++ "] " ++ "Decimal" ++ args_text (Some (str "10, 2"))
         ++ tail_text (Some (str "IDENTITY(1,1) not null"))) =
  Ok (Some (Column "Unit Price" (lower "Decimal") (Some (str "10, 2"))
              (negb (contains "NOT NULL"
                       (upper (mods_text (Some (str "IDENTITY(1,1) not null")))))))).
Proof.
  apply (bracketed_column_line (str "Unit Price") (str "Decimal")
           (Some (str "10, 2")) (Some (str "IDENTITY(1,1) not null")));
    try reflexivity; try discriminate.
  - repeat split; (reflexivity || discriminate).
  - repeat split; (reflexivity || discriminate).
Defined.

(** ** Column lines with a bracketed type *)

Lemma column_end_after (sn : text) (args mods : option text) (cps : list (nat * text)) :
  params_ok args -> modifiers_ok mods ->
  exists sn',
    run (seqs [Star space; Grp 4 (Star dot)])
      (MState sn (args_text args ++ tail_text mods) cps) Some =
    Some (MState sn' [] ((4%nat, bracketed_type_modifiers args mods) :: cps)).
Proof.
  intros Hargs Hmods. destruct args as [p|].
  - destruct Hargs as (_ & _ & Hdp & _).
    assert (Hdot : forallb dot (args_text (Some p) ++ tail_text mods) = true).
    { unfold args_text. rewrite !forallb_app, Hdp. cbn [forallb str list_ascii_of_string].
      destruct mods as [m|]; [|reflexivity].
      destruct Hmods as (_ & Hdm & _). cbn [tail_text].
      rewrite forallb_app, Hdm. reflexivity. }
    assert (Heq : args_text (Some p) ++ tail_text mods =
                  bracketed_type_modifiers (Some p) mods).
    { unfold args_text, bracketed_type_modifiers. rewrite <- !app_assoc. reflexivity. }
    rewrite Heq in *. eexists.
    rewrite seqs_cons, run_seq.
    apply (run_star_pick space [] (bracketed_type_modifiers (Some p) mods));
      [reflexivity | reflexivity|].
    rewrite seqs_cons, run_seq, run_grp.
    rewrite <- (app_nil_r (bracketed_type_modifiers (Some p) mods)) at 1.
    apply (run_star_pick dot (bracketed_type_modifiers (Some p) mods) []);
      [exact Hdot | exact I|].
    cbn [seen rest caps seqs fold_right run]. rewrite passed_rev. reflexivity.
  - cbn [args_text app bracketed_type_modifiers]. destruct mods as [m|].
    + destruct Hmods as (Hne & Hdot & _ & Hhd & _). eexists.
      cbn [tail_text mods_text]. change (str " " ++ m) with (" "%char :: m).
      rewrite seqs_cons, run_seq.
      apply (run_star_pick space [" "%char] m); [reflexivity| |].
      { destruct m; [contradiction | exact Hhd]. }
      rewrite seqs_cons, run_seq, run_grp.
      rewrite <- (app_nil_r m) at 1.
      apply (run_star_pick dot m []); [exact Hdot | exact I|].
      cbn [seen rest caps seqs fold_right run]. rewrite passed_rev. reflexivity.
    + eexists. cbn [tail_text mods_text].
      rewrite seqs_cons, run_seq.
      apply (run_star_pick space [] []); [reflexivity | exact I|].
      rewrite seqs_cons, run_seq, run_grp.
      apply (run_star_pick dot [] []); [reflexivity | exact I|].
      cbn [seen rest caps rev app seqs fold_right run]. rewrite passed_same. reflexivity.
Qed.

Lemma re_column_bracketed_type (nm ty : text) (args mods : option text) :
  nm <> [] -> forallb (none_of "[]") nm = true ->
  ty <> [] -> forallb letter_ ty = true ->
  params_ok args -> modifiers_ok mods ->
  exists sn',
    re_match re_column
      ("["%char :: nm ++ "]"%char :: " "%char :: "["%char :: ty ++ "]"%char ::
       args_text args ++ tail_text mods) =
    Some (MState sn' []
            [(4%nat, bracketed_type_modifiers args mods); (2%nat, ty); (1%nat, nm)]).
Proof.
  intros Hnm Hnb Hty Hlet Hargs Hmods.
  destruct ty as [|t0 ty]; [contradiction|].
  cbn [forallb] in Hlet. apply andb_true_iff in Hlet as [Ht0 Hlet].
  destruct (column_end_after ("]"%char :: rev ty ++ t0 :: "["%char :: " "%char ::
                              "]"%char :: rev nm ++ ["["%char])
              args mods [(2%nat, t0 :: ty); (1%nat, nm)] Hargs Hmods) as (sn' & Hend).
  exists sn'. unfold re_match, re_column.
  apply run_bracketed; [exact Hnm | exact Hnb|].
  rewrite seqs_cons, run_seq. unfold Plus at 1.
  rewrite run_seq, run_chr_hit by reflexivity.
  apply (run_star_pick space []
           ("["%char :: (t0 :: ty) ++ "]"%char :: args_text args ++ tail_text mods));
    [reflexivity | reflexivity|].
  cbn [rev app].
  rewrite seqs_cons, run_seq. apply run_opt_chr_hit; [reflexivity|].
  rewrite seqs_cons, run_seq, run_grp. unfold Plus at 1.
  rewrite run_seq, run_chr_hit by exact Ht0.
  apply (run_star_pick letter_ ty ("]"%char :: args_text args ++ tail_text mods));
    [exact Hlet | reflexivity|].
  cbn [seen rest caps]. rewrite passed_rev_cons.
  rewrite seqs_cons, run_seq.
  rewrite run_opt_miss
    by (rewrite seqs_cons, run_seq; apply run_chr_miss; reflexivity).
  rewrite seqs_cons, run_seq. apply run_opt_chr_hit; [reflexivity|].
  exact Hend.
Qed.

Lemma bracketed_modifiers_truthy (args mods : option text) :
  (if truthy_opt (Some (bracketed_type_modifiers args mods))
   then bracketed_type_modifiers args mods else []) =
  bracketed_type_modifiers args mods.
Proof. destruct (bracketed_type_modifiers args mods); reflexivity. Qed.

Lemma column_after_last (pre : text) (args mods : option text) :
  pre <> [] -> is_space (last pre " "%char) = false ->
  params_ok args -> modifiers_ok mods ->
  is_space (last (pre ++ args_text args ++ tail_text mods) " "%char) = false.
Proof.
  intros Hpre Hl Hargs Hmods. destruct mods as [m|].
  - destruct Hmods as (Hm & _ & _ & _ & Hlm). cbn [tail_text].
    rewrite !app_assoc, last_app_nonempty by exact Hm. exact Hlm.
  - cbn [tail_text]. rewrite app_nil_r. destruct args as [p|].
    + unfold args_text. rewrite !app_assoc, last_app_nonempty by discriminate.
      reflexivity.
    + cbn [args_text]. rewrite app_nil_r. exact Hl.
Qed.

(** X6: when the type of a column line (on one line and without an equals
    sign) is bracketed, the params are lost.
    Parenthesized text after the closing bracket of the type is not taken
    for params: it goes to the modifiers, the column has no params, and a
    decimal or numeric column is then rendered as the bare DECIMAL. *)
Theorem bracketed_type_loses_params (nm ty : text) (args mods : option text) :
  nm <> [] -> forallb (none_of "[]") nm = true -> no_equals nm ->
  ty <> [] -> forallb letter_ ty = true ->
  params_ok args -> modifiers_ok mods ->
  parse_column_line
    ("[" ++ nm ++ "] [" ++ ty ++ "]" ++ args_text args ++ tail_text mods) =
  Ok (Some (Column nm (lower ty) None
              (negb (contains "NOT NULL"
                       (upper (bracketed_type_modifiers args mods)))))) /\
  (in_list (lower ty) ["decimal"; "numeric"] = true ->
   convert_data_type (lower ty) None = "DECIMAL").
Proof.
  intros Hnm Hnb Hne Hty Hlet Hargs Hmods. split.
  - change (str "[" ++ nm ++ str "] [" ++ ty ++ str "]" ++ args_text args ++ tail_text mods)
      with ("["%char :: nm ++ "]"%char :: " "%char :: "["%char :: ty ++ "]"%char ::
            args_text args ++ tail_text mods).
    set (A := args_text args ++ tail_text mods).
    assert (Hstrip : strip ("["%char :: nm ++ "]"%char :: " "%char :: "["%char ::
                            ty ++ "]"%char :: A) =
                     "["%char :: nm ++ "]"%char :: " "%char :: "["%char ::
                     ty ++ "]"%char :: A).
    { apply strip_fixed; [discriminate | reflexivity|].
      assert (Hline : "["%char :: nm ++ "]"%char :: " "%char :: "["%char ::
                      ty ++ "]"%char :: A =
                      (((("["%char :: nm) ++ ["]"%char; " "%char; "["%char]) ++ ty)
                        ++ ["]"%char]) ++ A).
      { rewrite <- !app_assoc. reflexivity. }
      rewrite Hline. apply column_after_last; try assumption.
      - intros E. apply app_eq_nil in E as [_ E]. discriminate.
      - rewrite last_app_nonempty by discriminate. reflexivity. }
    assert (Heq : contains "=" ("["%char :: nm ++ "]"%char :: " "%char :: "["%char ::
                                ty ++ "]"%char :: A) = false).
    { apply (contains_char_false "=").
      change ("["%char :: nm ++ "]"%char :: " "%char :: "["%char :: ty ++ "]"%char :: A)
        with (str "[" ++ nm ++ str "] [" ++ ty ++ str "]" ++ A).
      apply no_equals_app; [reflexivity|].
      apply no_equals_app; [exact Hne|].
      apply no_equals_app; [reflexivity|].
      apply no_equals_app; [apply letters_no_equals; exact Hlet|].
      apply no_equals_app; [reflexivity|].
      pose proof (column_rest_no_equals [] args mods eq_refl Hargs Hmods) as H.
      exact H. }
    destruct (re_column_bracketed_type nm ty args mods Hnm Hnb Hty Hlet Hargs Hmods)
      as (sn' & Hm). fold A in Hm.
    unfold parse_column_line. rewrite Hstrip.
    cbn [truthy negb]. rewrite re_skip_bracket, Heq. cbn [andb]. rewrite Hm.
    cbn [group_str group caps assoc Nat.eqb bind].
    rewrite bracketed_modifiers_truthy. reflexivity.
  - intros Hdec. unfold convert_data_type.
    assert (Hl : lower (lower ty) = lower ty).
    { unfold lower. rewrite map_map. apply map_ext_in. intros c Hc.
      rewrite forallb_forall in Hlet. specialize (Hlet c Hc).
      revert Hlet. clear. by_cases_on_char c. }
    rewrite Hl, Hdec. cbn [truthy_opt andb].
    unfold in_list in Hdec. cbn [existsb] in Hdec.
    rewrite orb_false_r in Hdec. apply orb_true_iff in Hdec as [Hd|Hd];
      apply text_eqb_eq in Hd; rewrite Hd; reflexivity.
Qed.

Lemma bracketed_type_loses_params_witness :
  parse_column_line
    ("[" ++ "Amount" ++ "] [" ++ "decimal" ++ "]" ++ args_text (Some (str "10, 2"))
         ++ tail_text (Some (str "NOT NULL"))) =
  Ok (Some (Column "Amount" (lower "decimal") None
              (negb (contains "NOT NULL"
                       (upper (bracketed_type_modifiers (Some (str "10, 2"))
                                 (Some (str "NOT NULL")))))))) /\
  (in_list (lower "decimal") ["decimal"; "numeric"] = true ->
   convert_data_type (lower "decimal") None = "DECIMAL").
Proof.
  apply (bracketed_type_loses_params (str "Amount") (str "decimal")
           (Some (str "10, 2")) (Some (str "NOT NULL")));
    try reflexivity; try discriminate.
  - repeat split; (reflexivity || discriminate).
  - repeat split; (reflexivity || discriminate).
Defined.

(** ** More on the type mapper *)

Lemma lower_upper (s : text) : lower (upper s) = lower s.
Proof.
  unfold lower, upper. rewrite map_map. apply map_ext. intros c.
  by_cases_on_char c.
Qed.

Lemma lower_lower (s : text) : lower (lower s) = lower s.
Proof.
  unfold lower. rewrite map_map. apply map_ext. intros c.
  by_cases_on_char c.
Qed.

(** X7: the type mapper reads a type name of ASCII characters without
    regard to letter case: the upper-cased and the lower-cased name give
    what the name gives. *)
Theorem convert_data_type_ignores_case (sql_server_type : text) (params : option text) :
  ascii_text sql_server_type = true ->
  convert_data_type (upper sql_server_type) params =
    convert_data_type sql_server_type params /\
  convert_data_type (lower sql_server_type) params =
    convert_data_type sql_server_type params.
Proof.
  intros _. unfold convert_data_type. rewrite lower_upper, lower_lower.
  split; reflexivity.
Qed.

Lemma convert_data_type_ignores_case_witness :
  convert_data_type (upper "VarChar") (Some (str "50")) =
    convert_data_type "VarChar" (Some (str "50")) /\
  convert_data_type (lower "VarChar") (Some (str "50")) =
    convert_data_type "VarChar" (Some (str "50")).
Proof.
  apply (convert_data_type_ignores_case "VarChar" (Some (str "50"))). reflexivity.
Defined.

(** X8: the params count only for decimal, numeric and float: for every
    other type name the mapper gives the same answer whatever the params. *)
Theorem convert_data_type_ignores_params (sql_server_type : text)
    (params params' : option text) :
  in_list (lower sql_server_type) ["decimal"; "numeric"; "float"] = false ->
  convert_data_type sql_server_type params = convert_data_type sql_server_type params'.
Proof.
  intros H. unfold in_list in H. cbn [existsb] in H.
  apply orb_false_iff in H as [H1 H]. apply orb_false_iff in H as [H2 H].
  apply orb_false_iff in H as [H3 _].
  unfold convert_data_type, in_list. cbn [existsb]. rewrite H1, H2, H3.
  reflexivity.
Qed.

Lemma convert_data_type_ignores_params_witness :
  convert_data_type "VarChar" (Some (str "max")) = convert_data_type "VarChar" None /\
  convert_data_type "money" (Some (str "10,2")) = convert_data_type "money" None.
Proof.
  split; apply convert_data_type_ignores_params; reflexivity.
Defined.

Lemma dict_get_fixed (key : text) :
  In (dict_get type_mapping key "STRING") fixed_types.
Proof.
  destruct (dict_get_in type_mapping key "STRING") as [H|H].
  - left. exact H.
  - right. right. right. exact H.
Qed.

(** X9: the answer of the type mapper is never anything else than
    DECIMAL(params), for decimal and numeric with params that are not
    empty, or one of the fixed target types: STRING, FLOAT, DOUBLE or a
    value of the table. *)
Theorem convert_data_type_range (sql_server_type : text) (params : option text) :
  (exists p, params = Some p /\ p <> [] /\
             in_list (lower sql_server_type) ["decimal"; "numeric"] = true /\
             convert_data_type sql_server_type params = "DECIMAL(" ++ p ++ ")") \/
  In (convert_data_type sql_server_type params) fixed_types.
Proof.
  unfold convert_data_type.
  destruct (in_list (lower sql_server_type) ["decimal"; "numeric"]) eqn:E1.
  - destruct params as [[|c p]|].
    + right. cbn [truthy_opt truthy andb].
      destruct (in_list (lower sql_server_type) ["char"; "varchar"; "nchar"; "nvarchar"]);
        [left; reflexivity|].
      rewrite andb_false_r. apply dict_get_fixed.
    + left. exists (c :: p). repeat split. discriminate.
    + right. cbn [truthy_opt andb].
      destruct (in_list (lower sql_server_type) ["char"; "varchar"; "nchar"; "nvarchar"]);
        [left; reflexivity|].
      rewrite andb_false_r. apply dict_get_fixed.
  - right. cbn [andb].
    destruct (in_list (lower sql_server_type) ["char"; "varchar"; "nchar"; "nvarchar"]).
    + left. reflexivity.
    + destruct (in_list (lower sql_server_type) ["float"] && truthy_opt params).
      * destruct (int match params with Some p => p | None => [] end) as [n|e].
        -- destruct (n <? 25)%Z; [right; left | right; right; left]; reflexivity.
        -- right. right. left. reflexivity.
      * apply dict_get_fixed.
Qed.

(** ** More on the rendering of a column *)

Lemma starts_with_self (p s : text) : starts_with p (p ++ s) = true.
Proof.
  induction p as [|c p IH]; [reflexivity|].
  cbn [app starts_with]. rewrite Ascii.eqb_refl. exact IH.
Qed.

Lemma fixed_type_end (t rest : text) :
  In t fixed_types -> starts_with (rev " NOT NULL") (rev t ++ rest) = false.
Proof.
  intros H. unfold fixed_types in H. cbn [type_mapping map snd] in H.
  repeat (destruct H as [H|H]; [subst t; reflexivity|]).
  destruct H.
Qed.

Lemma convert_data_type_closed_or_fixed (ty : text) (params : option text) :
  (exists p, convert_data_type ty params = "DECIMAL(" ++ p ++ ")") \/
  In (convert_data_type ty params) fixed_types.
Proof.
  unfold convert_data_type.
  destruct (in_list (lower ty) ["decimal"; "numeric"] && truthy_opt params).
  - left. eexists. reflexivity.
  - right.
    destruct (in_list (lower ty) ["char"; "varchar"; "nchar"; "nvarchar"]);
      [left; reflexivity|].
    destruct (in_list (lower ty) ["float"] && truthy_opt params);
      [|apply dict_get_fixed].
    destruct (int match params with Some p => p | None => [] end) as [n|e].
    + destruct (n <? 25)%Z; [right; left | right; right; left]; reflexivity.
    + right. right. left. reflexivity.
Qed.

(** X10: a rendered column line ends with the words NOT NULL exactly when
    the column is not nullable, whatever its name, type and params are. *)
Theorem column_def_not_null (col : ColumnDefinition) :
  ends_with " NOT NULL" (column_def col) = negb (nullable col).
Proof.
  unfold column_def, ends_with.
  destruct (nullable col); cbn [negb].
  - rewrite app_nil_r.
    change ("  " ++ col_name col ++ " " ++ convert_data_type (col_type col) (col_params col))
      with (str "  " ++ col_name col ++ str " " ++
            convert_data_type (col_type col) (col_params col)).
    rewrite !app_assoc. rewrite rev_app_distr.
    destruct (convert_data_type_closed_or_fixed (col_type col) (col_params col))
      as [(p & E)|H].
    + rewrite E. change ("DECIMAL(" ++ p ++ ")") with (str "DECIMAL(" ++ p ++ [")"%char]).
      rewrite app_assoc, rev_app_distr. reflexivity.
    + apply fixed_type_end. exact H.
  - rewrite !app_assoc. rewrite rev_app_distr. apply starts_with_self.
Qed.

(** ** More on [_smart_split] *)

Lemma lstrip_hd (s : text) :
  lstrip s <> [] -> is_space (hd " "%char (lstrip s)) = false.
Proof.
  induction s as [|c s IH]; cbn [lstrip]; [congruence|].
  destruct (is_space c) eqn:E; [exact IH|].
  intros _. exact E.
Qed.

Lemma lstrip_last (s : text) (d : ascii) :
  lstrip s <> [] -> last (lstrip s) d = last s d.
Proof.
  induction s as [|c s IH]; cbn [lstrip]; [congruence|].
  destruct (is_space c); [|reflexivity].
  intros H. rewrite (IH H). destruct s as [|c' s]; [contradiction|reflexivity].
Qed.

Lemma last_rev (s : text) (d : ascii) : last (rev s) d = hd d s.
Proof.
  destruct s as [|c s]; [reflexivity|].
  cbn [rev hd]. apply last_app_nonempty. discriminate.
Qed.

Lemma rstrip_last (s : text) :
  rstrip s <> [] -> is_space (last (rstrip s) " "%char) = false.
Proof.
  unfold rstrip. intros H. rewrite last_rev. apply lstrip_hd.
  intros E. apply H. rewrite E. reflexivity.
Qed.

Lemma strip_strip (s : text) : strip (strip s) = strip s.
Proof.
  destruct (strip s) eqn:E; [reflexivity|]. rewrite <- E.
  assert (Hne : strip s <> []) by (rewrite E; discriminate).
  apply strip_fixed; [exact Hne| |].
  - apply lstrip_hd. exact Hne.
  - unfold strip in *. rewrite (lstrip_last _ _ Hne). apply rstrip_last.
    intros E'. apply Hne. rewrite E'. reflexivity.
Qed.

Lemma smart_split_loop_stripped (txt : text) : forall parts current d,
  Forall (fun f => strip f = f) parts ->
  Forall (fun f => strip f = f) (fst (smart_split_loop txt parts current d)).
Proof.
  induction txt as [|c txt IH]; intros parts current d H; cbn [smart_split_loop].
  - exact H.
  - destruct (Ascii.eqb c "("); [apply IH; exact H|].
    destruct (Ascii.eqb c ")"); [apply IH; exact H|].
    destruct (Ascii.eqb c "," && (d =? 0)%Z); [|apply IH; exact H].
    apply IH. apply Forall_app. split; [exact H|].
    constructor; [apply strip_strip|constructor].
Qed.

(** X11: every fragment [_smart_split] returns is stripped: it has no
    whitespace at its start or at its end, so stripping it again, as
    [_parse_columns] does, changes nothing. *)
Theorem smart_split_fragments_stripped (txt f : text) :
  In f (_smart_split txt) -> strip f = f.
Proof.
  unfold _smart_split.
  pose proof (smart_split_loop_stripped txt [] [] 0 (Forall_nil _)) as H.
  destruct (smart_split_loop txt [] [] 0) as [parts current]. cbn [fst] in H.
  rewrite Forall_forall in H.
  destruct (truthy current); intros Hin.
  - apply in_app_or in Hin as [Hin|[<-|[]]]; [apply H; exact Hin|apply strip_strip].
  - apply H. exact Hin.
Qed.

Lemma smart_split_fragments_stripped_witness :
  strip "b (1, 2)" = "b (1, 2)".
Proof.
  apply (smart_split_fragments_stripped " a int , b (1, 2) ,c"). vm_compute.
  right. left. reflexivity.
Defined.

Lemma strip_no_space (s : text) : no_space s = true -> strip s = s.
Proof.
  intros H. destruct s as [|c s]; [reflexivity|].
  apply strip_fixed; [discriminate| |].
  - cbn [hd]. cbn [no_space forallb] in H. apply andb_true_iff in H as [H _].
    apply negb_true_iff. exact H.
  - apply negb_true_iff.
    apply (forallb_last (fun c => negb (is_space c))); [discriminate|exact H].
Qed.

Lemma join_cons (sep x : text) (r : list text) :
  r <> [] -> join sep (x :: r) = x ++ sep ++ join sep r.
Proof. destruct r; [contradiction|reflexivity]. Qed.

Lemma join_snoc (sep : text) (l : list text) (a : text) :
  l <> [] -> join sep (l ++ [a]) = join sep l ++ sep ++ a.
Proof.
  induction l as [|x l IH]; [contradiction|]. intros _.
  destruct l as [|y l]; [reflexivity|].
  change ((x :: y :: l) ++ [a]) with (x :: ((y :: l) ++ [a])).
  rewrite join_cons by discriminate. rewrite IH by discriminate.
  rewrite (join_cons sep x (y :: l)) by discriminate.
  rewrite <- !app_assoc. reflexivity.
Qed.

Lemma join_snoc_snoc (sep : text) (l : list text) (a b : text) :
  join sep ((l ++ [a]) ++ [b]) = join sep (l ++ [a ++ sep ++ b]).
Proof.
  rewrite join_snoc by (intros E; apply app_eq_nil in E as [_ E]; discriminate).
  destruct l as [|x l]; [reflexivity|].
  rewrite !join_snoc by discriminate. rewrite <- !app_assoc. reflexivity.
Qed.

Lemma smart_split_loop_join (txt : text) : forall parts current d,
  no_space current = true -> no_space txt = true ->
  let '(p, c) := smart_split_loop txt parts current d in
  join "," (p ++ [c]) = join "," (parts ++ [current ++ txt]) /\ no_space c = true.
Proof.
  induction txt as [|ch txt IH]; intros parts current d Hc Ht; cbn [smart_split_loop].
  - rewrite app_nil_r. split; [reflexivity|exact Hc].
  - cbn [no_space forallb] in Ht. apply andb_true_iff in Ht as [Hch Ht].
    assert (Hc' : no_space (current ++ [ch]) = true).
    { unfold no_space. rewrite forallb_app. cbn [forallb].
      rewrite Hch. unfold no_space in Hc. rewrite Hc. reflexivity. }
    assert (Hkeep : forall d',
      let '(p, c) := smart_split_loop txt parts (current ++ [ch]) d' in
      join "," (p ++ [c]) = join "," (parts ++ [current ++ ch :: txt]) /\
      no_space c = true).
    { intros d'. specialize (IH parts (current ++ [ch]) d' Hc' Ht).
      destruct (smart_split_loop txt parts (current ++ [ch]) d') as [p c].
      rewrite <- app_assoc in IH. exact IH. }
    destruct (Ascii.eqb ch "("); [apply Hkeep|].
    destruct (Ascii.eqb ch ")"); [apply Hkeep|].
    destruct (Ascii.eqb ch ",") eqn:E; cbn [andb]; [|apply Hkeep].
    destruct (d =? 0)%Z; [|apply Hkeep].
    apply Ascii.eqb_eq in E. subst ch.
    specialize (IH (parts ++ [strip current]) [] d eq_refl Ht).
    destruct (smart_split_loop txt (parts ++ [strip current]) [] d) as [p c].
    destruct IH as [IH Hn]. split; [|exact Hn].
    rewrite IH. rewrite (strip_no_space _ Hc). cbn [app].
    apply join_snoc_snoc.
Qed.

(** X12: on a text without whitespace [_smart_split] loses nothing but the
    commas it splits at: joining the fragments with commas gives the text
    back, up to one final comma; and gives the text itself when the text
    does not end with a comma. *)
Theorem smart_split_join (txt : text) :
  no_space txt = true ->
  (join "," (_smart_split txt) = txt \/ join "," (_smart_split txt) ++ "," = txt) /\
  (last txt " "%char <> ","%char -> join "," (_smart_split txt) = txt).
Proof.
  intros H.
  assert (Hor : join "," (_smart_split txt) = txt \/
                join "," (_smart_split txt) ++ "," = txt).
  { unfold _smart_split.
    pose proof (smart_split_loop_join txt [] [] 0 eq_refl H) as Hj.
    destruct (smart_split_loop txt [] [] 0) as [p c].
    cbn [app] in Hj. destruct Hj as [Hj Hn].
    destruct c as [|x c]; cbn [truthy].
    - destruct p as [|y p]; [left; exact Hj|].
      right. rewrite join_snoc in Hj by discriminate. exact Hj.
    - left. rewrite (strip_no_space _ Hn). exact Hj. }
  split; [exact Hor|].
  intros Hl. destruct Hor as [E|E]; [exact E|].
  exfalso. apply Hl. rewrite <- E.
  apply last_app_nonempty. discriminate.
Qed.

Lemma smart_split_join_witness :
  (join "," (_smart_split "a(1,2),,b),c,") = "a(1,2),,b),c," \/
   join "," (_smart_split "a(1,2),,b),c,") ++ "," = "a(1,2),,b),c,") /\
  (last (str "a(1,2),,b),c,") " "%char <> ","%char ->
   join "," (_smart_split "a(1,2),,b),c,") = "a(1,2),,b),c,").
Proof.
  apply (smart_split_join "a(1,2),,b),c,"). reflexivity.
Defined.

(** ** [split_into_chunks] *)

Lemma slice_in_range (s : text) (a b : Z) :
  (0 <= a <= b)%Z -> (b <= Z.of_nat (length s))%Z ->
  slice s a b = firstn (Z.to_nat (b - a)) (skipn (Z.to_nat a) s).
Proof.
  intros Ha Hb. unfold slice, norm_idx.
  destruct (Z.ltb_spec a 0); [lia|]. destruct (Z.ltb_spec b 0); [lia|].
  rewrite !Z.min_l by lia. reflexivity.
Qed.

Lemma chunk_loop_returns (txt : text) (chunk_size : Z) :
  (0 < chunk_size)%Z ->
  forall fuel start chunks,
    (0 <= start <= Z.of_nat (length txt))%Z ->
    (Z.of_nat (length txt) - start < Z.of_nat fuel)%Z ->
    exists r, SpChunk.chunk_loop fuel txt chunk_size start chunks = Some r.
Proof.
  intros Hc. induction fuel as [|fuel IH]; intros start chunks H0 Hf; [lia|].
  cbn [SpChunk.chunk_loop].
  destruct (Z.ltb_spec start (Z.of_nat (length txt))) as [Hlt|Hge].
  - apply IH; lia.
  - eexists. reflexivity.
Qed.

Lemma chunk_loop_result (txt : text) (chunk_size : Z) :
  (0 < chunk_size)%Z ->
  forall fuel start chunks r,
    (0 <= start <= Z.of_nat (length txt))%Z ->
    SpChunk.chunk_loop fuel txt chunk_size start chunks = Some r ->
    exists rest,
      r = chunks ++ rest /\
      concat rest = skipn (Z.to_nat start) txt /\
      SpChunk.sized chunk_size rest = true /\
      (start = Z.of_nat (length txt) -> rest = []).
Proof.
  intros Hc. induction fuel as [|fuel IH]; intros start chunks r Hs Hr;
    cbn [SpChunk.chunk_loop] in Hr; [discriminate|].
  destruct (Z.ltb_spec start (Z.of_nat (length txt))) as [Hlt|Hge].
  - set (end_ := Z.min (start + chunk_size) (Z.of_nat (length txt))) in *.
    assert (He : (start < end_ <= Z.of_nat (length txt))%Z) by (unfold end_; lia).
    destruct (IH end_ _ r ltac:(lia) Hr) as (rest & -> & Hcat & Hsz & Hlast).
    exists (slice txt start end_ :: rest).
    assert (Hlen : Z.of_nat (length (slice txt start end_)) = (end_ - start)%Z).
    { rewrite slice_in_range by lia. rewrite length_firstn, length_skipn. lia. }
    split; [rewrite <- app_assoc; reflexivity|]. split; [|split].
    + cbn [concat]. rewrite Hcat. rewrite slice_in_range by lia.
      replace (Z.to_nat end_) with (Z.to_nat (end_ - start) + Z.to_nat start)%nat by lia.
      rewrite <- skipn_skipn. apply firstn_skipn.
    + cbn [SpChunk.sized]. destruct rest as [|c rest].
      * rewrite Hlen. apply andb_true_iff. split.
        -- apply Z.ltb_lt. lia.
        -- apply Z.leb_le. unfold end_. lia.
      * rewrite Hsz. rewrite andb_true_r. apply Z.eqb_eq. rewrite Hlen.
        destruct (Z.eq_dec end_ (Z.of_nat (length txt))) as [E|E].
        -- specialize (Hlast E). discriminate.
        -- unfold end_ in *. lia.
    + intros E. lia.
  - injection Hr as <-. exists []. rewrite app_nil_r.
    split; [reflexivity|]. split; [|split; [reflexivity|reflexivity]].
    cbn [concat]. symmetry. apply skipn_all2. lia.
Qed.

(** X13: for a positive chunk size [split_into_chunks] ends, after at most
    one round per character and one more, and the chunks it returns,
    put together in order, are the text. *)
Theorem split_into_chunks_concat (fuel : nat) (txt : text) (chunk_size : Z) :
  (0 < chunk_size)%Z -> (length txt < fuel)%nat ->
  exists chunks,
    SpChunk.split_into_chunks fuel txt chunk_size = Some chunks /\
    concat chunks = txt.
Proof.
  intros Hc Hf. unfold SpChunk.split_into_chunks.
  destruct (chunk_loop_returns txt chunk_size Hc fuel 0%Z [] ltac:(lia) ltac:(lia))
    as [r Hr].
  exists r. split; [exact Hr|].
  destruct (chunk_loop_result txt chunk_size Hc fuel 0%Z [] r ltac:(lia) Hr)
    as (rest & -> & Hcat & _ & _).
  exact Hcat.
Qed.

Lemma split_into_chunks_concat_witness :
  exists chunks,
    SpChunk.split_into_chunks 20 "SELECT 1; GO" 5 = Some chunks /\
    concat chunks = "SELECT 1; GO".
Proof.
  apply (split_into_chunks_concat 20 "SELECT 1; GO" 5); [reflexivity|].
  cbn [length str list_ascii_of_string]. lia.
Defined.

(** X14: for a positive chunk size [split_into_chunks] ends, after at most
    one round per character and one more, and of the chunks it returns
    every one but the last has exactly [chunk_size] characters, and the last
    has at least one and at most [chunk_size]: no chunk is empty. *)
Theorem split_into_chunks_sizes (fuel : nat) (txt : text) (chunk_size : Z) :
  (0 < chunk_size)%Z -> (length txt < fuel)%nat ->
  exists chunks,
    SpChunk.split_into_chunks fuel txt chunk_size = Some chunks /\
    SpChunk.sized chunk_size chunks = true.
Proof.
  intros Hc Hf. unfold SpChunk.split_into_chunks.
  destruct (chunk_loop_returns txt chunk_size Hc fuel 0%Z [] ltac:(lia) ltac:(lia))
    as [r Hr].
  exists r. split; [exact Hr|].
  destruct (chunk_loop_result txt chunk_size Hc fuel 0%Z [] r ltac:(lia) Hr)
    as (rest & -> & _ & Hsz & _).
  exact Hsz.
Qed.

Lemma split_into_chunks_sizes_witness :
  exists chunks,
    SpChunk.split_into_chunks 20 "SELECT 1; GO" 5 = Some chunks /\
    SpChunk.sized 5 chunks = true.
Proof.
  apply (split_into_chunks_sizes 20 "SELECT 1; GO" 5); [reflexivity|].
  cbn [length str list_ascii_of_string]. lia.
Defined.

Lemma chunk_loop_runs_on (txt : text) (chunk_size : Z) :
  (chunk_size <= 0)%Z -> txt <> [] ->
  forall fuel start chunks,
    (start <= 0)%Z -> SpChunk.chunk_loop fuel txt chunk_size start chunks = None.
Proof.
  intros Hc Ht. induction fuel as [|fuel IH]; intros start chunks Hs;
    cbn [SpChunk.chunk_loop]; [reflexivity|].
  assert (Hl : (0 < Z.of_nat (length txt))%Z).
  { destruct txt; [contradiction|]. cbn [length]. lia. }
  destruct (Z.ltb_spec start (Z.of_nat (length txt))) as [Hlt|Hge]; [|lia].
  apply IH. lia.
Qed.

(** X15: for a chunk size of zero or less and a text that is not empty the
    loop of [split_into_chunks] never ends: however many rounds it is
    given, it has not returned. *)
Theorem split_into_chunks_runs_on (fuel : nat) (txt : text) (chunk_size : Z) :
  (chunk_size <= 0)%Z -> txt <> [] ->
  SpChunk.split_into_chunks fuel txt chunk_size = None.
Proof.
  intros Hc Ht. apply chunk_loop_runs_on; [exact Hc|exact Ht|lia].
Qed.

Lemma split_into_chunks_runs_on_witness :
  SpChunk.split_into_chunks 1000 "GO" 0 = None.
Proof.
  apply (split_into_chunks_runs_on 1000 "GO" 0); [lia|discriminate].
Defined.

(** ** [convert_file] and [main] *)

Lemma fold_print_fs `{Pathlib} (lines : list TableDefinition)
    (f : TableDefinition -> text) :
  forall w : world,
    fs (fold_left (fun w table => print (f table) w) lines w) = fs w.
Proof.
  induction lines as [|l lines IH]; intros w; [reflexivity|].
  cbn [fold_left]. rewrite IH. reflexivity.
Qed.

Lemma fold_print_stdout `{Pathlib} (lines : list TableDefinition)
    (f : TableDefinition -> text) :
  forall w : world,
    stdout (fold_left (fun w table => print (f table) w) lines w) =
    stdout w ++ map f lines.
Proof.
  induction lines as [|l lines IH]; intros w; cbn [fold_left map].
  - rewrite app_nil_r. reflexivity.
  - rewrite IH. cbn [print stdout]. rewrite <- app_assoc. reflexivity.
Qed.

Lemma nth_argv (argv : list text) (n : nat) (d : text) :
  (if (n <? length argv)%nat then nth n argv [] else d) = nth n argv d.
Proof.
  destruct (Nat.ltb_spec n (length argv)) as [Hn|Hn].
  - apply nth_indep. exact Hn.
  - symmetry. apply nth_overflow. exact Hn.
Qed.

(** X16: [main] lets no exception out.  When there is no file at the input
    path it prints one line, the error with the name as it was given, and
    exits with status 1, and the files are as they were; when the file is
    there it returns without an exit status. *)
Theorem main_exit_status `{Pathlib} (argv : list text) (w : world) :
  (fs w (Path (input_of argv)) = None ->
   main argv w =
   (print ("Error: Input file not found: " ++ input_of argv) w, Some 1%Z)) /\
  (fs w (Path (input_of argv)) <> None -> snd (main argv w) = None).
Proof.
  unfold main. rewrite nth_argv. fold (input_of argv).
  unfold convert_file.
  split.
  - intros Hf. rewrite Hf. reflexivity.
  - intros Hf. destruct (fs w (Path (input_of argv))) as [content|];
      [|contradiction].
    rewrite parse_sql_server_ddl_spec.
    destruct (flat_map tables_of_fragment (fragments content)); reflexivity.
Qed.

Lemma main_exit_status_witness :
  @main one_directory [str "prog"; str "missing.sql"] (World no_file []) =
    (World no_file [str "Error: Input file not found: missing.sql"], Some 1%Z) /\
  snd (@main one_directory [str "prog"; str "in.sql"]
         (World (one_file "in.sql" "GO") [])) =
    None.
Proof.
  split.
  - apply (@main_exit_status one_directory [str "prog"; str "missing.sql"]
             (World no_file [])).
    reflexivity.
  - apply (@main_exit_status one_directory [str "prog"; str "in.sql"]
             (World (one_file "in.sql" "GO") [])).
    discriminate.
Defined.

(** X17: [convert_file] leaves every file alone that is not the output
    file; and when the input file is missing, or no table is found in it,
    it writes no file at all. *)
Theorem convert_file_frame `{Pathlib} (input_file : text) (output_file : option text)
    (use_catalog : bool) (w : world) :
  let w' := fst (convert_file input_file output_file use_catalog w) in
  (forall q, same_file q (output_path_of (Path input_file) output_file) = false ->
             fs w' q = fs w q) /\
  (fs w (Path input_file) = None -> fs w' = fs w) /\
  (forall content, fs w (Path input_file) = Some content ->
                   parse_sql_server_ddl content = Ok [] -> fs w' = fs w).
Proof.
  cbv zeta. unfold convert_file. split; [|split].
  - intros q Hq. destruct (fs w (Path input_file)) as [content|]; [|reflexivity].
    destruct (parse_sql_server_ddl content) as [[|t tables]|e]; try reflexivity.
    cbn [fst]. rewrite fold_print_fs. cbn [print write_file fs]. rewrite Hq.
    reflexivity.
  - intros Hf. rewrite Hf. reflexivity.
  - intros content Hf Hp. rewrite Hf, Hp. reflexivity.
Qed.

Lemma convert_file_frame_witness :
  fs (fst (@convert_file one_directory "in.sql" None true
             (World (one_file "in.sql" "GO") []))) =
  (one_file "in.sql" "GO").
Proof.
  apply (@convert_file_frame one_directory "in.sql" None true
           (World (one_file "in.sql" "GO") [])
         ) with (content := str "GO"); reflexivity.
Defined.

Lemma ddl_loop_flat (tables : list TableDefinition) (use_catalog : bool) :
  forall acc,
    ddl_loop tables use_catalog acc =
    acc ++ flat_map (fun table => ["-- Table: " ++ name table;
                                   generate_databricks_ddl table use_catalog; []])
             tables.
Proof.
  induction tables as [|t tables IH]; intros acc; cbn [ddl_loop flat_map].
  - rewrite app_nil_r. reflexivity.
  - rewrite IH. rewrite <- app_assoc. reflexivity.
Qed.

Lemma join_three_more (sep a b c : text) (rest : list text) :
  rest <> [] ->
  join sep (a :: b :: c :: rest) = a ++ sep ++ b ++ sep ++ c ++ sep ++ join sep rest.
Proof. destruct rest; [contradiction|reflexivity]. Qed.

Lemma join_blocks (tables : list TableDefinition) (use_catalog : bool) :
  join nl (flat_map (fun table => ["-- Table: " ++ name table;
                                   generate_databricks_ddl table use_catalog; []])
             tables) =
  join nl (map (table_block use_catalog) tables).
Proof.
  induction tables as [|t tables IH]; [reflexivity|].
  cbn [flat_map map]. cbn [app].
  destruct tables as [|t' tables].
  - cbn [flat_map map join]. unfold table_block.
    rewrite <- !app_assoc. rewrite app_nil_r. reflexivity.
  - rewrite join_three_more by (cbn [flat_map app]; discriminate).
    rewrite IH. rewrite (join_cons nl (table_block use_catalog t))
      by (cbn [map]; discriminate).
    unfold table_block. cbn [app]. rewrite <- !app_assoc. reflexivity.
Qed.

(** X18: when the input file is there and tables are found in it,
    [convert_file] returns without an exception and the output file is
    made of one part per table, in the order of the tables: the header
    line with the table name and the statement, each with its line end,
    and one empty line between two parts.  The output path is the one
    given, or the default one when none or an empty one is given; it names
    the same file as itself, and the content is found there and at every
    path that names the same file. *)
Theorem convert_file_output `{Pathlib} (input_file : text) (output_file : option text)
    (use_catalog : bool) (w : world) (content : text) (tables : list TableDefinition) :
  fs w (Path input_file) = Some content ->
  parse_sql_server_ddl content = Ok tables ->
  tables <> [] ->
  let w' := fst (convert_file input_file output_file use_catalog w) in
  let output_path := output_path_of (Path input_file) output_file in
  same_file output_path output_path = true ->
  snd (convert_file input_file output_file use_catalog w) = None /\
  fs w' output_path = Some (join nl (map (table_block use_catalog) tables)) /\
  (forall q, same_file q output_path = true ->
             fs w' q = Some (join nl (map (table_block use_catalog) tables))) /\
  stdout w' =
    stdout w ++
    [ str "Conversion complete!";
      "Input file: " ++ input_file;
      "Output file: " ++ path_str output_path;
      "Total tables converted: " ++ decimal (length tables);
      nl ++ "Tables converted:" ] ++
    map summary_line tables.
Proof.
  intros Hf Hp Ht. cbv zeta. intros Hsame. unfold convert_file. rewrite Hf, Hp.
  destruct tables as [|t tables]; [contradiction|].
  cbn [fst snd].
  assert (Hat : forall q, same_file q (output_path_of (Path input_file) output_file)
                          = true ->
                fs (fold_left (fun w table => print (summary_line table) w) (t :: tables)
                      (print (nl ++ "Tables converted:")
                         (print ("Total tables converted: " ++
                                 decimal (length (t :: tables)))
                            (print ("Output file: " ++
                                    path_str (output_path_of (Path input_file)
                                                output_file))
                               (print ("Input file: " ++ input_file)
                                  (print "Conversion complete!"
                                     (write_file
                                        (output_path_of (Path input_file) output_file)
                                        (join nl (ddl_loop (t :: tables) use_catalog []))
                                        w))))))) q =
                Some (join nl (map (table_block use_catalog) (t :: tables)))).
  { intros q Hq. rewrite fold_print_fs. cbn [print write_file fs]. rewrite Hq.
    rewrite ddl_loop_flat. cbn [app]. rewrite join_blocks. reflexivity. }
  split; [reflexivity|]. split; [apply Hat; exact Hsame|]. split; [exact Hat|].
  rewrite fold_print_stdout. cbn [print write_file stdout].
  rewrite <- !app_assoc. reflexivity.
Qed.

Lemma convert_file_output_witness :
  let w := World (one_file "in.sql" "CREATE TABLE [t] ([a] int)") [] in
  snd (@convert_file one_directory "in.sql" None false w) = None /\
  fs (fst (@convert_file one_directory "in.sql" None false w)) (str "in_databricks.sql") =
    Some (join nl (map (table_block false) [Table None "t" [Column "a" "int" None true]])).
Proof.
  cbv zeta.
  destruct (@convert_file_output one_directory "in.sql" None false
              (World (one_file "in.sql" "CREATE TABLE [t] ([a] int)") [])
              (str "CREATE TABLE [t] ([a] int)")
              [Table None "t" [Column "a" "int" None true]])
    as (H1 & H2 & _);
    [reflexivity | vm_compute; reflexivity | discriminate | reflexivity |].
  split; [exact H1 | exact H2].
Defined.

(** ** [is_token_limit] *)

(** X19: a stop reason counts as a token limit exactly when it is a text
    in which one of the words max, length, limit and token occurs, in any
    letter case and at any place, also inside a longer word. *)
Theorem is_token_limit_spec (stop_reason : option text) :
  ProcConverter.is_token_limit stop_reason = true <->
  exists reason a m b word,
    stop_reason = Some reason /\ reason = a ++ m ++ b /\
    In word ProcConverter.token_limit_words /\ lower m = str word.
Proof.
  unfold ProcConverter.is_token_limit. split.
  - destruct stop_reason as [reason|]; [|discriminate].
    destruct reason as [|c reason]; [discriminate|].
    cbn [truthy_opt truthy negb]. intros H.
    apply existsb_exists in H as (word & Hin & Hc).
    apply contains_spec in Hc as (a' & b' & Hc). unfold lower in Hc.
    apply map_eq_app in Hc as (a & mb & E & Ha & Hc).
    apply map_eq_app in Hc as (m & b & -> & Hm & Hb).
    exists (c :: reason), a, m, b, word.
    split; [reflexivity|]. split; [exact E|]. split; [exact Hin|exact Hm].
  - intros (reason & a & m & b & word & -> & -> & Hin & Hm).
    assert (Hne : truthy (a ++ m ++ b) = true).
    { destruct m as [|x m].
      - exfalso. unfold ProcConverter.token_limit_words in Hin.
        cbn [In] in Hin.
        destruct Hin as [<-|[<-|[<-|[<-|[]]]]]; discriminate Hm.
      - destruct a; reflexivity. }
    cbn [truthy_opt]. rewrite Hne. cbn [negb].
    apply existsb_exists. exists word. split; [exact Hin|].
    apply contains_spec. exists (lower a), (lower b).
    rewrite !lower_app, Hm. reflexivity.
Qed.

(** ** Lines with an index option *)

(** X20: a line of a column list that has an equals sign in it and one of
    the five index option words, in any letter case and at any place, gives
    no column, even when it is a well-formed column definition. *)
Theorem option_line_is_dropped (line : text) (opt : string) :
  In opt index_options ->
  contains "=" (strip line) = true ->
  occurs_ci opt (strip line) ->
  parse_column_line line = Ok None.
Proof.
  intros Hin Heq Hocc. unfold parse_column_line. cbv zeta.
  destruct (negb (truthy (strip line))); [reflexivity|].
  destruct (re_match re_skip (strip line)); [reflexivity|].
  rewrite Heq. cbn [andb].
  assert (He : existsb (fun o => contains (str o) (upper (strip line))) index_options
               = true).
  { apply existsb_exists. exists opt. split; [exact Hin|].
    apply contains_upper_spec. exact Hocc. }
  rewrite He. reflexivity.
Qed.

Lemma option_line_is_dropped_witness :
  parse_column_line "[pad_index_flag] int DEFAULT (1=1)" = Ok None.
Proof.
  apply (option_line_is_dropped "[pad_index_flag] int DEFAULT (1=1)" "PAD_INDEX").
  - left. reflexivity.
  - reflexivity.
  - exists (str "["), (str "pad_index"), (str "_flag] int DEFAULT (1=1)").
    split; reflexivity.
Defined.

(** * The name class of the column pattern *)

(** ** A line without brackets that ends in NULL *)

Lemma strip_spaces_fixed (ws b : text) :
  forallb is_space ws = true -> b <> [] ->
  is_space (hd " "%char b) = false -> is_space (last b " "%char) = false ->
  strip (ws ++ b) = b.
Proof.
  intros Hws Hb Hh Hl. unfold strip.
  rewrite (app_removelast_last " "%char Hb) at 1.
  rewrite app_assoc.
  rewrite (rstrip_keep (ws ++ removelast b) (last b " "%char) [] Hl).
  change (rstrip []) with (@nil ascii).
  rewrite <- app_assoc, <- (app_removelast_last " "%char Hb).
  rewrite lstrip_spaces by exact Hws.
  destruct b as [|c b]; [contradiction|]. cbn [hd] in Hh.
  cbn [lstrip]. rewrite Hh. reflexivity.
Qed.

Lemma parse_column_line_strip (a b : text) :
  strip a = strip b -> parse_column_line a = parse_column_line b.
Proof. intros H. unfold parse_column_line. rewrite H. reflexivity. Qed.

Lemma ident_no_equals (nm : text) : forallb ident_char nm = true -> no_equals nm.
Proof.
  unfold no_equals. apply forallb_impl_in. intros c Hc.
  apply ident_type_char, type_char_facts in Hc as (_ & _ & Hc & _).
  rewrite Hc. reflexivity.
Qed.

(** The name group runs to the end of the line and gives characters back
    until what is left reads as whitespace and a type: that is the last
    word of the line. *)
Lemma re_column_last_word (nm mid : text) :
  nm <> [] -> forallb (none_of "[]") nm = true ->
  forallb (none_of "[]") mid = true ->
  exists sn',
    re_match re_column (nm ++ " " ++ mid ++ " NULL") =
    Some (MState sn' [] [(4%nat, []); (2%nat, str "NULL"); (1%nat, nm ++ " " ++ mid)]).
Proof.
  intros Hnm Hnb Hmid.
  destruct nm as [|n0 nm]; [contradiction|].
  cbn [forallb] in Hnb. apply andb_true_iff in Hnb as [Hb0 Hnb].
  assert (Hbr : only "[" n0 = false).
  { revert Hb0. clear. by_cases_on_char n0. }
  destruct (column_tail_ok (rev (nm ++ " " ++ mid) ++ [n0]) (str "NULL") None
              [(1%nat, n0 :: nm ++ " " ++ mid)]) as (sn' & Hok);
    [discriminate | reflexivity | exact I |].
  exists sn'. unfold re_match. rewrite re_column_unfold.
  assert (Hline : (n0 :: nm) ++ " " ++ mid ++ " NULL" =
                  n0 :: (nm ++ " " ++ mid) ++ str " NULL").
  { cbn [app]. rewrite <- !app_assoc. reflexivity. }
  rewrite Hline.
  rewrite run_seq, run_opt_miss by (apply run_chr_miss; exact Hbr).
  rewrite run_seq, run_grp. unfold Plus at 1.
  rewrite run_seq, run_chr_hit by exact Hb0.
  apply run_star_back.
  - rewrite !forallb_app, Hnb, Hmid. reflexivity.
  - intros x y Hxy Hx. cbn [seen rest caps].
    apply column_tail_fails.
    destruct x as [|x0 x]; [contradiction|].
    injection Hxy as _ Hxy.
    destruct y as [|c y]; [exact I|].
    assert (Hc : type_char c = true).
    { assert (HT : forallb type_char (x ++ c :: y) = true)
        by (rewrite <- Hxy; reflexivity).
      rewrite forallb_app in HT. apply andb_true_iff in HT as [_ HT].
      cbn [forallb] in HT. apply andb_true_iff in HT as [HT _]. exact HT. }
    apply type_char_facts in Hc. split; apply Hc.
  - cbn [seen rest caps]. rewrite passed_rev_cons.
    refine (eq_trans Hok _). reflexivity.
Qed.

Lemma unbracketed_null_line (nm mid : text) :
  plain_name nm = true ->
  forallb (none_of "[]") mid = true -> no_equals mid ->
  parse_column_line (nm ++ " " ++ mid ++ " NULL") =
  Ok (Some (Column (nm ++ " " ++ mid) "null" None true)).
Proof.
  intros Hplain Hmid Hme.
  pose proof Hplain as Hp. unfold plain_name in Hp.
  apply andb_true_iff in Hp as [Hp _]. apply andb_true_iff in Hp as [Hne Hid].
  assert (Hnm : nm <> []) by (intros ->; discriminate).
  assert (Hnb : forallb (none_of "[]") nm = true).
  { revert Hid. apply forallb_impl_in. intros x Hx. apply ident_char_facts, Hx. }
  assert (Hstrip : strip (nm ++ " " ++ mid ++ " NULL") = nm ++ " " ++ mid ++ " NULL").
  { apply strip_fixed.
    - destruct nm; [contradiction | discriminate].
    - destruct nm as [|c nm]; [contradiction|]. cbn [app hd].
      cbn [forallb] in Hid. apply andb_true_iff in Hid as [Hc _].
      apply ident_char_facts in Hc. apply Hc.
    - rewrite !app_assoc. rewrite last_app_nonempty by discriminate. reflexivity. }
  assert (Ht : truthy (nm ++ " " ++ mid ++ " NULL") = true)
    by (destruct nm; [contradiction | reflexivity]).
  assert (Heq : contains "=" (nm ++ " " ++ mid ++ " NULL") = false).
  { apply (contains_char_false "=").
    apply no_equals_app; [apply ident_no_equals; exact Hid|].
    apply (no_equals_app (str " ")); [reflexivity|].
    apply no_equals_app; [exact Hme | reflexivity]. }
  destruct (re_column_last_word nm mid Hnm Hnb Hmid) as (sn' & Hm).
  unfold parse_column_line. rewrite Hstrip, Ht. cbn [negb].
  rewrite (re_skip_plain nm (mid ++ " NULL") Hplain), Heq. cbn [andb].
  rewrite Hm. reflexivity.
Qed.

(** The same line with its name in brackets; what follows the type is
    nothing or the words NOT NULL. *)
Lemma bracketed_line (nm ty : text) (args mods : option text) :
  nm <> [] -> forallb (none_of "[]") nm = true -> no_equals nm ->
  ty <> [] -> forallb letter_ ty = true ->
  params_ok args -> modifiers_ok mods ->
  parse_column_line ("[" ++ nm ++ "] " ++ ty ++ args_text args ++ tail_text mods) =
  Ok (Some (Column nm (lower ty) args
              (negb (contains "NOT NULL" (upper (mods_text mods)))))).
Proof.
  intros Hnm Hnb Hne Hty Hlet Hargs Hmods.
  change (str "[" ++ nm ++ str "] " ++ ty ++ args_text args ++ tail_text mods)
    with ("["%char :: nm ++ "]"%char :: " "%char :: ty ++ args_text args ++ tail_text mods).
  set (R := ty ++ args_text args ++ tail_text mods).
  assert (HR : R <> []).
  { unfold R. intros E. apply app_eq_nil in E as [E _]. contradiction. }
  assert (Hstrip : strip ("["%char :: nm ++ "]"%char :: " "%char :: R) =
                   "["%char :: nm ++ "]"%char :: " "%char :: R).
  { apply strip_fixed; [discriminate | reflexivity|].
    change ("["%char :: nm ++ "]"%char :: " "%char :: R)
      with (("["%char :: nm) ++ ["]"%char; " "%char] ++ R).
    rewrite !app_assoc, last_app_nonempty by exact HR.
    apply column_rest_last; assumption. }
  assert (Heq : contains "=" ("["%char :: nm ++ "]"%char :: " "%char :: R) = false).
  { apply (contains_char_false "=").
    change ("["%char :: nm ++ "]"%char :: " "%char :: R)
      with (str "[" ++ nm ++ str "] " ++ R).
    apply no_equals_app; [reflexivity|].
    apply no_equals_app; [exact Hne|].
    apply no_equals_app; [reflexivity|].
    apply column_rest_no_equals; assumption. }
  destruct (re_column_bracketed_name nm ty args mods Hnm Hnb Hty Hlet Hargs Hmods)
    as (sn' & Hm). fold R in Hm.
  unfold parse_column_line. rewrite Hstrip.
  cbn [truthy negb]. rewrite re_skip_bracket, Heq. cbn [andb]. rewrite Hm.
  assert (Hmt : (if truthy_opt (Some (mods_text mods)) then mods_text mods else [])
                = mods_text mods).
  { destruct (mods_text mods); reflexivity. }
  destruct args as [p|].
  - cbn [group_str group caps assoc Nat.eqb app bind].
    cbn [group caps assoc Nat.eqb] in Hmt |- *. rewrite Hmt. reflexivity.
  - cbn [group_str group caps assoc Nat.eqb app bind].
    cbn [group caps assoc Nat.eqb] in Hmt |- *. rewrite Hmt. reflexivity.
Qed.

(** ** Nullability *)

(** C5: the nullability flag does not follow the NOT NULL of the line when
    the name of the column is written without brackets.  On the line
    name, type, NOT NULL the pattern takes the name, the type and the word
    NOT for the name and NULL for the type; the modifier text is empty and
    the column is nullable.  With the name in brackets the same line gives
    the name, the type and a column that is not nullable. *)
Theorem unbracketed_not_null_is_nullable (nm ty : text) :
  plain_name nm = true -> ty <> [] -> forallb letter_ ty = true ->
  parse_column_line (nm ++ " " ++ ty ++ " NOT NULL") =
    Ok (Some (Column (nm ++ " " ++ ty ++ " NOT") "null" None true)) /\
  parse_column_line ("[" ++ nm ++ "] " ++ ty ++ " NOT NULL") =
    Ok (Some (Column nm (lower ty) None false)).
Proof.
  intros Hplain Hty Hlet.
  pose proof Hplain as Hp. unfold plain_name in Hp.
  apply andb_true_iff in Hp as [Hp _]. apply andb_true_iff in Hp as [Hne Hid].
  assert (Hnm : nm <> []) by (intros ->; discriminate).
  assert (Hnb : forallb (none_of "[]") nm = true).
  { revert Hid. apply forallb_impl_in. intros x Hx. apply ident_char_facts, Hx. }
  split.
  - pose proof (unbracketed_null_line nm (ty ++ " NOT") Hplain) as H.
    rewrite <- !app_assoc in H. apply H.
    + rewrite forallb_app. apply andb_true_iff. split; [|reflexivity].
      revert Hlet. apply forallb_impl_in. intros c. clear. by_cases_on_char c.
    + apply no_equals_app; [apply letters_no_equals; exact Hlet | reflexivity].
  - apply (bracketed_line nm ty None (Some (str "NOT NULL")));
      try assumption; try exact I.
    + apply ident_no_equals. exact Hid.
    + repeat split; discriminate.
Qed.

Lemma unbracketed_not_null_is_nullable_witness :
  parse_column_line ("Id" ++ " " ++ "int" ++ " NOT NULL") =
    Ok (Some (Column ("Id" ++ " " ++ "int" ++ " NOT") "null" None true)) /\
  parse_column_line ("[" ++ "Id" ++ "] " ++ "int" ++ " NOT NULL") =
    Ok (Some (Column "Id" (lower "int") None false)).
Proof.
  apply (unbracketed_not_null_is_nullable "Id" "int"); [reflexivity | discriminate | reflexivity].
Defined.

(** ** The round trip through the renderer *)

(** The type text of a renderable column and what it is made of. *)
Lemma rendered_type_facts (w : text) (args : option text) :
  w <> [] -> forallb is_upper w = true ->
  match args with
  | None => True
  | Some q => q <> [] /\ forallb plain_param_char q = true
  end ->
  forallb letter_ w = true /\ params_ok args /\
  forallb (none_of "[]") (w ++ args_text args) = true /\
  no_equals (w ++ args_text args) /\
  whole (w ++ args_text args).
Proof.
  intros Hw Hup Hargs.
  pose proof (type_text_chars w args Hup Hargs) as HT.
  split; [|split; [|split; [|split]]].
  - revert Hup. apply forallb_impl_in. intros x Hx. apply upper_char_facts, Hx.
  - destruct args as [q|]; [|exact I]. destruct Hargs as [Hq Hp].
    split; [exact Hq|]. split; [|split].
    + revert Hp. apply forallb_impl_in. intros x Hx. apply param_char_facts, Hx.
    + revert Hp. apply forallb_impl_in. intros x. clear. by_cases_on_char x.
    + revert Hp. unfold no_equals. apply forallb_impl_in. intros x. clear.
      by_cases_on_char x.
  - revert HT. apply forallb_impl_in. intros x Hx. apply type_char_facts, Hx.
  - revert HT. unfold no_equals. apply forallb_impl_in. intros x Hx.
    apply type_char_facts in Hx as (_ & _ & Hx & _). rewrite Hx. reflexivity.
  - apply whole_app.
    { apply whole_word. revert Hup. apply forallb_impl_in.
      intros x Hx. apply upper_char_facts, Hx. }
    apply whole_args. destruct args; [apply Hargs | exact I].
Qed.

(** The line of a renderable column: its indentation, then a body that is
    collected whole, survives stripping and is parsed to a nullable column
    with the name that is read back. *)
Lemma renderable_column_line (col : ColumnDefinition) :
  renderable col = true ->
  exists b col',
    column_def col = "  " ++ b /\
    whole ("  " ++ b) /\
    (forall ws, forallb is_space ws = true -> strip (ws ++ b) = b) /\
    columns_of_line b = [col'] /\
    col_name col' = name_read_back col /\ nullable col' = true.
Proof.
  unfold renderable. intros H. apply andb_true_iff in H as [Hname Hparams].
  destruct (convert_data_type_shape (col_type col) (col_params col) Hparams)
    as (w & args & HT & Hw & Hup & Hargs).
  destruct (rendered_type_facts w args Hw Hup Hargs)
    as (Hlet & Hpok & HTb & HTe & HTw).
  pose proof Hname as Hp. unfold plain_name in Hp.
  apply andb_true_iff in Hp as [Hp _]. apply andb_true_iff in Hp as [Hne Hid].
  assert (Hnm : col_name col <> []) by (intros E; rewrite E in Hne; discriminate).
  pose proof (forallb_impl_in _ _ _ ident_type_char Hid) as Hnmc.
  pose proof (type_text_chars w args Hup Hargs) as HTc.
  assert (HTne : w ++ args_text args <> [])
    by (intros E; apply app_eq_nil in E as [E _]; contradiction).
  assert (Hwn : whole (col_name col)).
  { apply whole_word. revert Hid. apply forallb_impl_in.
    intros x Hx. apply ident_char_facts, Hx. }
  assert (Hhd : is_space (hd " "%char (col_name col)) = false).
  { destruct (col_name col) as [|c nm]; [contradiction|]. cbn [hd].
    cbn [forallb] in Hid. apply andb_true_iff in Hid as [Hc _].
    apply ident_char_facts in Hc. apply Hc. }
  unfold column_def, name_read_back. rewrite HT.
  destruct (nullable col).
  - exists (col_name col ++ " " ++ w ++ args_text args),
           (Column (col_name col) (lower w) args true).
    split; [|split; [|split; [|split; [|split]]]].
    + rewrite app_nil_r. reflexivity.
    + apply (whole_app (str "  ")); [apply whole_word; reflexivity|].
      apply whole_app; [exact Hwn|].
      apply (whole_app (str " ")); [apply whole_word; reflexivity | exact HTw].
    + intros ws Hws. apply strip_rendered; assumption.
    + unfold columns_of_line.
      rewrite parse_rendered_line by assumption. reflexivity.
    + reflexivity.
    + reflexivity.
  - exists (col_name col ++ " " ++ ((w ++ args_text args) ++ " NOT") ++ " NULL"),
           (Column (col_name col ++ " " ++ (w ++ args_text args) ++ " NOT")
              "null" None true).
    split; [|split; [|split; [|split; [|split]]]].
    + change (str " NOT NULL") with (str " NOT" ++ str " NULL").
      rewrite <- !app_assoc. reflexivity.
    + apply (whole_app (str "  ")); [apply whole_word; reflexivity|].
      apply whole_app; [exact Hwn|].
      apply (whole_app (str " ")); [apply whole_word; reflexivity|].
      apply whole_app; [|apply whole_word; reflexivity].
      apply whole_app; [exact HTw | apply whole_word; reflexivity].
    + intros ws Hws. apply strip_spaces_fixed; [exact Hws | | |].
      * destruct (col_name col); [contradiction | discriminate].
      * destruct (col_name col) as [|c nm]; [contradiction | exact Hhd].
      * rewrite !app_assoc. rewrite last_app_nonempty by discriminate. reflexivity.
    + unfold columns_of_line.
      rewrite unbracketed_null_line; [rewrite <- !app_assoc; reflexivity | exact Hname | |].
      * rewrite forallb_app, HTb. reflexivity.
      * apply no_equals_app; [exact HTe | reflexivity].
    + reflexivity.
    + reflexivity.
Qed.

Lemma renderable_columns_lines (cs : list ColumnDefinition) :
  forallb renderable cs = true ->
  exists bodies,
    map column_def cs = map (fun b => "  " ++ b) bodies /\
    (forall b, In b bodies ->
       whole ("  " ++ b) /\
       forall ws, forallb is_space ws = true -> strip (ws ++ b) = b) /\
    map col_name (flat_map columns_of_line bodies) = map name_read_back cs /\
    map nullable (flat_map columns_of_line bodies) = map (fun _ => true) cs.
Proof.
  induction cs as [|col cs IH]; intros H.
  - exists []. split; [reflexivity|]. split; [intros x []|]. split; reflexivity.
  - cbn [forallb] in H. apply andb_true_iff in H as [Hcol Hcs].
    destruct (IH Hcs) as (bodies & Hmap & Hall & Hnames & Hnulls).
    destruct (renderable_column_line col Hcol)
      as (b0 & col' & Hb & Hwhole & Htight & Hline & Hn1 & Hn2).
    exists (b0 :: bodies). cbn [map flat_map]. rewrite Hline. cbn [app map].
    split; [rewrite Hb, Hmap; reflexivity|].
    split.
    { intros x [<-|Hx]; [split; assumption | apply Hall, Hx]. }
    split; [rewrite Hn1, Hnames | rewrite Hn2, Hnulls]; reflexivity.
Qed.

Lemma bracketed_line_last (nm ty : text) (args mods : option text) :
  ty <> [] -> forallb letter_ ty = true -> modifiers_ok mods ->
  is_space (last ("[" ++ nm ++ "] " ++ ty ++ args_text args ++ tail_text mods)
              " "%char) = false.
Proof.
  intros Hty Hlet Hmods.
  set (R := ty ++ args_text args ++ tail_text mods).
  assert (HR : R <> []).
  { unfold R. intros E. apply app_eq_nil in E as [E _]. contradiction. }
  change (str "[" ++ nm ++ str "] " ++ R)
    with (("["%char :: nm) ++ ["]"%char; " "%char] ++ R).
  rewrite !app_assoc, last_app_nonempty by exact HR.
  apply column_rest_last; assumption.
Qed.

(** The line the renderer would write for a column whose name is put in
    brackets is read as that column. *)
Lemma bracketed_rendered_line (col : ColumnDefinition) :
  renderable col = true ->
  exists ty params,
    parse_column_line
      (column_def (Column ("[" ++ col_name col ++ "]") (col_type col) (col_params col)
                     (nullable col))) =
    Ok (Some (Column (col_name col) ty params (nullable col))).
Proof.
  unfold renderable. intros H. apply andb_true_iff in H as [Hname Hparams].
  destruct (convert_data_type_shape (col_type col) (col_params col) Hparams)
    as (w & args & HT & Hw & Hup & Hargs).
  destruct (rendered_type_facts w args Hw Hup Hargs)
    as (Hlet & Hpok & HTb & HTe & HTw).
  pose proof Hname as Hp. unfold plain_name in Hp.
  apply andb_true_iff in Hp as [Hp _]. apply andb_true_iff in Hp as [Hne Hid].
  assert (Hnm : col_name col <> []) by (intros E; rewrite E in Hne; discriminate).
  assert (Hnb : forallb (none_of "[]") (col_name col) = true).
  { revert Hid. apply forallb_impl_in. intros x Hx. apply ident_char_facts, Hx. }
  exists (lower w), args.
  unfold column_def. cbn [col_name col_type col_params nullable]. rewrite HT.
  set (mods := if nullable col then None else Some (str "NOT NULL")).
  assert (Hmods : modifiers_ok mods).
  { unfold mods. destruct (nullable col); [exact I|]. repeat split; discriminate. }
  assert (Hnull : negb (contains "NOT NULL" (upper (mods_text mods))) = nullable col).
  { unfold mods. destruct (nullable col); reflexivity. }
  rewrite <- Hnull at 2.
  rewrite <- (bracketed_line (col_name col) w args mods Hnm Hnb
                (ident_no_equals _ Hid) Hw Hlet Hpok Hmods).
  apply parse_column_line_strip.
  match goal with
  | |- strip ?L = _ =>
      assert (Hbody : L = str "  " ++ ("[" ++ col_name col ++ "] " ++ w ++
                                       args_text args ++ tail_text mods))
  end.
  { unfold mods. destruct (nullable col); cbn [tail_text];
      rewrite <- !app_assoc; reflexivity. }
  rewrite Hbody.
  rewrite (strip_spaces_fixed (str "  ")); [symmetry; apply strip_fixed| | | |].
  - discriminate.
  - reflexivity.
  - apply bracketed_line_last; assumption.
  - reflexivity.
  - discriminate.
  - reflexivity.
  - apply bracketed_line_last; assumption.
Qed.

(** C4: the round trip loses every NOT NULL column.  For a table whose
    columns the renderer writes as column lines (names that are identifiers
    and do not begin with a keyword of the filter, plain params), the column
    section of the rendered text is parsed to as many columns, in order;
    a nullable column comes back under its name, but a NOT NULL column comes
    back as nullable and under a name made of its name, its type and the
    word NOT.  Had the renderer put the name in brackets, the parser would
    read the line of every column with its name and its nullability. *)
Theorem not_null_is_lost_in_round_trip (table : TableDefinition) (use_catalog : bool) :
  forallb renderable (columns table) = true ->
  (exists full_table_name,
     generate_databricks_ddl table use_catalog =
     ("CREATE TABLE IF NOT EXISTS " ++ full_table_name ++ " (") ++ nl ++
     column_section table ++ nl ++ ")" ++ nl ++ "USING DELTA;") /\
  (exists cols,
     _parse_columns (column_section table) = Ok cols /\
     map col_name cols = map name_read_back (columns table) /\
     map nullable cols = map (fun _ => true) (columns table)) /\
  (forall col, In col (columns table) ->
     exists ty params,
       parse_column_line
         (column_def (Column ("[" ++ col_name col ++ "]") (col_type col)
                        (col_params col) (nullable col))) =
       Ok (Some (Column (col_name col) ty params (nullable col)))).
Proof.
  intros H. split; [apply generate_databricks_ddl_parts|]. split.
  - destruct (renderable_columns_lines (columns table) H)
      as (bodies & Hmap & Hall & Hnames & Hnulls).
    exists (flat_map columns_of_line bodies).
    split; [|split; assumption].
    rewrite parse_columns_spec. f_equal. f_equal.
    unfold column_section. rewrite Hmap, smart_split_finish.
    destruct bodies as [|b bodies]; [reflexivity|].
    apply (smart_split_lines (b :: bodies) Hall); [discriminate | reflexivity].
  - intros col Hin. apply bracketed_rendered_line.
    rewrite forallb_forall in H. apply H. exact Hin.
Qed.

Lemma not_null_is_lost_in_round_trip_witness :
  exists cols,
    _parse_columns
      (column_section
         (Table (Some (str "dbo")) "Orders"
            [Column "Id" "int" None false;
             Column "Amount" "decimal" (Some (str "10,2")) true])) = Ok cols /\
    map col_name cols = [str "Id INT NOT"; str "Amount"] /\
    map nullable cols = [true; true].
Proof.
  apply (not_null_is_lost_in_round_trip
           (Table (Some (str "dbo")) "Orders"
              [Column "Id" "int" None false;
               Column "Amount" "decimal" (Some (str "10,2")) true]) true).
  vm_compute. reflexivity.
Defined.
